(** * Peer evaluation pipeline: assignment, token store, submission
      handler and consensus grades.

    A shallow embedding of
      - [peer_evaluation/assignment_engine.py]   (module [Assigner]),
      - [peer_evaluation/stage2_db_manager.py]   (module [Store]),
      - [peer_evaluation/stage3_web_server.py]   (module [Web]),
      - [peer_evaluation/stage5_vancouver_processor.py] and
        [core/vancouver.py]                      (module [Consensus]),
    followed by the properties of the specification that concern them,
    and by further properties of the same files: the feasibility check and
    the modes of the assignment engine (modules [AssignerModes],
    [AssignerModesFacts]), the token table ([TokenFacts]), the form page
    and sequences of requests ([View], [ViewFacts]), whole runs of the
    consensus ([RunFacts]) and the weighted median of [core/vancouver.py]
    ([Median], [MedianFacts]). *)

From Stdlib Require Import ZArith QArith Reals Lra List Arith Lia Bool String Ascii
  Permutation Sorted DecimalString.
From stdpp Require Import base gmap strings list.

Local Open Scope string_scope.
Local Open Scope nat_scope.
Local Open Scope list_scope.

(* ===================================================================== *)
(** ** The generator behind [random.seed] and [random.shuffle] *)
(* ===================================================================== *)

(** The assignment engine calls [random.seed(random_seed)] and
    [random.shuffle(shuffled_students)].  This module transcribes the
    generator of the Python runtime that those two calls run (the 32-bit
    Mersenne Twister with its array seeding, [getrandbits], the rejection
    sampling of [_randbelow] and the swap loop of [shuffle]), so that the
    order used for a given integer seed can be computed. *)
Module PyRandom.

Local Open Scope Z_scope.

Definition N : nat := 624.
Definition M : nat := 397.
Definition MATRIX_A : Z := 0x9908b0df.
Definition UPPER_MASK : Z := 0x80000000.
Definition LOWER_MASK : Z := 0x7fffffff.
Definition mask32 (x : Z) : Z := Z.land x 0xffffffff.

Record state := mk_state { mt : list Z; index : nat }.

Definition word (l : list Z) (i : nat) : Z := nth i l 0.

(** [init_genrand(s)]: [mt[i] = 1812433253 * (mt[i-1] ^ (mt[i-1] >> 30)) + i]. *)
Fixpoint init_words (n : nat) (i : Z) (prev : Z) : list Z :=
  match n with
  | O => []
  | S n' =>
      let x := mask32 (1812433253 * Z.lxor prev (Z.shiftr prev 30) + i) in
      x :: init_words n' (i + 1) x
  end.

Definition init_genrand (s : Z) : state :=
  let s0 := mask32 s in
  mk_state (s0 :: init_words (Nat.pred N) 1 s0) N.

(** The two mixing loops of [init_by_array]. *)
Fixpoint key_loop (k : nat) (key : list Z) (l : list Z) (i j : nat)
    : list Z * nat :=
  match k with
  | O => (l, i)
  | S k' =>
      let p := word l (Nat.pred i) in
      let x := mask32 (Z.lxor (word l i) (Z.lxor p (Z.shiftr p 30) * 1664525)
                       + word key j + Z.of_nat j) in
      let l1 := <[i := x]> l in
      let i1 := S i in
      let j1 := S j in
      let '(l2, i2) :=
        if (N <=? i1)%nat then (<[O := word l1 (Nat.pred N)]> l1, 1%nat)
        else (l1, i1) in
      let j2 := if (length key <=? j1)%nat then O else j1 in
      key_loop k' key l2 i2 j2
  end.

Fixpoint index_loop (k : nat) (l : list Z) (i : nat) : list Z :=
  match k with
  | O => l
  | S k' =>
      let p := word l (Nat.pred i) in
      let x := mask32 (Z.lxor (word l i) (Z.lxor p (Z.shiftr p 30) * 1566083941)
                       - Z.of_nat i) in
      let l1 := <[i := x]> l in
      let i1 := S i in
      let '(l2, i2) :=
        if (N <=? i1)%nat then (<[O := word l1 (Nat.pred N)]> l1, 1%nat)
        else (l1, i1) in
      index_loop k' l2 i2
  end.

Definition init_by_array (key : list Z) : state :=
  let s := init_genrand 19650218 in
  let '(l1, i1) := key_loop (Nat.max N (length key)) key (mt s) 1 0 in
  let l2 := index_loop (Nat.pred N) l1 i1 in
  mk_state (<[O := 0x80000000]> l2) N.

(** The 32-bit digits of [abs(seed)], least significant first; one digit
    [0] for the seed [0]. *)
Fixpoint key_digits (fuel : nat) (n : Z) : list Z :=
  match fuel with
  | O => []
  | S fuel' =>
      if n <? 2 ^ 32 then [n]
      else (n mod 2 ^ 32) :: key_digits fuel' (n / 2 ^ 32)
  end.

(** [random.seed(a)] for an integer [a]. *)
Definition seed (a : Z) : state :=
  let n := Z.abs a in
  init_by_array (key_digits (S (Z.to_nat (Z.log2 n))) n).

(** The regeneration of the [N] words, in place. *)
Fixpoint twist_loop (fuel : nat) (kk : nat) (l : list Z) : list Z :=
  match fuel with
  | O => l
  | S fuel' =>
      let y := Z.lor (Z.land (word l kk) UPPER_MASK)
                     (Z.land (word l (S kk mod N)) LOWER_MASK) in
      let mag := if Z.testbit y 0 then MATRIX_A else 0 in
      let x := Z.lxor (Z.lxor (word l ((kk + M) mod N)) (Z.shiftr y 1)) mag in
      twist_loop fuel' (S kk) (<[kk := x]> l)
  end.

(** [genrand_uint32]. *)
Definition genrand_uint32 (s : state) : Z * state :=
  let '(l, i) :=
    if (N <=? index s)%nat then (twist_loop N 0 (mt s), O)
    else (mt s, index s) in
  let y0 := word l i in
  let y1 := Z.lxor y0 (Z.shiftr y0 11) in
  let y2 := Z.lxor y1 (Z.land (Z.shiftl y1 7) 0x9d2c5680) in
  let y3 := Z.lxor y2 (Z.land (Z.shiftl y2 15) 0xefc60000) in
  let y4 := Z.lxor y3 (Z.shiftr y3 18) in
  (y4, mk_state l (S i)).

(** [getrandbits(k)] for [0 < k <= 32]. *)
Definition getrandbits (k : Z) (s : state) : Z * state :=
  let '(r, s') := genrand_uint32 s in (Z.shiftr r (32 - k), s').

Definition bit_length (n : Z) : Z := if n =? 0 then 0 else Z.log2 n + 1.

(** [_randbelow(n)]: draw [bit_length n] bits until the value is below
    [n].  [fuel] bounds the number of draws. *)
Fixpoint randbelow (fuel : nat) (n : Z) (s : state) : option (Z * state) :=
  match fuel with
  | O => None
  | S fuel' =>
      let '(r, s') := getrandbits (bit_length n) s in
      if n <=? r then randbelow fuel' n s' else Some (r, s')
  end.

Definition swap (x : list string) (i j : nat) : list string :=
  <[j := nth i x ""]> (<[i := nth j x ""]> x).

(** [for i in reversed(range(1, len(x))): j = randbelow(i + 1); swap]:
    [i] runs from [len(x) - 1] down to [1]. *)
Fixpoint shuffle_loop (fuel : nat) (i : nat) (x : list string) (s : state)
    : option (list string * state) :=
  match i with
  | O => Some (x, s)
  | S i' =>
      match randbelow fuel (Z.of_nat (S i)) s with
      | None => None
      | Some (j, s') => shuffle_loop fuel i' (swap x i (Z.to_nat j)) s'
      end
  end.

(** [random.shuffle(x)] from the generator state [s]. *)
Definition shuffle_from (fuel : nat) (s : state) (x : list string)
    : option (list string * state) :=
  shuffle_loop fuel (Nat.pred (length x)) x s.

(** The number of draws allowed to one [_randbelow] call of the model. *)
Definition draws : nat := 4096.

(** [random.seed(a); random.shuffle(x)].  Without a seed the generator
    state comes from the operating system and the order is not determined
    by the program; the model then leaves the list as it is, as it does
    when a [_randbelow] call of the model used up its draws. *)
Definition shuffle (a : option Z) (x : list string) : list string :=
  match a with
  | None => x
  | Some a' =>
      match shuffle_from draws (seed a') x with
      | Some (x', _) => x'
      | None => x
      end
  end.

End PyRandom.

(* ===================================================================== *)
(** ** The assignment engine *)
(* ===================================================================== *)

Module Assigner.

(** One value of the [assignments] dictionary:
    [{'assigned_papers': [...], 'evaluators': [...]}]. *)
Record entry := mk_entry {
  assigned_papers : list string;
  evaluators : list string
}.

(** The configuration keys read under ["peer_assignment"]. *)
Record assignment_config := mk_config {
  assignments_per_student : nat;
  allow_self_evaluation : bool;
  random_seed : option Z
}.

(** [shuffled_students[target_index]]; the index is always taken modulo
    the length of the list, so the default is never returned for a
    non-empty list. *)
Definition item (l : list string) (i : nat) : string := nth i l "".

(** The [while len(assigned_papers) < assignments_per_student] loop of
    [_generate_perfect_balanced_assignments], for the evaluator at position
    [i].  [fuel] bounds the number of iterations; [None] means the bound
    was reached before the loop ended. *)
Fixpoint assign_loop (fuel : nat) (shuffled : list string)
    (total_students k : nat) (allow_self : bool) (i : nat)
    (evaluator : string) (offset : nat) (assigned : list string)
    : option (list string) :=
  if negb (length assigned <? k) then Some assigned
  else
    match fuel with
    | O => None
    | S fuel' =>
        let target_index := (i + offset) mod total_students in
        let target_student := item shuffled target_index in
        let assigned' :=
          if allow_self || negb (String.eqb target_student evaluator)
          then assigned ++ [target_student] else assigned in
        let offset' := offset + 1 in
        if total_students <? offset' then Some assigned'
        else assign_loop fuel' shuffled total_students k allow_self i
               evaluator offset' assigned'
    end.

(** The papers of the evaluator at position [i]: the loop started at
    [offset = 1] (or [0] when self evaluation is allowed).  The loop leaves
    at the latest when [offset] exceeds [total_students], so
    [total_students + 1] iterations are enough. *)
Definition papers_of (shuffled : list string) (total_students k : nat)
    (allow_self : bool) (i : nat) (evaluator : string)
    : option (list string) :=
  assign_loop (S total_students) shuffled total_students k allow_self i
    evaluator (if allow_self then 0 else 1) [].

(** [assignments[paper_owner]['evaluators'].append(evaluator)]. *)
Definition add_evaluator (evaluator : string) (e : entry) : entry :=
  mk_entry (assigned_papers e) (evaluators e ++ [evaluator]).

(** [assignments[evaluator]['assigned_papers'] = assigned_papers]. *)
Definition set_papers (papers : list string) (e : entry) : entry :=
  mk_entry papers (evaluators e).

(** The end of the body of [for i, evaluator in enumerate(...)]: the
    evaluator's papers are stored, then the evaluator is appended to the
    [evaluators] list of every paper owner. *)
Definition record_evaluator (evaluator : string) (papers : list string)
    (assignments : gmap string entry) : gmap string entry :=
  foldl (fun a paper_owner => alter (add_evaluator evaluator) paper_owner a)
        (alter (set_papers papers) evaluator assignments) papers.

Fixpoint ring_loop (shuffled : list string) (total_students k : nat)
    (allow_self : bool) (i : nat) (rest : list string)
    (assignments : gmap string entry) : option (gmap string entry) :=
  match rest with
  | [] => Some assignments
  | evaluator :: rest' =>
      match papers_of shuffled total_students k allow_self i evaluator with
      | None => None
      | Some papers =>
          ring_loop shuffled total_students k allow_self (S i) rest'
            (record_evaluator evaluator papers assignments)
      end
  end.

(** [for student in self.students: assignments[student] = {...}]. *)
Definition init_assignments (students : list string) : gmap string entry :=
  foldl (fun a student => <[student := mk_entry [] []]> a) ∅ students.

Section Engine.

(** [random.seed(seed)] (when the seed is not [None]) followed by
    [random.shuffle] on a copy of the list: a function of the seed and
    of the list, [PyRandom.shuffle] for the Python runtime. *)
Variable shuffle : option Z -> list string -> list string.

(** [AssignmentEngine._generate_perfect_balanced_assignments]. *)
Definition _generate_perfect_balanced_assignments
    (cfg : assignment_config) (students : list string)
    : option (gmap string entry) :=
  let assignments := init_assignments students in
  let total_students := length students in
  let shuffled_students := shuffle (random_seed cfg) students in
  ring_loop shuffled_students total_students (assignments_per_student cfg)
    (allow_self_evaluation cfg) 0 shuffled_students assignments.

End Engine.

(** The relation [reviews] read off the result: [u] reviews [i] when [i]
    is among the papers assigned to [u]. *)
Definition reviews (a : gmap string entry) (u i : string) : bool :=
  match a !! u with
  | Some e => bool_decide (i ∈ assigned_papers e)
  | None => false
  end.

(** Number of papers of the roster that [u] reviews. *)
Definition out_degree (a : gmap string entry) (students : list string)
    (u : string) : nat :=
  length (filter (fun i => reviews a u i = true) students).

(** Number of students of the roster that review the paper of [i]. *)
Definition in_degree (a : gmap string entry) (students : list string)
    (i : string) : nat :=
  length (filter (fun u => reviews a u i = true) students).

(** The papers per student, in the order of the roster, and the in-degree
    per student: the two things scenario E1 lists. *)
Definition papers_table (students : list string) (a : gmap string entry)
    : list (string * option (list string)) :=
  (fun s => (s, assigned_papers <$> a !! s)) <$> students.

Definition in_degrees (students : list string) (a : gmap string entry)
    : list nat :=
  in_degree a students <$> students.

(** Scenario E1: five students, two papers each, no self evaluation,
    seed 0. *)
Definition roster_E1 : list string := ["A"; "B"; "C"; "D"; "E"].
Definition config_E1 : assignment_config := mk_config 2 false (Some 0%Z).

End Assigner.

(* ===================================================================== *)
(** ** Values of the decoded request and of the database *)
(* ===================================================================== *)

Module Py.

(** A decoded JSON value, as [request.get_json()] returns it.  A float is
    kept by its exact rational value. *)
#[warnings="-register-all"]
Inductive value :=
| JNull
| JBool (b : bool)
| JInt (z : Z)
| JFloat (q : Q)
| JStr (s : string)
| JList (l : list value)
| JDict (members : list (string * value)).

(** Truth value of a Python object: [if not v]. *)
Definition truthy (v : value) : bool :=
  match v with
  | JNull => false
  | JBool b => b
  | JInt z => negb (z =? 0)%Z
  | JFloat q => negb (Qeq_bool q 0)
  | JStr s => negb (String.eqb s "")
  | JList l => match l with [] => false | _ => true end
  | JDict m => match m with [] => false | _ => true end
  end.

(** [d.get(key)] on the members of a dictionary. *)
Fixpoint dict_get (key : string) (members : list (string * value))
    : option value :=
  match members with
  | [] => None
  | (k, v) :: rest => if String.eqb k key then Some v else dict_get key rest
  end.

(** The exceptions the modelled code can raise. *)
Inductive exn :=
| KeyError (key : string)
| TypeError
| IntegrityError
| InterfaceError
| OverflowError.

Inductive result (A : Type) :=
| Ok (a : A)
| Raise (e : exn).
Arguments Ok {A} a.
Arguments Raise {A} e.

End Py.

(* ===================================================================== *)
(** ** The store: [DatabaseManager] *)
(* ===================================================================== *)

Module Store.
Import Py.

(** An instant; [datetime.now().isoformat()] and [fromisoformat] are
    inverse of each other, so instants are kept as numbers. *)
Definition timestamp := Z.
Bind Scope Z_scope with timestamp.

(** A value bound to a parameter of a statement. *)
Inductive sqlval :=
| SNull
| SInt (z : Z)
| SReal (q : Q)
| SText (s : string).

(** What the database driver makes of a Python object used as a statement
    parameter: lists and dictionaries are refused ([InterfaceError]), an
    integer outside 64 bits too ([OverflowError]). *)
Definition bind_param (v : value) : result sqlval :=
  match v with
  | JNull => Ok SNull
  | JBool b => Ok (SInt (if b then 1 else 0))
  | JInt z =>
      if ((- 2 ^ 63 <=? z) && (z <? 2 ^ 63))%Z then Ok (SInt z)
      else Raise OverflowError
  | JFloat q => Ok (SReal q)
  | JStr s => Ok (SText s)
  | JList _ | JDict _ => Raise InterfaceError
  end.

(** *** Column affinity

    The columns [question_id] and [comment] of table [submissions] are
    declared [TEXT] and the column [score] is declared [INTEGER]: SQLite
    converts the value bound to a parameter to the affinity of the column
    it is stored in.  A number stored in a [TEXT] column becomes its text;
    in an [INTEGER] column, a real that is an integer becomes that
    integer, and a text that spells a number becomes that number. *)

(** What a column holds after an insert: a value, or one of the two
    results that depend on the floating-point routines of SQLite, which
    are named and not computed.  [RealAsText q] is the text SQLite prints
    for the real [q] (as [printf("%!.15g")] does); [TextAsNumber s] is the
    number SQLite reads in the text [s], a literal with a fraction, an
    exponent or more than 64 bits: the real nearest to it, or the integer
    equal to that real when there is one within 64 bits. *)
Inductive cell :=
| Held (v : sqlval)
| RealAsText (q : Q)
| TextAsNumber (s : string).

(** The white space and the digits of SQLite: space, tab, line feed,
    vertical tab, form feed and carriage return; [0] to [9]. *)
Definition sql_space (c : ascii) : bool :=
  let n := nat_of_ascii c in
  (n =? 32)%nat || ((9 <=? n)%nat && (n <=? 13)%nat).

Definition sql_digit (c : ascii) : bool :=
  let n := nat_of_ascii c in (48 <=? n)%nat && (n <=? 57)%nat.

Fixpoint skip_spaces (l : list ascii) : list ascii :=
  match l with
  | c :: rest => if sql_space c then skip_spaces rest else l
  | [] => []
  end.

(** The digits at the head of the list: their number, their value after
    [acc], and what follows them. *)
Fixpoint digits (l : list ascii) (count : nat) (acc : Z)
    : nat * Z * list ascii :=
  match l with
  | c :: rest =>
      if sql_digit c
      then digits rest (S count) (10 * acc + Z.of_nat (nat_of_ascii c - 48))%Z
      else (count, acc, l)
  | [] => (count, acc, [])
  end.

Definition skip_sign (l : list ascii) : bool * list ascii :=
  match l with
  | "-"%char :: rest => (true, rest)
  | "+"%char :: rest => (false, rest)
  | _ => (false, l)
  end.

(** How SQLite reads a text stored in a column of numeric affinity:
    white space, a sign, digits, a point and digits, an exponent ([e] or
    [E], a sign, at least one digit), white space, and nothing else; at
    least one digit before the exponent.  A text without point and
    exponent is an integer literal. *)
Inductive number_text :=
| NotNumber
| IntegerLiteral (z : Z)
| RealLiteral.

Definition read_number (s : string) : number_text :=
  let l := skip_spaces (list_ascii_of_string s) in
  let (negative, l) := skip_sign l in
  let '(n_int, z, l) := digits l 0 0 in
  let '(n_frac, has_point, l) :=
    match l with
    | "."%char :: rest => let '(n, _, l') := digits rest 0 0 in (n, true, l')
    | _ => (O, false, l)
    end in
  let '(exponent_ok, has_exponent, l) :=
    match l with
    | "e"%char :: rest | "E"%char :: rest =>
        let '(n, _, l') := digits (snd (skip_sign rest)) 0 0 in
        (negb (n =? 0)%nat, true, l')
    | _ => (true, false, l)
    end in
  match skip_spaces l with
  | [] =>
      if negb (n_int + n_frac =? 0)%nat && exponent_ok
      then if has_point || has_exponent then RealLiteral
           else IntegerLiteral (if negative then - z else z)
      else NotNumber
  | _ => NotNumber
  end.

(** The text of an integer: its decimal digits, after [-] when it is
    negative. *)
Definition decimal (z : Z) : string := NilZero.string_of_int (Z.to_int z).

(** A value stored in a column declared [TEXT]. *)
Definition text_affinity (v : sqlval) : cell :=
  match v with
  | SInt z => Held (SText (decimal z))
  | SReal q => RealAsText q
  | _ => Held v
  end.

(** A value stored in a column declared [INTEGER]. *)
Definition integer_affinity (v : sqlval) : cell :=
  match v with
  | SText s =>
      match read_number s with
      | NotNumber => Held v
      | IntegerLiteral z =>
          if ((- 2 ^ 63 <=? z) && (z <? 2 ^ 63))%Z then Held (SInt z)
          else TextAsNumber s
      | RealLiteral => TextAsNumber s
      end
  | SReal q =>
      let z := (Qnum q / Zpos (Qden q))%Z in
      if ((Qnum q mod Zpos (Qden q) =? 0) && (- 2 ^ 63 <? z)
          && (z <? 2 ^ 63 - 1))%Z
      then Held (SInt z)
      else Held v
  | _ => Held v
  end.

(** A row of table [tokens]. *)
Record token_row := mk_token_row {
  tk_token : string;
  tk_evaluator_id : string;
  tk_evaluator_name : string;
  tk_email : string;
  tk_target_id : string;
  tk_questions : list string;
  tk_created_at : timestamp;
  tk_expires_at : timestamp;
  tk_status : string;
  tk_is_used : bool;
  tk_used_at : option timestamp;
  tk_ip_address : option string;
  tk_user_agent : option string
}.

(** A row of table [submissions].  The three columns filled from the
    request hold the bound value as the affinity of the column converts
    it; the other columns are given strings, which a [TEXT] column keeps
    as they are, and the instant of the insert. *)
Record submission_row := mk_submission_row {
  sb_id : nat;
  sb_token : string;
  sb_evaluator_id : string;
  sb_target_id : string;
  sb_question_id : cell;
  sb_score : cell;
  sb_comment : cell;
  sb_submitted_at : timestamp;
  sb_ip_address : option string;
  sb_user_agent : option string
}.

(** The [details] text of a log row. *)
Inductive log_details :=
| ViewForm
| Submitted (count : nat)
| SubmitFailed (e : exn).

(** A row of table [submission_logs]. *)
Record log_row := mk_log_row {
  lg_id : nat;
  lg_token : option string;
  lg_action : string;
  lg_details : log_details;
  lg_ip_address : option string;
  lg_user_agent : option string;
  lg_timestamp : timestamp
}.

(** The database file: [tokens] has [token] as primary key; the two other
    tables are append-only with an [AUTOINCREMENT] key. *)
Record db := mk_db {
  tokens : gmap string token_row;
  submissions : list submission_row;
  logs : list log_row
}.

Definition empty_db : db := mk_db ∅ [] [].

(** The next value of an [AUTOINCREMENT] key: one more than the largest
    key of the table. *)
Definition next_id (ids : list nat) : nat := S (foldr Nat.max 0 ids).

(** Code that works on the database and may raise. *)
Definition M (A : Type) : Type := db -> result A * db.

Definition ret {A} (a : A) : M A := fun s => (Ok a, s).

Definition bind {A B} (m : M A) (k : A -> M B) : M B :=
  fun s =>
    match m s with
    | (Ok a, s') => k a s'
    | (Raise e, s') => (Raise e, s')
    end.

Definition raise {A} (e : exn) : M A := fun s => (Raise e, s).

Definition lift {A} (r : result A) : M A := fun s => (r, s).

(** [try: body  except Exception: handler]. *)
Definition try_except {A} (body : M A) (handler : exn -> M A) : M A :=
  fun s =>
    match body s with
    | (Ok a, s') => (Ok a, s')
    | (Raise e, s') => handler e s'
    end.

Notation "'let*' x ':=' m 'in' k" := (bind m (fun x => k))
  (at level 10, x pattern, m at level 200, k at level 200,
   format "'[v' 'let*'  x  ':='  m  'in' '/' k ']'").

(** [with self.get_connection() as conn: body]: the connection is
    committed when the body ends and rolled back, the exception raised
    again, when the body raises. *)
Definition get_connection {A} (body : M A) : M A :=
  fun s =>
    match body s with
    | (Ok a, s') => (Ok a, s')
    | (Raise e, _) => (Raise e, s)
    end.

(** The argument of [save_token]. *)
Record token_data := mk_token_data {
  td_token : string;
  td_evaluator_id : string;
  td_evaluator_name : string;
  td_email : string;
  td_target_id : string;
  td_questions : list string;
  td_created_at : option timestamp;
  td_expires_at : timestamp;
  td_status : option string;
  td_used : option bool
}.

(** [INSERT INTO tokens ...]: the primary key refuses a second row with
    the same token. *)
Definition insert_token (r : token_row) : M unit :=
  fun s =>
    match tokens s !! tk_token r with
    | Some _ => (Raise IntegrityError, s)
    | None =>
        (Ok tt, mk_db (<[tk_token r := r]> (tokens s)) (submissions s) (logs s))
    end.

(** [DatabaseManager.save_token]. *)
Definition save_token (now : timestamp) (t : token_data) : M bool :=
  try_except
    (get_connection
       (let* _ :=
          insert_token
               (mk_token_row (td_token t) (td_evaluator_id t)
                  (td_evaluator_name t) (td_email t) (td_target_id t)
                  (td_questions t)
                  (default now (td_created_at t)) (td_expires_at t)
                  (default "pending" (td_status t))
                  (default false (td_used t))
                  None None None) in
        ret true))
    (fun _ => ret false).

(** [DatabaseManager.save_tokens_batch]: the loop over the list, with the
    two counters. *)
Fixpoint save_tokens_loop (now : timestamp) (ts : list token_data)
    (success_count fail_count : nat) : M (nat * nat) :=
  match ts with
  | [] => ret (success_count, fail_count)
  | t :: rest =>
      let* ok := save_token now t in
      if ok then save_tokens_loop now rest (success_count + 1) fail_count
      else save_tokens_loop now rest success_count (fail_count + 1)
  end.

Definition save_tokens_batch (now : timestamp) (ts : list token_data)
    : M (nat * nat) :=
  save_tokens_loop now ts 0 0.

(** [DatabaseManager.get_token_info]. *)
Definition get_token_info (token : string) : M (option token_row) :=
  try_except
    (get_connection (fun s => (Ok (tokens s !! token), s)))
    (fun _ => ret None).

(** [DatabaseManager.validate_token]. *)
Definition validate_token (now : timestamp) (token : string)
    : M (bool * option token_row * string) :=
  let* token_info := get_token_info token in
  match token_info with
  | None => ret (false, None, "Token 不存在")
  | Some info =>
      if tk_is_used info then ret (false, Some info, "Token 已被使用")
      else if negb (String.eqb (tk_status info) "pending")
      then ret (false, Some info, String.append "Token 狀態異常: " (tk_status info))
      else if (tk_expires_at info <? now)%Z
      then ret (false, Some info, "Token 已過期")
      else ret (true, Some info, "")
  end.

(** [UPDATE tokens SET is_used = 1, status = 'submitted', used_at = ?,
    ip_address = ?, user_agent = ? WHERE token = ?]; the result is
    [cursor.rowcount]. *)
Definition update_token_used (now : timestamp) (token : string)
    (ip_address user_agent : option string) : M nat :=
  fun s =>
    match tokens s !! token with
    | None => (Ok 0, s)
    | Some r =>
        let r' :=
          mk_token_row (tk_token r) (tk_evaluator_id r) (tk_evaluator_name r)
            (tk_email r) (tk_target_id r) (tk_questions r) (tk_created_at r)
            (tk_expires_at r) "submitted" true (Some now)
            ip_address user_agent in
        (Ok 1, mk_db (<[token := r']> (tokens s)) (submissions s) (logs s))
    end.

(** [DatabaseManager.mark_token_used]. *)
Definition mark_token_used (now : timestamp) (token : string)
    (ip_address user_agent : option string) : M bool :=
  try_except
    (get_connection
       (let* rowcount := update_token_used now token ip_address user_agent in
        if 0 <? rowcount then ret true else ret false))
    (fun _ => ret false).

(** The dictionary the web handler passes to [save_submission]. *)
Record submission_data := mk_submission_data {
  sd_token : string;
  sd_evaluator_id : string;
  sd_target_id : string;
  sd_question_id : value;
  sd_score : value;
  sd_comment : value;
  sd_ip_address : option string;
  sd_user_agent : option string
}.

(** A [NOT NULL] column refuses [NULL]. *)
Definition not_null (v : sqlval) : M unit :=
  match v with
  | SNull => raise IntegrityError
  | _ => ret tt
  end.

(** [INSERT INTO submissions ...]; the result is [cursor.lastrowid].  The
    parameters are bound, the two [NOT NULL] columns are checked, and each
    value is stored under the affinity of its column: [question_id TEXT],
    [score INTEGER], [comment TEXT]. *)
Definition insert_submission (now : timestamp) (d : submission_data)
    : M nat :=
  let* question_id := lift (bind_param (sd_question_id d)) in
  let* score := lift (bind_param (sd_score d)) in
  let* comment := lift (bind_param (sd_comment d)) in
  let* _ := not_null question_id in
  let* _ := not_null score in
  fun s =>
    let id := next_id (sb_id <$> submissions s) in
    let row :=
      mk_submission_row id (sd_token d) (sd_evaluator_id d) (sd_target_id d)
        (text_affinity question_id) (integer_affinity score)
        (text_affinity comment) now (sd_ip_address d) (sd_user_agent d) in
    (Ok id, mk_db (tokens s) (submissions s ++ [row]) (logs s)).

(** [DatabaseManager.save_submission]. *)
Definition save_submission (now : timestamp) (d : submission_data)
    : M (option nat) :=
  try_except
    (get_connection (let* id := insert_submission now d in ret (Some id)))
    (fun _ => ret None).

(** [DatabaseManager.log_action]. *)
Definition log_action (now : timestamp) (action : string)
    (details : log_details) (token : option string)
    (ip_address user_agent : option string) : M bool :=
  try_except
    (get_connection
       (fun s =>
          let row :=
            mk_log_row (next_id (lg_id <$> logs s)) token action details
              ip_address user_agent now in
          (Ok true, mk_db (tokens s) (submissions s) (logs s ++ [row]))))
    (fun _ => ret false).

End Store.

(* ===================================================================== *)
(** ** The web handler: [POST /api/submit] *)
(* ===================================================================== *)

Module Web.
Import Py Store.

(** The body of a request, by what [request.get_json()] returns.  The
    model covers the bodies that are falsy ([NoData]: [null], an empty
    object, ...) or JSON objects whose member [token] is a string, [null]
    or missing; the member [submissions] is any value ([JNull] when
    missing). *)
Inductive body :=
| NoData
| Form (token : option string) (submissions : value).

Record request := mk_request {
  get_json : body;
  remote_addr : option string;
  header_user_agent : option string
}.

(** What [jsonify] is given: [{'error': message}] or
    [{'success': True, ..., 'submission_ids': [...]}]. *)
Inductive reply :=
| Error (message : string)
| Success (submission_ids : list (option nat)).

Record response := mk_response {
  reply_of : reply;
  status : nat
}.

(** The elements [for sub in submissions] goes through.  Only a list
    yields the entries of the form; a dictionary yields its keys and a
    string its characters, on which [sub['question_id']] raises
    [TypeError], as does the iteration over a number. *)
Definition iterate (submissions : value) : result (list value) :=
  match submissions with
  | JList l => Ok l
  | JDict m => Ok ((fun kv => JStr (fst kv)) <$> m)
  | JStr s => Ok ((fun c => JStr (String c EmptyString)) <$> list_ascii_of_string s)
  | _ => Raise TypeError
  end.

(** [sub[key]]. *)
Definition subscript (sub : value) (key : string) : result value :=
  match sub with
  | JDict m =>
      match dict_get key m with
      | Some v => Ok v
      | None => Raise (KeyError key)
      end
  | _ => Raise TypeError
  end.

(** [sub.get('comment', '')], reached only when [sub] is a dictionary. *)
Definition get_comment (sub : value) : result value :=
  match sub with
  | JDict m => Ok (default (JStr "") (dict_get "comment" m))
  | _ => Raise TypeError
  end.

(** The loop [for sub in submissions] of [submit_evaluation]. *)
Fixpoint save_loop (now : timestamp) (req : request) (token : string)
    (evaluator_id target_id : string) (subs : list value)
    (submission_ids : list (option nat)) : M (list (option nat)) :=
  match subs with
  | [] => ret submission_ids
  | sub :: rest =>
      let* question_id := lift (subscript sub "question_id") in
      let* score := lift (subscript sub "score") in
      let* comment := lift (get_comment sub) in
      let* submission_id :=
        save_submission now
          (mk_submission_data token evaluator_id target_id question_id
             score comment (remote_addr req) (header_user_agent req)) in
      save_loop now req token evaluator_id target_id rest
        (submission_ids ++ [submission_id])
  end.

(** [len(submissions)], reached only after the loop went through. *)
Definition len (submissions : value) : nat :=
  match submissions with
  | JList l => length l
  | JDict m => length m
  | JStr s => String.length s
  | _ => 0
  end.

(** [not token] for the member [token] of the body. *)
Definition no_token (token : option string) : bool :=
  match token with
  | None => true
  | Some t => String.eqb t ""
  end.

(** [submit_evaluation], handled at instant [now].  The [try] of the
    source spans the whole function; the steps before [validate_token]
    cannot raise on the bodies of the model. *)
Definition submit_evaluation (now : timestamp) (req : request) : M response :=
  match get_json req with
  | NoData => ret (mk_response (Error "無效的請求資料") 400)
  | Form token submissions =>
      if no_token token || negb (truthy submissions)
      then ret (mk_response (Error "缺少必要欄位") 400)
      else
        let token := default "" token in
        try_except
          (let* (is_valid, token_info, error_msg) := validate_token now token in
           if negb is_valid then ret (mk_response (Error error_msg) 403)
           else
             match token_info with
             | None => raise TypeError
             | Some token_info =>
                 if tk_is_used token_info
                 then ret (mk_response (Error "此 Token 已被使用") 400)
                 else
                   let* subs := lift (iterate submissions) in
                   let* submission_ids :=
                     save_loop now req token (tk_evaluator_id token_info)
                       (tk_target_id token_info) subs [] in
                   let* _ := mark_token_used now token (remote_addr req)
                          (header_user_agent req) in
                   let* _ := log_action now "submit" (Submitted (len submissions))
                          (Some token) (remote_addr req)
                          (header_user_agent req) in
                   ret (mk_response (Success submission_ids) 200)
             end)
          (fun e =>
             let* _ := log_action now "error" (SubmitFailed e) (Some token)
                    (remote_addr req) (header_user_agent req) in
             ret (mk_response (Error "提交失敗，請稍後再試") 500))
  end.

End Web.

(* ===================================================================== *)
(** ** The consensus engine *)
(* ===================================================================== *)

(** Scores are Python floats; the model computes with real numbers, so
    that sums do not depend on the order in which a set is enumerated and
    no rounding is involved.  What is stated about this module is
    therefore the formulas the code evaluates, the errors it raises and
    the shape of its results; a property that a rounding error of one
    unit in the last place can break (that a weighted average lies
    between the values averaged, that a reputation is exactly zero at the
    tolerance [v_G]) is not stated. *)
Module Consensus.

Local Open Scope R_scope.

(** A variance: a number or [float('inf')]. *)
Inductive xreal :=
| Finite (r : R)
| Infinity.

(** [max(a, b)] of Python: [b] when [b > a], else [a]. *)
Definition pymax (a b : R) : R := if Rlt_dec a b then b else a.

(** The comparisons [a == b] and [a < b]. *)
Definition eqb (a b : R) : bool := if Req_EM_T a b then true else false.
Definition ltb (a b : R) : bool := if Rlt_dec a b then true else false.

Definition sum (l : list R) : R := fold_right Rplus 0 l.

(** [np.mean]. *)
Definition mean (l : list R) : R := sum l / INR (length l).

(** [np.var]: the mean of the squared deviations from the mean. *)
Definition var (l : list R) : R :=
  mean ((fun x => (x - mean l) * (x - mean l)) <$> l).

(** [class User].  [user_grade] is the dictionary [grade], keyed by the
    id of the item; the attributes set by the algorithm are [None] until
    they are assigned. *)
Record User := mkUser {
  name : string;
  user_items : list string;
  user_grade : list (string * R);
  variance : option xreal;
  reputation : option R;
  incentive_weight : option R
}.

(** [class Item]; [item_users] holds the names of the users. *)
Record Item := mkItem {
  id : string;
  item_users : list string;
  item_grade : option R;
  item_variance : option R
}.

(** [class EnhancedGraph].  The two sets of objects are kept in the order
    of their creation, each object under its name. *)
Record EnhancedGraph := mkGraph {
  R_max : R;
  v_G : R;
  alpha : R;
  N : nat;
  basic_precision : R;
  items : list Item;
  users : list User
}.

(** [self.lambda_param = R_max / v_G]. *)
Definition lambda_param (g : EnhancedGraph) : R := R_max g / v_G g.

(** [EnhancedGraph(R_max, v_G, alpha, N, basic_precision)]: the
    constructor computes [R_max / v_G]; [None] stands for the
    [ZeroDivisionError] it raises when [v_G] is zero. *)
Definition new_graph (R_max v_G alpha : R) (N : nat) (basic_precision : R)
    : option EnhancedGraph :=
  if Req_EM_T v_G 0 then None
  else Some (mkGraph R_max v_G alpha N basic_precision [] []).

(** [self.user_dict.get(username)] and [self.item_dict.get(item_id)]. *)
Definition get_user (g : EnhancedGraph) (username : string) : option User :=
  List.find (fun u => String.eqb (name u) username) (users g).

Definition get_item (g : EnhancedGraph) (item_id : string) : option Item :=
  List.find (fun it => String.eqb (id it) item_id) (items g).

(** [s | set([x])] on a set of names. *)
Definition set_add (x : string) (s : list string) : list string :=
  if bool_decide (x ∈ s) then s else s ++ [x].

(** [d[key] = value] and [d.get(key)] on a dictionary. *)
Fixpoint dict_set (key : string) (value : R) (d : list (string * R))
    : list (string * R) :=
  match d with
  | [] => [(key, value)]
  | (k, v) :: rest =>
      if String.eqb k key then (k, value) :: rest
      else (k, v) :: dict_set key value rest
  end.

Fixpoint dict_get (key : string) (d : list (string * R)) : option R :=
  match d with
  | [] => None
  | (k, v) :: rest => if String.eqb k key then Some v else dict_get key rest
  end.

(** [User.add_item] and [Item.add_user]. *)
Definition add_item (it : string) (grade : R) (u : User) : User :=
  mkUser (name u) (set_add it (user_items u)) (dict_set it grade (user_grade u))
    (variance u) (reputation u) (incentive_weight u).

Definition add_user (u : string) (it : Item) : Item :=
  mkItem (id it) (set_add u (item_users it)) (item_grade it) (item_variance it).

(** Applies [f] to the object stored under a name. *)
Definition update_user (username : string) (f : User -> User)
    (l : list User) : list User :=
  (fun u => if String.eqb (name u) username then f u else u) <$> l.

Definition update_item (item_id : string) (f : Item -> Item)
    (l : list Item) : list Item :=
  (fun it => if String.eqb (id it) item_id then f it else it) <$> l.

(** [EnhancedGraph.add_review]. *)
Definition add_review (username item_id : string) (grade : R)
    (g : EnhancedGraph) : EnhancedGraph :=
  let users1 :=
    match get_user g username with
    | Some _ => users g
    | None => users g ++ [mkUser username [] [] None None None]
    end in
  let items1 :=
    match get_item g item_id with
    | Some _ => items g
    | None => items g ++ [mkItem item_id [] None None]
    end in
  mkGraph (R_max g) (v_G g) (alpha g) (N g) (basic_precision g)
    (update_item item_id (add_user username) items1)
    (update_user username (add_item item_id grade) users1).

(** The graph of a list of reviews [(username, item_id, grade)], added in
    order. *)
Definition add_reviews (reviews : list (string * string * R))
    (g : EnhancedGraph) : EnhancedGraph :=
  foldl (fun g r => add_review (fst (fst r)) (snd (fst r)) (snd r) g) g reviews.

(** The pairs [(grade, weight)] collected for an item by
    [evaluate_items]: one per user of the item that graded it; the weight
    is the attribute [reputation], possibly [None]. *)
Definition votes (g : EnhancedGraph) (it : Item) : list (R * option R) :=
  omap (fun username =>
          u ← get_user g username;
          gr ← dict_get (id it) (user_grade u);
          Some (gr, reputation u))
       (item_users it).

(** The body of the loop of [evaluate_items] for one item.  [None] stands
    for the [TypeError] of a product with a weight that is [None]. *)
Definition evaluate_item (g : EnhancedGraph) (it : Item) : option Item :=
  match item_users it with
  | [] => Some it
  | _ =>
      let vs := votes g it in
      match vs with
      | [] => Some (mkItem (id it) (item_users it) (Some 0) (Some 0))
      | _ =>
          let grades := fst <$> vs in
          weights ← mapM snd vs;
          let weighted_sum := sum (zip_with Rmult grades weights) in
          let total_weight := sum weights in
          let grade :=
            if Rlt_dec 0 total_weight then weighted_sum / total_weight
            else mean grades in
          let variance :=
            if (1 <? length grades)%nat then var grades else 0 in
          Some (mkItem (id it) (item_users it) (Some grade) (Some variance))
      end
  end.

(** [EnhancedGraph.evaluate_items]. *)
Definition evaluate_items (g : EnhancedGraph) : option EnhancedGraph :=
  items' ← mapM (evaluate_item g) (items g);
  Some (mkGraph (R_max g) (v_G g) (alpha g) (N g) (basic_precision g)
          items' (users g)).

(** The list [differences] of [evaluate_users] for one user: the
    distance between the grade given and the consensus, for each item of
    the user that has a consensus. *)
Definition differences (g : EnhancedGraph) (u : User) : list R :=
  omap (fun item_id =>
          it ← get_item g item_id;
          consensus_score ← item_grade it;
          user_score ← dict_get item_id (user_grade u);
          Some (Rabs (user_score - consensus_score)))
       (user_items u).

(** The body of the loop of [evaluate_users] for one user. *)
Definition evaluate_user (g : EnhancedGraph) (u : User) : User :=
  let v :=
    match user_grade u with
    | [] => Infinity
    | _ =>
        match differences g u with
        | [] => Finite 0
        | ds => Finite (mean ds * mean ds)
        end
    end in
  mkUser (name u) (user_items u) (user_grade u) (Some v) (reputation u)
    (incentive_weight u).

(** [EnhancedGraph.evaluate_users]. *)
Definition evaluate_users (g : EnhancedGraph) : EnhancedGraph :=
  mkGraph (R_max g) (v_G g) (alpha g) (N g) (basic_precision g) (items g)
    (evaluate_user g <$> users g).

(** The body of the loop of [calculate_reputation_scores]. *)
Definition reputation_score (g : EnhancedGraph) (u : User) : R :=
  match variance u with
  | Some (Finite v) =>
      let variance_sqrt := sqrt (pymax 0 v) in
      pymax 0 (R_max g - lambda_param g * variance_sqrt)
  | _ => 0
  end.

(** [EnhancedGraph.calculate_reputation_scores]. *)
Definition calculate_reputation_scores (g : EnhancedGraph) : EnhancedGraph :=
  mkGraph (R_max g) (v_G g) (alpha g) (N g) (basic_precision g) (items g)
    ((fun u => mkUser (name u) (user_items u) (user_grade u) (variance u)
                 (Some (reputation_score g u)) (incentive_weight u))
       <$> users g).

(** [EnhancedGraph.calculate_incentive_weights]; [None] stands for the
    [ZeroDivisionError] of [min(m_j, N) / N] when [N] is zero, and for the
    [TypeError] of a product with a reputation that is [None]. *)
Definition calculate_incentive_weights (g : EnhancedGraph)
    : option EnhancedGraph :=
  users' ←
    mapM (fun u =>
            let m_j := length (user_items u) in
            participation_factor ←
              (if (N g =? 0)%nat then None
               else Some (INR (Nat.min m_j (N g)) / INR (N g)));
            reputation_factor ← reputation u;
            Some (mkUser (name u) (user_items u) (user_grade u) (variance u)
                    (reputation u)
                    (Some (participation_factor * reputation_factor))))
         (users g);
  Some (mkGraph (R_max g) (v_G g) (alpha g) (N g) (basic_precision g)
          (items g) users').

(** One value of the dictionary [final_grades]. *)
Record final_grade_info := mk_final {
  consensus_score : R;
  fg_incentive_weight : R;
  final_grade : R;
  weighted_grade : R;
  protection_used : bool;
  fg_reputation : R;
  fg_variance : xreal
}.

(** The body of the loop of [calculate_final_grades] for one user: no
    entry when the user has no item or the item has no grade; [None]
    stands for the [TypeError] raised on an attribute that is [None]. *)
Definition final_grade_of (g : EnhancedGraph) (u : User)
    : option (option (string * final_grade_info)) :=
  match get_item g (name u) with
  | None => Some None
  | Some user_item =>
      match item_grade user_item with
      | None => Some None
      | Some q_hat =>
          theta ← incentive_weight u;
          let weighted_grade := (1 - alpha g) * q_hat + alpha g * theta * 100 in
          let final_grade := pymax q_hat weighted_grade in
          let protection_used :=
            eqb final_grade q_hat && ltb weighted_grade q_hat in
          rep ← reputation u;
          v ← variance u;
          Some (Some (name u,
                      mk_final q_hat theta final_grade weighted_grade
                        protection_used rep v))
      end
  end.

(** [EnhancedGraph.calculate_final_grades]. *)
Definition calculate_final_grades (g : EnhancedGraph)
    : option (list (string * final_grade_info)) :=
  entries ← mapM (final_grade_of g) (users g);
  Some (omap (fun e => e) entries).

(** The loop [for iteration in range(n_iterations)] of
    [evaluate_with_reputation]. *)
Fixpoint iterate (n_iterations : nat) (g : EnhancedGraph)
    : option EnhancedGraph :=
  match n_iterations with
  | O => Some g
  | S n =>
      g1 ← evaluate_items g;
      iterate n (calculate_reputation_scores (evaluate_users g1))
  end.

(** [EnhancedGraph.evaluate_with_reputation]. *)
Definition evaluate_with_reputation (n_iterations : nat) (g : EnhancedGraph)
    : option (list (string * final_grade_info)) :=
  let g0 :=
    mkGraph (R_max g) (v_G g) (alpha g) (N g) (basic_precision g) (items g)
      ((fun u => mkUser (name u) (user_items u) (user_grade u) (variance u)
                   (Some (R_max g)) (incentive_weight u)) <$> users g) in
  g1 ← iterate n_iterations g0;
  g2 ← calculate_incentive_weights g1;
  calculate_final_grades g2.

(** *** The message-passing graph of [core/vancouver.py] *)

Definition AGGREGATE_BY_MEDIAN : bool := false.




End Consensus.

(* ===================================================================== *)
(** ** Statements about the assignment engine *)
(* ===================================================================== *)

Module AssignerSpec.
Import Assigner.

(** The [d] students that follow position [i] on the ring. *)
Definition ring (sh : list string) (n i d : nat) : list string :=
  (fun j => item sh ((i + j) mod n)) <$> seq 1 d.

(** The entry of the student at position [t] once the evaluators at
    positions below [m] have been handled. *)
Definition entry_at (sh : list string) (n k m t : nat) : entry :=
  mk_entry (if t <? m then ring sh n t k else [])
           (item sh <$> filter (fun i => item sh t ∈ ring sh n i k) (seq 0 m)).

Definition handled (sh : list string) (n k m : nat) (a : gmap string entry)
    : Prop :=
  forall t, t < n -> a !! item sh t = Some (entry_at sh n k m t).

(** The reviewers of position [t], in the order of the ring walked
    backwards. *)
Definition back_ring (sh : list string) (n k t : nat) : list string :=
  (fun j => item sh ((t + n - j) mod n)) <$> seq 1 k.

End AssignerSpec.

(* ===================================================================== *)
(** ** Statements about the store *)
(* ===================================================================== *)

Module StoreSpec.
Import Py Store.

(** The token of scenario E2 once it has been used. *)
Definition used_token : token_row :=
  mk_token_row "t" "A" "Alice" "a@example.com" "B" ["Q1"; "Q2"] 0%Z 100%Z
    "submitted" true (Some 5%Z) (Some "10.0.0.1") (Some "browser").

Definition used_db : db := mk_db {[ "t" := used_token ]} [] [].


Definition token_E2 (token evaluator : string) : token_data :=
  mk_token_data token evaluator "" "" "B" ["Q1"; "Q2"] (Some 0%Z) 100%Z None None.

(** C9 as stated: when one token of the batch fails, nothing of the batch
    is persisted. *)
Definition all_or_nothing (now : timestamp) (ts : list token_data) (s : db)
    : Prop :=
  match save_tokens_batch now ts s with
  | (Ok (_, fail_count), d) => 0 < fail_count -> tokens d = tokens s
  | (Raise _, _) => False
  end.

End StoreSpec.

(* ===================================================================== *)
(** ** Statements about the submission handler *)
(* ===================================================================== *)

Module WebSpec.
Import Py Store Web.

(** The three cells an insert stores, when the driver accepts the three
    values and the two [NOT NULL] columns are not [NULL]: the bound
    values under the affinity of their columns. *)
Definition cells (question_id score comment : value)
    : option (cell * cell * cell) :=
  match bind_param question_id, bind_param score, bind_param comment with
  | Ok q, Ok sc, Ok c =>
      match q, sc with
      | SNull, _ | _, SNull => None
      | _, _ => Some (text_affinity q, integer_affinity sc, text_affinity c)
      end
  | _, _, _ => None
  end.

(** What happens to one entry of the list: its row is stored; or its
    insert fails inside [save_submission], which answers [None]; or the
    handler raises before calling [save_submission]. *)
Inductive fate :=
| Stored (question_id score comment : cell)
| Refused
| Aborted (e : exn).

Definition fate_of (sub : value) : fate :=
  match subscript sub "question_id" with
  | Raise e => Aborted e
  | Ok q =>
      match subscript sub "score" with
      | Raise e => Aborted e
      | Ok sc =>
          match get_comment sub with
          | Raise e => Aborted e
          | Ok c =>
              match cells q sc c with
              | Some (q', sc', c') => Stored q' sc' c'
              | None => Refused
              end
          end
      end
  end.

Definition is_stored (sub : value) : bool :=
  match fate_of sub with Stored _ _ _ => true | _ => false end.

Definition aborts (sub : value) : bool :=
  match fate_of sub with Aborted _ => true | _ => false end.

(** The entries the loop handles: those before the first one on which
    the handler raises. *)
Fixpoint reached (l : list value) : list value :=
  match l with
  | [] => []
  | sub :: rest => if aborts sub then [] else sub :: reached rest
  end.

(** The row stored for an entry: the three cells of [fate_of], which are
    the members [question_id], [score] and [comment] of the entry as the
    driver binds them and the affinity of their columns converts them;
    the token of the request, the evaluator and the target of the token
    row, the instant and the client of the request. *)
Definition persisted (now : timestamp) (req : request) (token : string)
    (info : token_row) (sub : value) (row : submission_row) : Prop :=
  fate_of sub = Stored (sb_question_id row) (sb_score row) (sb_comment row) /\
  sb_token row = token /\
  sb_evaluator_id row = tk_evaluator_id info /\
  sb_target_id row = tk_target_id info /\
  sb_submitted_at row = now /\
  sb_ip_address row = remote_addr req /\
  sb_user_agent row = header_user_agent req.

(** The token is stored, not used, pending and not expired. *)
Definition pending_at (now : timestamp) (info : token_row) : Prop :=
  tk_is_used info = false /\ tk_status info = "pending" /\
  (now <= tk_expires_at info)%Z.

(** The row of a token after [mark_token_used]. *)
Definition marked (now : timestamp) (req : request) (info : token_row)
    : token_row :=
  mk_token_row (tk_token info) (tk_evaluator_id info) (tk_evaluator_name info)
    (tk_email info) (tk_target_id info) (tk_questions info)
    (tk_created_at info) (tk_expires_at info) "submitted" true (Some now)
    (remote_addr req) (header_user_agent req).

(** An entry without its [evaluator_id] and [target_id] members. *)
Definition drop_ids (sub : value) : value :=
  match sub with
  | JDict m =>
      JDict (filter (fun kv => fst kv <> "evaluator_id" /\ fst kv <> "target_id") m)
  | v => v
  end.

Definition pending_token : token_row :=
  mk_token_row "t" "A" "Alice" "a@example.com" "B" ["Q1"; "Q2"] 0%Z 100%Z
    "pending" false None None None.

Definition pending_db : db := mk_db {[ "t" := pending_token ]} [] [].

Definition entry (question_id : string) (score : value) : value :=
  JDict [("question_id", JStr question_id); ("score", score);
         ("comment", JStr "fine")].

Definition post (subs : list value) : request :=
  mk_request (Form (Some "t") (JList subs)) (Some "10.0.0.1") (Some "browser").

(** The second score is [null]: its insert fails. *)
Definition post_null_score : request :=
  post [entry "Q1" (JInt 18); entry "Q2" JNull].




(** Entries that name another evaluator and another target. *)
Definition post_other_ids : request :=
  post [JDict [("question_id", JStr "Q1"); ("score", JInt 18);
               ("evaluator_id", JStr "C"); ("target_id", JStr "D")];
        JDict [("question_id", JStr "Q2"); ("score", JInt 17);
               ("evaluator_id", JStr "C"); ("target_id", JStr "D")]].




End WebSpec.

(* ===================================================================== *)
(** ** Statements about the consensus engine *)
(* ===================================================================== *)

Module ConsensusSpec.
Import Consensus.

Local Open Scope R_scope.

(** An item that received a review is in the graph, with a user. *)
Definition reviewed (g : EnhancedGraph) (i : string) : Prop :=
  exists it, get_item g i = Some it /\ item_users it <> [].

Definition rep_set (g : EnhancedGraph) : Prop :=
  Forall (fun u => is_Some (reputation u)) (users g).

Definition var_set (g : EnhancedGraph) : Prop :=
  Forall (fun u => is_Some (variance u)) (users g).

(** Every reputation is a number of [[0, R_max]]. *)
Definition rep_bounded (g : EnhancedGraph) : Prop :=
  Forall (fun u => exists r, reputation u = Some r /\ 0 <= r <= R_max g)
    (users g).


(** The attributes [calculate_final_grades] reads are set, for the users
    whose own item has a grade. *)
Definition gradable (g : EnhancedGraph) (u : User) : Prop :=
  is_Some (incentive_weight u) /\ is_Some (reputation u) /\
  (is_Some (variance u) \/
   forall it, get_item g (name u) = Some it -> item_grade it = None).

(** Step 1 of [evaluate_with_reputation]: every reputation is [R_max]. *)
Definition with_initial_reputation (g : EnhancedGraph) : EnhancedGraph :=
  mkGraph (R_max g) (v_G g) (alpha g) (N g) (basic_precision g) (items g)
    ((fun u => mkUser (name u) (user_items u) (user_grade u) (variance u)
                 (Some (R_max g)) (incentive_weight u)) <$> users g).

(** The graph [evaluate_with_reputation] leaves behind, the method
    working on the object in place: the attributes of the users and of
    the items after the iterations and the incentive weights, from which
    [calculate_final_grades] reads the final grades. *)
Definition final_graph (n_iterations : nat) (g : EnhancedGraph)
    : option EnhancedGraph :=
  iterate n_iterations (with_initial_reputation g) ≫= calculate_incentive_weights.

(** The graph of a list of reviews: the constructor, then [add_review]
    for each review. *)
Definition graph_of (Rm vG al : R) (Nn : nat) (bp : R)
    (reviews : list (string * string * R)) : option EnhancedGraph :=
  add_reviews reviews <$> new_graph Rm vG al Nn bp.










(** Three reviews among three students: [C] reviews but is not
    reviewed. *)
Definition reviews_E : list (string * string * R) :=
  [("A", "B", 80); ("B", "A", 70); ("C", "A", 90)].

End ConsensusSpec.

(* ===================================================================== *)
(** ** The assignment engine: feasibility check and modes *)
(* ===================================================================== *)

Module AssignerModes.
Import Assigner.

(** [AssignmentEngine.validate_assignment_feasibility]. *)
Definition validate_assignment_feasibility (cfg : assignment_config)
    (students : list string) : bool :=
  let total_students := Z.of_nat (length students) in
  let assignments_per_student := Z.of_nat (assignments_per_student cfg) in
  let max_possible :=
    if allow_self_evaluation cfg then total_students
    else (total_students - 1)%Z in
  if (max_possible <? assignments_per_student)%Z then false
  else if (assignments_per_student <=? 0)%Z then false
  else true.

(** [available_students.remove(evaluator)]: the first occurrence is
    removed. *)
Fixpoint remove (x : string) (l : list string) : list string :=
  match l with
  | [] => []
  | y :: rest => if String.eqb y x then rest else y :: remove x rest
  end.

Section Modes.

(** [random.seed(seed)] (when the seed is not [None]) followed by
    [random.shuffle], as in module [Assigner]. *)
Variable shuffle : option Z -> list string -> list string.

(** The state of the generator, the state [random.seed(seed)] leaves, and
    [random.sample(population, k)], which returns the sample and the next
    state. *)
Variable rng : Type.
Variable seed : Z -> rng.
Variable sample : rng -> list string -> nat -> list string * rng.

(** The loop [for evaluator in self.students] of
    [_generate_random_assignments]. *)
Fixpoint random_loop (k : nat) (allow_self : bool) (students rest : list string)
    (st : rng) (assignments : gmap string entry) : gmap string entry :=
  match rest with
  | [] => assignments
  | evaluator :: rest' =>
      let available_students :=
        if allow_self then students else remove evaluator students in
      let (assigned_papers, st') :=
        sample st available_students
          (Nat.min k (length available_students)) in
      random_loop k allow_self students rest' st'
        (record_evaluator evaluator assigned_papers assignments)
  end.

(** [AssignmentEngine._generate_random_assignments]; [st] is the state of
    the generator when the function is entered.  As in module [Assigner],
    what the function prints is left out: the statistics of
    [_analyze_assignments], printed in verbose mode, need a roster that
    is not empty. *)
Definition _generate_random_assignments (cfg : assignment_config)
    (students : list string) (st : rng) : gmap string entry :=
  let st :=
    match random_seed cfg with
    | Some random_seed => seed random_seed
    | None => st
    end in
  random_loop (assignments_per_student cfg) (allow_self_evaluation cfg)
    students students st (init_assignments students).

(** [AssignmentEngine._generate_weighted_assignments]. *)
Definition _generate_weighted_assignments (cfg : assignment_config)
    (students : list string) : option (gmap string entry) :=
  _generate_perfect_balanced_assignments shuffle cfg students.

(** [AssignmentEngine.generate_assignments], for the value [balance_mode]
    of the configuration. *)
Definition generate_assignments (balance_mode : string)
    (cfg : assignment_config) (students : list string) (st : rng)
    : option (gmap string entry) :=
  if String.eqb balance_mode "perfect"
  then _generate_perfect_balanced_assignments shuffle cfg students
  else if String.eqb balance_mode "random"
  then Some (_generate_random_assignments cfg students st)
  else if String.eqb balance_mode "weighted"
  then _generate_weighted_assignments cfg students
  else _generate_perfect_balanced_assignments shuffle cfg students.

End Modes.

End AssignerModes.

Module AssignerModesSpec.
Import Assigner AssignerModes.

(** The [d] students met from position [i] on the ring, starting [s]
    places further. *)
Definition span (sh : list string) (n i s d : nat) : list string :=
  (fun j => item sh ((i + j) mod n)) <$> seq s d.

(** The state of one entry after a round of the outer loop: the papers of
    [ev] are stored under [ev], and [ev] is appended to the evaluators of
    every owner of a paper, once per occurrence. *)
Definition round_entry (s : string) (e : entry) (r : string * list string)
    : entry :=
  let e1 := if decide (s = r.1) then set_papers r.2 e else e in
  mk_entry (assigned_papers e1)
    (evaluators e1 ++ replicate (length (filter (eq s) r.2)) r.1).

(** [u] reviews [s] and [s] lists [u] among its evaluators. *)
Definition mirrored (a : gmap string entry) (students : list string) : Prop :=
  forall s u, s ∈ students -> u ∈ students ->
    exists es eu,
      a !! s = Some es /\ a !! u = Some eu /\
      (u ∈ evaluators es <-> s ∈ assigned_papers eu).

(** The outer loops store one round per evaluator: the evaluator and the
    papers chosen for them. *)
Definition rounds (rs : list (string * list string)) (a : gmap string entry)
    : gmap string entry :=
  foldl (fun a r => record_evaluator r.1 r.2 a) a rs.

Section Span.

Variables (sh : list string) (n s d : nat).

(** The reviewers of position [t]. *)
Definition back_span (t : nat) : list string :=
  (fun j => item sh ((t + n - j) mod n)) <$> seq s d.

End Span.

(** The papers of the evaluator at position [i]. *)
Definition papers_at (sh : list string) (n k : nat) (allow_self : bool)
    (i : nat) : list string :=
  if allow_self then span sh n i 0 (Nat.min k (n + 1))
  else span sh n i 1 (Nat.min k (n - 1)).

(** The rounds of the ring loop for the evaluators from position [m]
    on. *)
Definition ring_rounds (sh : list string) (n k : nat) (allow_self : bool)
    (m : nat) (rest : list string) : list (string * list string) :=
  imap (fun j ev => (ev, papers_at sh n k allow_self (m + j))) rest.

Section Random.

Context {rng : Type}.
Variable sample : rng -> list string -> nat -> list string * rng.

(** The rounds of the loop of the random mode. *)
Fixpoint random_rounds (k : nat) (allow_self : bool) (students rest : list string)
    (st : rng) : list (string * list string) :=
  match rest with
  | [] => []
  | evaluator :: rest' =>
      let available_students :=
        if allow_self then students else remove evaluator students in
      let r := sample st available_students
                 (Nat.min k (length available_students)) in
      (evaluator, r.1) :: random_rounds k allow_self students rest' r.2
  end.

End Random.

(** What [random.sample(population, k)] promises for [k <= len(population)]:
    [k] elements of the population, each position of the population used
    at most once. *)
Definition sample_contract {rng : Type}
    (sample : rng -> list string -> nat -> list string * rng) : Prop :=
  forall st population k,
    k <= length population ->
    length (sample st population k).1 = k /\
    (sample st population k).1 ⊆+ population.

(** A sampler that satisfies the contract: the first [k] elements. *)
Definition take_sample (st : unit) (population : list string) (k : nat)
    : list string * unit :=
  (take k population, st).

End AssignerModesSpec.

(* ===================================================================== *)
(** ** Statements about the token table *)
(* ===================================================================== *)

Module TokenSpec.
Import Py Store.

(** The row [save_token] inserts for its argument. *)
Definition row_of (now : timestamp) (t : token_data) : token_row :=
  mk_token_row (td_token t) (td_evaluator_id t) (td_evaluator_name t)
    (td_email t) (td_target_id t) (td_questions t)
    (default now (td_created_at t)) (td_expires_at t)
    (default "pending" (td_status t)) (default false (td_used t))
    None None None.

(** The token can be used at instant [now]. *)
Definition usable (now : timestamp) (r : token_row) : Prop :=
  tk_is_used r = false /\ tk_status r = "pending" /\ (now <= tk_expires_at r)%Z.

End TokenSpec.

(* ===================================================================== *)
(** ** The form page: [GET /evaluate] *)
(* ===================================================================== *)

Module View.
Import Py Store Web.

(** The two JSON files the page reads, as [json.load] decodes them;
    [None] when the file cannot be opened or decoded. *)
Record files := mk_files {
  peer_assignments : option value;
  midterm_data : option value
}.

(** The two attributes of [WebConfig] the page shows. *)
Record web_config := mk_web_config {
  SERVER_URL : string;
  EVALUATION_DEADLINE : string
}.

(** The request: [request.args.get('token')], [request.remote_addr] and
    [request.headers.get('User-Agent')]. *)
Record view_request := mk_view_request {
  args_token : option string;
  view_remote_addr : option string;
  view_user_agent : option string
}.

(** What the handler returns: the JSON error of a request without token,
    or one of the three templates with its arguments. *)
Inductive page :=
| MissingToken
| AlreadySubmitted (submitted_at : option timestamp) (server_url : string)
| ErrorPage (error_title error_message server_url : string)
| EvaluationForm (token evaluator_name target_id : string)
    (questions : list value) (deadline : string).

Record view_response := mk_view {
  page_of : page;
  view_status : nat
}.

(** [load_questions]: the member [questions] of the assignments file,
    [{}] when it is missing or when anything raises. *)
Definition load_questions (fs : files) : value :=
  match peer_assignments fs with
  | Some (JDict data) => default (JDict []) (dict_get "questions" data)
  | _ => JDict []
  end.

(** [load_student_answers]: the member [answers] of the student's entry
    in the member [students] of the data file; [{}] when the student is
    not listed or when anything raises. *)
Definition load_student_answers (fs : files) (student_id : string) : value :=
  match midterm_data fs with
  | Some (JDict data) =>
      match default (JDict []) (dict_get "students" data) with
      | JDict students =>
          match dict_get student_id students with
          | Some (JDict student) => default (JDict []) (dict_get "answers" student)
          | _ => JDict []
          end
      | _ => JDict []
      end
  | _ => JDict []
  end.

(** [qid in container]: a key of a dictionary, an element of a list, a
    substring of a string; [None] stands for the [TypeError] raised on
    the other values. *)
Definition contains (qid : string) (container : value) : option bool :=
  match container with
  | JDict m => Some (match dict_get qid m with Some _ => true | None => false end)
  | JList l =>
      Some (existsb (fun v => match v with
                              | JStr s => String.eqb s qid
                              | _ => false
                              end) l)
  | JStr s =>
      Some (match String.index 0 qid s with Some _ => true | None => false end)
  | _ => None
  end.

(** [d[key] = v] on the members of a dictionary: the value of an existing
    key is replaced in place, a new key is added at the end. *)
Fixpoint dict_put (key : string) (v : value) (members : list (string * value))
    : list (string * value) :=
  match members with
  | [] => [(key, v)]
  | (k, v0) :: rest =>
      if String.eqb k key then (k, v) :: rest
      else (k, v0) :: dict_put key v rest
  end.

Section Handler.

(** [str.strip] of the runtime. *)
Variable strip : string -> string.

(** The body of the loop [for qid in questions_ids]: [Some None] when the
    question is not listed in the file, [Some (Some question)] for the
    entry appended to the form, [None] for the [TypeError] or
    [AttributeError] raised on a value that has not the expected type. *)
Definition question_with_answer (questions_data target_answers : value)
    (qid : string) : option (option value) :=
  listed ← contains qid questions_data;
  if listed : bool then
    match questions_data with
    | JDict qd =>
        match dict_get qid qd with
        | Some (JDict question) =>
            let question := dict_put "id" (JStr qid) question in
            match target_answers with
            | JDict ta =>
                match default (JDict []) (dict_get qid ta) with
                | JDict answer =>
                    match default (JStr "") (dict_get "text" answer) with
                    | JStr text =>
                        let answer_text := strip text in
                        let answer_text :=
                          if String.eqb answer_text ""
                          then "（此題無作答或答案為空白）" else answer_text in
                        let question :=
                          dict_put "student_answer" (JStr answer_text) question in
                        let question :=
                          dict_put "answer_word_count"
                            (default (JInt 0) (dict_get "word_count" answer))
                            question in
                        let question :=
                          dict_put "answer_is_empty"
                            (default (JBool true) (dict_get "is_empty" answer))
                            question in
                        Some (Some (JDict question))
                    | _ => None
                    end
                | _ => None
                end
            | _ => None
            end
        | _ => None
        end
    | _ => None
    end
  else Some None.

Fixpoint questions_loop (questions_data target_answers : value)
    (questions_ids : list string) (questions_with_answers : list value)
    : option (list value) :=
  match questions_ids with
  | [] => Some questions_with_answers
  | qid :: rest =>
      q ← question_with_answer questions_data target_answers qid;
      questions_loop questions_data target_answers rest
        (match q with
         | Some question => questions_with_answers ++ [question]
         | None => questions_with_answers
         end)
  end.

(** [evaluation_form], handled at instant [now].  The handler treats
    every exception alike, so the failure of the loop is raised as
    [TypeError]. *)
Definition evaluation_form (cfg : web_config) (fs : files) (now : timestamp)
    (req : view_request) : M view_response :=
  match args_token req with
  | None => ret (mk_view MissingToken 400)
  | Some token =>
      if String.eqb token "" then ret (mk_view MissingToken 400)
      else
        try_except
          (let* (is_valid, token_info, error_msg) := validate_token now token in
           if match token_info with
              | Some info => tk_is_used info
              | None => false
              end
           then
             ret (mk_view
                    (AlreadySubmitted (token_info ≫= tk_used_at) (SERVER_URL cfg))
                    200)
           else if negb is_valid
           then ret (mk_view (ErrorPage "Token 無效" error_msg (SERVER_URL cfg)) 403)
           else
             match token_info with
             | None => raise TypeError
             | Some info =>
                 let questions_data := load_questions fs in
                 let target_answers := load_student_answers fs (tk_target_id info) in
                 match questions_loop questions_data target_answers
                         (tk_questions info) [] with
                 | None => raise TypeError
                 | Some questions_with_answers =>
                     let* _ := log_action now "view" ViewForm (Some token)
                            (view_remote_addr req) (view_user_agent req) in
                     ret (mk_view
                            (EvaluationForm token (tk_evaluator_name info)
                               (tk_target_id info) questions_with_answers
                               (EVALUATION_DEADLINE cfg))
                            200)
                 end
             end)
          (fun _ =>
             ret (mk_view
                    (ErrorPage "系統錯誤" "載入評分表單時發生錯誤，請聯繫助教"
                       (SERVER_URL cfg))
                    500))
  end.

End Handler.

End View.

(* ===================================================================== *)
(** ** Statements about sequences of requests *)
(* ===================================================================== *)

Module TrafficSpec.
Import Py Store Web View StoreSpec WebSpec.

(** What reaches the store while the server runs: a [POST /api/submit], a
    [GET /evaluate], or an import of tokens with [save_tokens_batch].  The
    events of a sequence are handled one after another, each one to its
    end. *)
Inductive event :=
| Submit (now : timestamp) (req : request)
| Visit (cfg : web_config) (fs : files) (now : timestamp) (req : view_request)
| Import (now : timestamp) (ts : list token_data).

Section Run.

Variable strip : string -> string.

(** The store after an event. *)
Definition step (s : db) (e : event) : db :=
  match e with
  | Submit now req => snd (submit_evaluation now req s)
  | Visit cfg fs now req => snd (evaluation_form strip cfg fs now req s)
  | Import now ts => snd (save_tokens_batch now ts s)
  end.

Definition run (es : list event) (s : db) : db := foldl step s es.

(** The event is a submission for token [t] that is answered 200. *)
Definition accepts (t : string) (e : event) (s : db) : bool :=
  match e with
  | Submit now req =>
      match get_json req, submit_evaluation now req s with
      | Form (Some t') _, (Ok resp, _) => String.eqb t' t && (status resp =? 200)
      | _, _ => false
      end
  | _ => false
  end.

(** Number of submissions for [t] answered 200 along a sequence of
    events. *)
Fixpoint acceptances (t : string) (es : list event) (s : db) : nat :=
  match es with
  | [] => 0
  | e :: rest =>
      (if accepts t e s then 1 else 0) + acceptances t rest (step s e)
  end.

End Run.

(** The rows of table [submissions] that carry token [t]. *)
Definition rows_of (t : string) (s : db) : list submission_row :=
  filter (fun row => sb_token row = t) (submissions s).

(** The columns of a token row that are written once. *)
Definition same_assignment (r r' : token_row) : Prop :=
  tk_token r' = tk_token r /\ tk_evaluator_id r' = tk_evaluator_id r /\
  tk_evaluator_name r' = tk_evaluator_name r /\ tk_email r' = tk_email r /\
  tk_target_id r' = tk_target_id r /\ tk_questions r' = tk_questions r /\
  tk_created_at r' = tk_created_at r /\ tk_expires_at r' = tk_expires_at r.

(** What the loop of the form page appends for a question. *)
Definition shown (questions_data target_answers : value) (qid : string)
    (q : value) : Prop :=
  exists question answer_text m,
    (exists qd, questions_data = JDict qd /\
                dict_get qid qd = Some (JDict question)) /\
    q = JDict m /\
    dict_get "id" m = Some (JStr qid) /\
    dict_get "student_answer" m = Some (JStr answer_text) /\
    answer_text <> "" /\
    is_Some (dict_get "answer_word_count" m) /\
    is_Some (dict_get "answer_is_empty" m) /\
    forall key,
      key <> "id" -> key <> "student_answer" ->
      key <> "answer_word_count" -> key <> "answer_is_empty" ->
      dict_get key m = dict_get key question.

(** Each id of [new] is the next [AUTOINCREMENT] value after the ids
    before it. *)
Fixpoint numbered (old new : list nat) : Prop :=
  match new with
  | [] => True
  | x :: rest => x = next_id old /\ numbered (old ++ [x]) rest
  end.

(** A questions file and a data file with one question and one answer. *)
Definition files_E : files :=
  mk_files
    (Some (JDict [("questions",
                   JDict [("Q1", JDict [("id", JInt 335725);
                                        ("title", JStr "Consensus")])])]))
    (Some (JDict [("students",
                   JDict [("B", JDict [("answers",
                      JDict [("Q1", JDict [("text", JStr "Proof of work");
                                           ("word_count", JInt 3);
                                           ("is_empty", JBool false)])])])])])).

(** The configuration of the page and a sequence of requests. *)
Definition config_E : web_config :=
  mk_web_config "http://localhost:5000" "2025-12-31 23:59:59".

Definition traffic_E : list event :=
  [Submit 9 post_null_score;
   Visit config_E files_E 9 (mk_view_request (Some "t") None None);
   Import 9 [token_E2 "t" "C"]].

End TrafficSpec.

(* ===================================================================== *)
(** ** Statements about a whole run of the consensus *)
(* ===================================================================== *)

Module RunSpec.
Import Consensus ConsensusSpec.

Local Open Scope R_scope.

(** Every grade held by a user is the grade of one of the reviews. *)
Definition backed (reviews : list (string * string * R)) (g : EnhancedGraph)
    : Prop :=
  forall u i x, u ∈ users g -> dict_get i (user_grade u) = Some x ->
    (name u, i, x) ∈ reviews.

(** Every user listed at an item is in the graph and graded the item. *)
Definition linked (g : EnhancedGraph) : Prop :=
  forall it un, it ∈ items g -> un ∈ item_users it ->
    exists u, get_user g un = Some u /\
              is_Some (dict_get (id it) (user_grade u)).

(** The parts of the graph the algorithm reads but never writes. *)
Definition frame (g g' : EnhancedGraph) : Prop :=
  Forall2 (fun u u' => name u' = name u /\ user_items u' = user_items u /\
                       user_grade u' = user_grade u) (users g) (users g') /\
  Forall2 (fun it it' => id it' = id it /\ item_users it' = item_users it)
    (items g) (items g').

(** Every item has a user and every user a grade. *)
Definition occupied (g : EnhancedGraph) : Prop :=
  forall it, it ∈ items g -> item_users it <> [].

Definition graders (g : EnhancedGraph) : Prop :=
  forall u, u ∈ users g -> user_grade u <> [].

(** What holds of the graph of a list of reviews throughout the run. *)
Definition inv (reviews : list (string * string * R)) (Rm vG : R)
    (g : EnhancedGraph) : Prop :=
  R_max g = Rm /\ v_G g = vG /\ rep_bounded g /\
  linked g /\ backed reviews g /\ occupied g /\ graders g /\
  (var_set g \/ Forall (fun it => item_grade it = None) (items g)).

(** After an iteration, the variance of every user is the square of the
    mean distance to the consensus the graph holds, and the reputation is
    the value of the formula of [calculate_reputation_scores] at that
    variance. *)
Definition settled (g : EnhancedGraph) : Prop :=
  forall u, u ∈ users g ->
    let m := mean (differences g u) in
    0 <= m /\
    variance u = Some (Finite (m * m)) /\
    reputation u
    = Some (Rmax 0 (R_max g - R_max g / v_G g * sqrt (Rmax 0 (m * m)))).

End RunSpec.

(* ===================================================================== *)
(** ** The weighted median of [core/vancouver.py] *)
(* ===================================================================== *)

(** As in module [Consensus] the numbers are real numbers.  With
    arbitrary weights the interpolation of the code, in floating point,
    can leave the range of the values by one unit in the last place, so
    nothing is stated about that range; with unit weights the
    interpolation is exact. *)
Module Median.
Import Consensus.

Local Open Scope R_scope.

(** The loop that keeps the values whose weight is positive; [None]
    stands for the [IndexError] of a list of weights that is too short. *)
Fixpoint positive (values weights : list R) : option (list (R * R)) :=
  match values, weights with
  | [], _ => Some []
  | _ :: _, [] => None
  | x :: values', w :: weights' =>
      vv ← positive values' weights';
      Some (if Rlt_dec 0 w then (x, w) :: vv else vv)
  end.

(** The order of Python on pairs: by the first components, then by the
    second ones. *)
Definition pair_lt (a b : R * R) : bool :=
  if Req_EM_T a.1 b.1 then ltb a.2 b.2 else ltb a.1 b.1.

(** [vv.sort()]: the pairs in increasing order. *)
Fixpoint insert (a : R * R) (l : list (R * R)) : list (R * R) :=
  match l with
  | [] => [a]
  | b :: rest => if pair_lt a b then a :: b :: rest else b :: insert a rest
  end.

Definition sort (l : list (R * R)) : list (R * R) := foldr insert [] l.

(** The loop [while i < len(v) and below + w[i] < half], entered with the
    weights from index [i] on; it returns [i] and [below]. *)
Fixpoint scan (w : list R) (half below : R) (i : nat) : nat * R :=
  match w with
  | [] => (i, below)
  | wi :: rest =>
      if Rlt_dec (below + wi) half then scan rest half (below + wi) (S i)
      else (i, below)
  end.

(** [median_aggregate(values, weights)]; [weights = None] stands for the
    default argument, and the result [None] for an [IndexError]. *)
Definition median_aggregate (values : list R) (weights : option (list R))
    : option R :=
  match values with
  | [x] => Some x
  | _ =>
      let weights := default (replicate (length values) 1) weights in
      vv ← positive values weights;
      match vv with
      | [] => head values
      | [(x, _)] => Some x
      | _ =>
          let vv := sort vv in
          let v := vv.*1 in
          let w := vv.*2 in
          let half := sum w / 2 in
          let '(i, below) := scan w half 0 0 in
          wi ← w !! i;
          vi ← v !! i;
          if Rlt_dec half (below + 0.5 * wi) then
            if (i =? 0)%nat then head v
            else
              let alpha := half - below in
              let beta := below + 0.5 * wi - half in
              vp ← v !! (i - 1)%nat;
              Some ((beta * (vi + vp) / 2 + alpha * vi) / (alpha + beta))
          else
            if (i =? length v - 1)%nat then Some vi
            else
              let alpha := half - below - 0.5 * wi in
              let beta := below + wi - half in
              vn ← v !! (i + 1)%nat;
              Some ((beta * vi + alpha * (vi + vn) / 2) / (alpha + beta))
      end
  end.

End Median.

(* ===================================================================== *)
(** ** Properties of the assignment engine *)
(* ===================================================================== *)

Module AssignerFacts.
Import Assigner AssignerSpec.

(** *** Arithmetic on the ring of positions *)

Lemma mod_wrap a n : n <= a < 2 * n -> a mod n = a - n.
Proof.
  intros H. replace a with ((a - n) + 1 * n) at 1 by lia.
  rewrite Nat.Div0.mod_add. apply Nat.mod_small. lia.
Qed.

Ltac ring_mod a n :=
  destruct (Nat.lt_ge_cases a n);
  [ rewrite (Nat.mod_small a n) in * by lia
  | rewrite (mod_wrap a n) in * by lia ].

Lemma ring_pos_lt i j n : 0 < n -> (i + j) mod n < n.
Proof. intros. apply Nat.mod_upper_bound. lia. Qed.

Lemma ring_pos_ne_self i j n :
  i < n -> 1 <= j < n -> (i + j) mod n <> i.
Proof. intros Hi Hj. ring_mod (i + j) n; lia. Qed.

Lemma ring_pos_inj i j1 j2 n :
  i < n -> 1 <= j1 < n -> 1 <= j2 < n ->
  (i + j1) mod n = (i + j2) mod n -> j1 = j2.
Proof.
  intros Hi H1 H2. ring_mod (i + j1) n; ring_mod (i + j2) n; lia.
Qed.

Lemma ring_pos_back i t j n :
  i < n -> t < n -> 1 <= j < n ->
  (i + j) mod n = t <-> i = (t + n - j) mod n.
Proof.
  intros Hi Ht Hj. ring_mod (i + j) n; ring_mod (t + n - j) n; lia.
Qed.

Lemma ring_back_inj t j1 j2 n :
  t < n -> 1 <= j1 < n -> 1 <= j2 < n ->
  (t + n - j1) mod n = (t + n - j2) mod n -> j1 = j2.
Proof.
  intros Ht H1 H2. ring_mod (t + n - j1) n; ring_mod (t + n - j2) n; lia.
Qed.

(** *** The papers of one evaluator *)

Lemma ring_length sh n i d : length (ring sh n i d) = d.
Proof. unfold ring. now rewrite length_fmap, length_seq. Qed.

Lemma ring_snoc sh n i d :
  ring sh n i (S d) = ring sh n i d ++ [item sh ((i + S d) mod n)].
Proof. unfold ring. now rewrite seq_S, fmap_app. Qed.

Lemma item_inj sh i j :
  NoDup sh -> i < length sh -> j < length sh ->
  item sh i = item sh j -> i = j.
Proof.
  intros Hnd Hi Hj Heq. unfold item in Heq.
  destruct (nth_lookup_or_length sh i "") as [Li|]; [|lia].
  destruct (nth_lookup_or_length sh j "") as [Lj|]; [|lia].
  rewrite Heq in Li. exact (NoDup_lookup sh i j _ Hnd Li Lj).
Qed.

Lemma item_elem sh i : i < length sh -> item sh i ∈ sh.
Proof. intros Hi. apply list_elem_of_In, nth_In, Hi. Qed.

Lemma elem_item sh s : s ∈ sh -> exists i, i < length sh /\ item sh i = s.
Proof.
  intros Hs. apply list_elem_of_In in Hs.
  destruct (In_nth sh s "" Hs) as (i & Hi & Heq). eauto.
Qed.

Lemma elem_ring sh n i d s :
  s ∈ ring sh n i d <-> exists j, 1 <= j <= d /\ s = item sh ((i + j) mod n).
Proof.
  unfold ring. rewrite list_elem_of_fmap. split.
  - intros (j & -> & Hj). apply elem_of_seq in Hj. exists j. split; [lia|easy].
  - intros (j & Hj & ->). exists j. split; [easy|]. apply elem_of_seq. lia.
Qed.

Lemma ring_NoDup sh n i d :
  NoDup sh -> n = length sh -> i < n -> d < n -> NoDup (ring sh n i d).
Proof.
  intros Hnd -> Hi Hd. unfold ring.
  apply NoDup_fmap_2_strong; [|apply NoDup_seq].
  intros j1 j2 H1 H2 Heq. apply elem_of_seq in H1, H2.
  apply item_inj in Heq; try assumption; try (apply ring_pos_lt; lia).
  apply (ring_pos_inj i j1 j2 (length sh)); lia.
Qed.

Lemma ring_not_self sh n i d :
  NoDup sh -> n = length sh -> i < n -> d < n -> item sh i ∉ ring sh n i d.
Proof.
  intros Hnd -> Hi Hd Hin. apply elem_ring in Hin as (j & Hj & Heq).
  apply item_inj in Heq; try assumption; try (apply ring_pos_lt; lia).
  symmetry in Heq. revert Heq. apply ring_pos_ne_self; lia.
Qed.

Lemma ring_subset sh n i d s :
  n = length sh -> 0 < n -> s ∈ ring sh n i d -> s ∈ sh.
Proof.
  intros -> Hn Hin. apply elem_ring in Hin as (j & _ & ->).
  apply item_elem, ring_pos_lt, Hn.
Qed.

(** The loop, entered with [offset = d + 1] and the first [d] followers
    already collected, returns the first [k] followers. *)
Lemma assign_loop_ring sh n k i :
  NoDup sh -> n = length sh -> i < n -> k < n ->
  forall fuel d, d <= k -> k - d <= fuel ->
    assign_loop fuel sh n k false i (item sh i) (S d) (ring sh n i d)
    = Some (ring sh n i k).
Proof.
  intros Hnd Hn Hi Hk. induction fuel as [|fuel IH]; intros d Hd Hfuel.
  - assert (d = k) by lia. subst d. simpl.
    rewrite ring_length, Nat.ltb_irrefl. reflexivity.
  - cbn [assign_loop]. rewrite ring_length.
    destruct (Nat.ltb_spec d k) as [Hlt|Hge]; cbn [negb].
    + assert (Hne : String.eqb (item sh ((i + S d) mod n)) (item sh i) = false).
      { apply String.eqb_neq. intros Heq. subst n.
        apply item_inj in Heq; try assumption; try (apply ring_pos_lt; lia).
        revert Heq. apply ring_pos_ne_self; lia. }
      rewrite Hne. cbn [orb negb]. rewrite <- ring_snoc.
      destruct (Nat.ltb_spec n (S d + 1)) as [Hbad|_]; [lia|].
      rewrite Nat.add_1_r. apply IH; lia.
    + assert (d = k) by lia. subst d. reflexivity.
Qed.

Lemma papers_of_ring sh n k i :
  NoDup sh -> n = length sh -> i < n -> k < n ->
  papers_of sh n k false i (item sh i) = Some (ring sh n i k).
Proof.
  intros Hnd Hn Hi Hk. unfold papers_of.
  apply (assign_loop_ring sh n k i Hnd Hn Hi Hk (S n) 0); lia.
Qed.

(** *** The dictionary updates *)

Lemma lookup_init_assignments students s :
  s ∈ students -> init_assignments students !! s = Some (mk_entry [] []).
Proof.
  unfold init_assignments.
  assert (G : forall l (a : gmap string entry),
             (s ∈ l \/ a !! s = Some (mk_entry [] [])) ->
             foldl (fun a st => <[st := mk_entry [] []]> a) a l !! s
             = Some (mk_entry [] [])).
  { induction l as [|x l IH]; intros a H; simpl.
    - destruct H as [H|H]; [inversion H|exact H].
    - apply IH. destruct (decide (x = s)) as [->|Hne].
      + right. apply lookup_insert_eq.
      + destruct H as [H|H].
        * left. apply elem_of_cons in H as [H|H]; congruence.
        * right. rewrite lookup_insert_ne; assumption. }
  intros H. apply G. now left.
Qed.

Lemma lookup_add_evaluators ev papers (a : gmap string entry) s :
  foldl (fun a p => alter (add_evaluator ev) p a) a papers !! s
  = (fun e => Nat.iter (length (filter (eq s) papers)) (add_evaluator ev) e)
      <$> a !! s.
Proof.
  revert a. induction papers as [|p papers IH]; intros a; simpl.
  - now destruct (a !! s).
  - rewrite IH. rewrite filter_cons. destruct (decide (s = p)) as [->|Hne].
    + rewrite lookup_alter_eq. destruct (a !! p) as [e|]; [|reflexivity].
      change (Some (Nat.iter (length (filter (eq p) papers))
                      (add_evaluator ev) (add_evaluator ev e))
              = Some (Nat.iter (S (length (filter (eq p) papers)))
                      (add_evaluator ev) e)).
      now rewrite Nat.iter_succ_r.
    + rewrite lookup_alter_ne by congruence. reflexivity.
Qed.

Lemma filter_eq_NoDup (papers : list string) s :
  NoDup papers ->
  length (filter (eq s) papers) = if decide (s ∈ papers) then 1 else 0.
Proof.
  induction 1 as [|p papers Hp Hnd IH]; simpl.
  - destruct (decide (s ∈ [])) as [H|_]; [inversion H|reflexivity].
  - rewrite filter_cons. destruct (decide (s = p)) as [->|Hne].
    + simpl. rewrite IH. destruct (decide (p ∈ papers)); [contradiction|].
      destruct (decide (p ∈ p :: papers)) as [_|H]; [reflexivity|].
      exfalso. apply H. left.
    + rewrite IH. destruct (decide (s ∈ papers)) as [H|H];
        destruct (decide (s ∈ p :: papers)) as [H'|H']; try reflexivity.
      * exfalso. apply H'. now right.
      * exfalso. apply elem_of_cons in H' as [H'|H']; contradiction.
Qed.

(** What one round of the outer loop does to the entry of [s]. *)
Lemma lookup_record_evaluator ev papers (a : gmap string entry) s :
  NoDup papers ->
  record_evaluator ev papers a !! s
  = (fun e =>
       let e1 := if decide (s = ev) then set_papers papers e else e in
       if decide (s ∈ papers) then add_evaluator ev e1 else e1) <$> a !! s.
Proof.
  intros Hnd. unfold record_evaluator.
  rewrite lookup_add_evaluators, (filter_eq_NoDup papers s Hnd).
  destruct (decide (s = ev)) as [->|Hne].
  - rewrite lookup_alter_eq. destruct (a !! ev); simpl; [|reflexivity].
    now destruct (decide (ev ∈ papers)).
  - rewrite lookup_alter_ne by congruence.
    destruct (a !! s); simpl; [|reflexivity].
    now destruct (decide (s ∈ papers)).
Qed.

(** *** The outer loop *)

Section Ring.

Variables (sh : list string) (n k : nat).
Hypothesis sh_NoDup : NoDup sh.
Hypothesis sh_length : n = length sh.
Hypothesis k_lt : k < n.

Lemma handled_step m a :
  m < n -> handled sh n k m a ->
  handled sh n k (S m) (record_evaluator (item sh m) (ring sh n m k) a).
Proof.
  intros Hm Ha t Ht.
  rewrite lookup_record_evaluator by (apply ring_NoDup; assumption).
  rewrite (Ha t Ht). simpl. f_equal. unfold entry_at.
  rewrite seq_S, filter_app, fmap_app. simpl.
  destruct (decide (item sh t = item sh m)) as [Heq|Hne].
  - apply item_inj in Heq; try lia; [|assumption]. subst t.
    rewrite Nat.ltb_irrefl.
    destruct (Nat.ltb_spec m (S m)) as [_|]; [|lia].
    rewrite filter_cons, filter_nil.
    destruct (decide (item sh m ∈ ring sh n m k)) as [Hin|_].
    + exfalso. revert Hin. apply ring_not_self; assumption.
    + unfold set_papers. simpl. now rewrite app_nil_r.
  - assert (t <> m) by congruence.
    assert (Hlt : (t <? S m) = (t <? m)).
    { destruct (Nat.ltb_spec t (S m)), (Nat.ltb_spec t m); lia || reflexivity. }
    rewrite Hlt, filter_cons, filter_nil.
    destruct (decide (item sh t ∈ ring sh n m k)); simpl.
    + reflexivity.
    + now rewrite app_nil_r.
Qed.

Lemma ring_loop_handled rest :
  forall m a, m + length rest = n ->
    rest = drop m sh -> handled sh n k m a ->
    exists a', ring_loop sh n k false m rest a = Some a' /\ handled sh n k n a'
               /\ dom a' = dom a.
Proof.
  induction rest as [|ev rest IH]; intros m a Hlen Hrest Ha; simpl.
  - exists a. simpl in Hlen. assert (Hm : m = n) by lia. rewrite Hm in Ha. auto.
  - simpl in Hlen. assert (Hm : m < n) by lia.
    assert (Hev : ev = item sh m).
    { unfold item. rewrite nth_lookup.
      assert (L : sh !! m = Some ev).
      { rewrite <- (Nat.add_0_r m), <- lookup_drop, <- Hrest. reflexivity. }
      now rewrite L. }
    subst ev. rewrite papers_of_ring by assumption.
    destruct (IH (S m) (record_evaluator (item sh m) (ring sh n m k) a))
      as (a' & Hrun & Hdone & Hdom).
    + lia.
    + replace (S m) with (m + 1) by lia.
      rewrite <- (drop_drop sh 1 m), <- Hrest. reflexivity.
    + apply handled_step; assumption.
    + exists a'. repeat split; try assumption. rewrite Hdom.
      unfold record_evaluator. clear.
      generalize (ring sh n m k). intros papers.
      assert (G : forall l (b : gmap string entry),
                 dom (foldl (fun a p => alter (add_evaluator (item sh m)) p a) b l)
                 = dom b).
      { induction l as [|p l IHl]; intros b; simpl; [reflexivity|].
        rewrite IHl. apply leibniz_equiv, dom_alter. }
      rewrite G. apply leibniz_equiv, dom_alter.
Qed.

Lemma back_ring_NoDup t : t < n -> NoDup (back_ring sh n k t).
Proof.
  intros Ht. unfold back_ring.
  apply NoDup_fmap_2_strong; [|apply NoDup_seq].
  intros j1 j2 H1 H2 Heq. apply elem_of_seq in H1, H2. subst n.
  apply item_inj in Heq; try assumption;
    try (apply Nat.mod_upper_bound; lia).
  apply (ring_back_inj t j1 j2 (length sh)); lia.
Qed.

Lemma elem_back_ring t i :
  t < n -> i < n ->
  item sh i ∈ back_ring sh n k t <-> item sh t ∈ ring sh n i k.
Proof.
  intros Ht Hi. unfold back_ring. rewrite list_elem_of_fmap, elem_ring.
  split.
  - intros (j & Heq & Hj). apply elem_of_seq in Hj. exists j. split; [lia|].
    subst n. apply item_inj in Heq; try assumption;
      try (apply Nat.mod_upper_bound; lia).
    f_equal. symmetry. apply ring_pos_back; lia.
  - intros (j & Hj & Heq). exists j. split; [|apply elem_of_seq; lia].
    subst n. apply item_inj in Heq; try assumption;
      try (apply ring_pos_lt; lia).
    f_equal. apply ring_pos_back; lia.
Qed.

Lemma back_ring_length t : length (back_ring sh n k t) = k.
Proof. unfold back_ring. now rewrite length_fmap, length_seq. Qed.

Lemma back_ring_subset t s : 0 < n -> s ∈ back_ring sh n k t -> s ∈ sh.
Proof.
  intros Hn Hs. unfold back_ring in Hs.
  apply list_elem_of_fmap in Hs as (j & -> & _).
  apply item_elem. rewrite <- sh_length.
  apply Nat.mod_upper_bound. lia.
Qed.

(** The materialised [evaluators] list of position [t] lists the
    reviewers of [t]. *)
Lemma evaluators_back_ring t :
  t < n ->
  evaluators (entry_at sh n k n t) ≡ₚ back_ring sh n k t.
Proof.
  intros Ht. unfold entry_at. cbn [evaluators].
  apply NoDup_Permutation.
  - apply NoDup_fmap_2_strong; [|apply NoDup_filter, NoDup_seq].
    intros i1 i2 H1 H2 Heq.
    apply list_elem_of_filter in H1 as [_ H1], H2 as [_ H2].
    apply elem_of_seq in H1, H2.
    apply item_inj in Heq; try assumption; lia.
  - apply back_ring_NoDup, Ht.
  - intros x. rewrite list_elem_of_fmap. split.
    + intros (i & -> & Hi). apply list_elem_of_filter in Hi as [Hin Hi].
      apply elem_of_seq in Hi. apply elem_back_ring; [assumption|lia|assumption].
    + intros Hx. destruct (elem_item sh x) as (i & Hi & <-).
      { apply (back_ring_subset t); [lia|assumption]. }
      exists i. split; [reflexivity|]. apply list_elem_of_filter. split.
      * apply elem_back_ring; [assumption|lia|assumption].
      * apply elem_of_seq. lia.
Qed.

Section Degrees.

Variables (a : gmap string entry) (students : list string).
Hypothesis a_handled : handled sh n k n a.
Hypothesis students_NoDup : NoDup students.
Hypothesis students_perm : sh ≡ₚ students.

Lemma reviews_handled u i :
  u < n -> reviews a (item sh u) i = bool_decide (i ∈ ring sh n u k).
Proof.
  intros Hu. unfold reviews. rewrite (a_handled u Hu). unfold entry_at.
  cbn [assigned_papers].
  destruct (Nat.ltb_spec u n); [reflexivity|lia].
Qed.

Lemma out_degree_handled t : t < n -> out_degree a students (item sh t) = k.
Proof.
  intros Ht. unfold out_degree.
  rewrite <- (ring_length sh n t k). apply Permutation_length.
  apply NoDup_Permutation.
  - apply NoDup_filter, students_NoDup.
  - apply ring_NoDup; assumption.
  - intros x. rewrite list_elem_of_filter, reviews_handled by assumption.
    rewrite bool_decide_eq_true. split; [tauto|].
    intros Hx. split; [assumption|]. rewrite <- students_perm.
    apply (ring_subset sh n t k); [assumption|lia|assumption].
Qed.

Lemma in_degree_handled t : t < n -> in_degree a students (item sh t) = k.
Proof.
  intros Ht. unfold in_degree.
  rewrite <- (back_ring_length t). apply Permutation_length.
  apply NoDup_Permutation.
  - apply NoDup_filter, students_NoDup.
  - apply back_ring_NoDup, Ht.
  - intros x. rewrite list_elem_of_filter. split.
    + intros [Hr Hx]. rewrite <- students_perm in Hx.
      destruct (elem_item sh x Hx) as (i & Hi & <-).
      rewrite reviews_handled in Hr by lia.
      apply bool_decide_eq_true in Hr.
      apply elem_back_ring; [assumption|lia|assumption].
    + intros Hx. assert (Hsh : x ∈ sh).
      { apply (back_ring_subset t); [lia|assumption]. }
      destruct (elem_item sh x Hsh) as (i & Hi & <-).
      split; [|now rewrite <- students_perm].
      rewrite reviews_handled by lia. apply bool_decide_eq_true.
      apply elem_back_ring; [assumption|lia|assumption].
Qed.

Lemma no_self_handled t : t < n -> reviews a (item sh t) (item sh t) = false.
Proof.
  intros Ht. rewrite reviews_handled by assumption.
  apply bool_decide_eq_false, ring_not_self; assumption.
Qed.

End Degrees.

End Ring.

Lemma init_handled sh students n k :
  n = length sh -> sh ≡ₚ students ->
  handled sh n k 0 (init_assignments students).
Proof.
  intros Hn Hperm t Ht. rewrite lookup_init_assignments.
  - reflexivity.
  - rewrite <- Hperm. apply item_elem. lia.
Qed.

Lemma dom_init_assignments students :
  dom (init_assignments students) = list_to_set students.
Proof.
  unfold init_assignments.
  assert (G : forall l (a : gmap string entry),
             dom (foldl (fun a st => <[st := mk_entry [] []]> a) a l)
             = list_to_set l ∪ dom a).
  { induction l as [|x l IH]; intros a; simpl.
    - now rewrite (left_id_L ∅ (∪)).
    - rewrite IH, dom_insert_L, (assoc_L (∪)).
      f_equal. apply (comm_L (∪)). }
  rewrite G, dom_empty_L. apply (right_id_L ∅ (∪)).
Qed.

(** C6. For a roster without repetition, [allow_self = false] and
    [1 <= k <= n - 1], whatever order the shuffle produced, the perfect
    mode returns an assignment over the roster in which every student
    reviews exactly [k] papers, every paper has exactly [k] reviewers, and
    nobody reviews their own paper; the two materialised lists of every
    student have [k] entries, and [evaluators] lists the reviewers. *)
Theorem C6_perfect_balance
    (shuffle : option Z -> list string -> list string)
    (cfg : assignment_config) (students : list string) :
  NoDup students ->
  shuffle (random_seed cfg) students ≡ₚ students ->
  allow_self_evaluation cfg = false ->
  1 <= assignments_per_student cfg <= length students - 1 ->
  exists a,
    _generate_perfect_balanced_assignments shuffle cfg students = Some a /\
    dom a = list_to_set students /\
    forall s, s ∈ students ->
      out_degree a students s = assignments_per_student cfg /\
      in_degree a students s = assignments_per_student cfg /\
      reviews a s s = false /\
      exists e, a !! s = Some e /\
        length (assigned_papers e) = assignments_per_student cfg /\
        length (evaluators e) = assignments_per_student cfg /\
        forall u, u ∈ evaluators e <-> u ∈ students /\ reviews a u s = true.
Proof.
  intros Hnd Hperm Hself Hk.
  unfold _generate_perfect_balanced_assignments. rewrite Hself.
  set (sh := shuffle (random_seed cfg) students) in *.
  set (k := assignments_per_student cfg) in *.
  assert (Hlen : length students = length sh) by (symmetry; apply Permutation_length, Hperm).
  assert (Hsh : NoDup sh) by (now rewrite Hperm).
  assert (Hkn : k < length students) by lia.
  destruct (ring_loop_handled sh (length students) k Hsh Hlen Hkn sh 0
              (init_assignments students)) as (a & Hrun & Ha & Hdom).
  - lia.
  - reflexivity.
  - apply init_handled; assumption.
  - exists a. split; [exact Hrun|]. split.
    { rewrite Hdom. apply dom_init_assignments. }
    intros s Hs. rewrite <- Hperm in Hs.
    destruct (elem_item sh s Hs) as (t & Ht & <-). rewrite <- Hlen in Ht.
    assert (Hev := evaluators_back_ring sh _ k Hsh Hlen Hkn t Ht).
    assert (Hback : forall i, i < length students ->
              item sh i ∈ back_ring sh (length students) k t
              <-> item sh t ∈ ring sh (length students) i k).
    { intros i Hi. exact (elem_back_ring sh _ k Hsh Hlen Hkn t i Ht Hi). }
    assert (Hrev : forall u i, u < length students ->
              reviews a (item sh u) i
              = bool_decide (i ∈ ring sh (length students) u k)).
    { intros u i Hu. exact (reviews_handled sh _ k Hlen Hkn a Ha u i Hu). }
    split; [|split; [|split]].
    + exact (out_degree_handled sh _ k Hsh Hlen Hkn a students Ha Hnd Hperm t Ht).
    + exact (in_degree_handled sh _ k Hsh Hlen Hkn a students Ha Hnd Hperm t Ht).
    + exact (no_self_handled sh _ k Hsh Hlen Hkn a Ha t Ht).
    + exists (entry_at sh (length students) k (length students) t).
      split; [apply Ha, Ht|]. split; [|split].
      * unfold entry_at. cbn [assigned_papers].
        destruct (Nat.ltb_spec t (length students)); [|lia]. apply ring_length.
      * rewrite (Permutation_length Hev). apply back_ring_length.
      * intros u. rewrite Hev. split.
        -- intros Hu. assert (Hush : u ∈ sh).
           { apply (back_ring_subset sh _ k Hlen Hkn t u); [lia|assumption]. }
           split; [now rewrite <- Hperm|].
           destruct (elem_item sh u Hush) as (i & Hi & <-).
           rewrite Hrev by lia. apply bool_decide_eq_true, Hback; [lia|assumption].
        -- intros [Hu Hr]. rewrite <- Hperm in Hu.
           destruct (elem_item sh u Hu) as (i & Hi & <-).
           rewrite Hrev in Hr by lia. apply bool_decide_eq_true in Hr.
           apply Hback; [lia|assumption].
Qed.

(** *** The shuffle of the runtime *)

Lemma randbelow_lt fuel n :
  forall s r s', PyRandom.randbelow fuel n s = Some (r, s') -> (r < n)%Z.
Proof.
  induction fuel as [|fuel IH]; intros s r s' H; [discriminate|].
  cbn [PyRandom.randbelow] in H.
  destruct (PyRandom.getrandbits (PyRandom.bit_length n) s) as [r0 s0].
  destruct (Z.leb_spec n r0) as [_|Hlt].
  - exact (IH _ _ _ H).
  - injection H as <- _. exact Hlt.
Qed.

Lemma insert_head_perm (x : list string) a j :
  j < length x -> nth j x "" :: <[j := a]> x ≡ₚ a :: x.
Proof.
  revert j. induction x as [|b x IH]; intros [|j] Hj; cbn in *; try lia.
  - apply perm_swap.
  - rewrite perm_swap, (IH j) by lia. apply perm_swap.
Qed.

Lemma swap_perm (x : list string) i j :
  i < length x -> j < length x -> PyRandom.swap x i j ≡ₚ x.
Proof.
  unfold PyRandom.swap. revert i j.
  induction x as [|a x IH]; intros [|i] [|j] Hi Hj; cbn in *; try lia.
  - reflexivity.
  - apply insert_head_perm. lia.
  - apply insert_head_perm. lia.
  - apply perm_skip, IH; lia.
Qed.

Lemma swap_length (x : list string) i j :
  length (PyRandom.swap x i j) = length x.
Proof. unfold PyRandom.swap. now rewrite !length_insert. Qed.

Lemma shuffle_loop_perm fuel i :
  forall x s x' s',
    i < length x \/ i = 0 ->
    PyRandom.shuffle_loop fuel i x s = Some (x', s') -> x' ≡ₚ x.
Proof.
  induction i as [|i IH]; intros x s x' s' Hi H.
  - injection H as <- _. reflexivity.
  - cbn [PyRandom.shuffle_loop] in H.
    destruct (PyRandom.randbelow fuel (Z.of_nat (S (S i))) s) as [[j s1]|] eqn:E;
      [|discriminate].
    apply randbelow_lt in E.
    assert (Hlen : S i < length x) by (destruct Hi; [assumption|discriminate]).
    apply IH in H; [|left; rewrite swap_length; lia].
    rewrite H. apply swap_perm; lia.
Qed.

(** Whatever the seed, [PyRandom.shuffle] returns a permutation. *)
Lemma shuffle_perm a (x : list string) : PyRandom.shuffle a x ≡ₚ x.
Proof.
  unfold PyRandom.shuffle. destruct a as [a|]; [|reflexivity].
  destruct (PyRandom.shuffle_from PyRandom.draws (PyRandom.seed a) x)
    as [[x' s']|] eqn:E; [|reflexivity].
  unfold PyRandom.shuffle_from in E. apply shuffle_loop_perm in E; [assumption|].
  destruct x; cbn; [now right|left; lia].
Qed.

Lemma C6_perfect_balance_witness :
  exists a,
    _generate_perfect_balanced_assignments PyRandom.shuffle config_E1 roster_E1
      = Some a /\
    dom a = list_to_set roster_E1 /\
    forall s, s ∈ roster_E1 ->
      out_degree a roster_E1 s = 2 /\
      in_degree a roster_E1 s = 2 /\
      reviews a s s = false /\
      exists e, a !! s = Some e /\
        length (assigned_papers e) = 2 /\
        length (evaluators e) = 2 /\
        forall u, u ∈ evaluators e <-> u ∈ roster_E1 /\ reviews a u s = true.
Proof.
  apply (C6_perfect_balance PyRandom.shuffle config_E1 roster_E1).
  - apply (bool_decide_unpack (NoDup roster_E1)). vm_compute. exact I.
  - apply shuffle_perm.
  - reflexivity.
  - simpl. lia.
Defined.

(** The order [random.shuffle] produces after [random.seed(0)]. *)
Lemma shuffle_seed_0 :
  PyRandom.shuffle (Some 0%Z) roster_E1 = ["C"; "B"; "A"; "E"; "D"].
Proof. vm_compute. reflexivity. Qed.

(** C7, as stated, fails: with seed 0 the engine does not return
    [A->[B,C], B->[C,D], C->[D,E], D->[E,A], E->[A,B]]. *)
Lemma C7_seed_0_counterexample :
  papers_table roster_E1 <$>
    _generate_perfect_balanced_assignments PyRandom.shuffle config_E1 roster_E1
  <> Some [("A", Some ["B"; "C"]); ("B", Some ["C"; "D"]);
           ("C", Some ["D"; "E"]); ("D", Some ["E"; "A"]);
           ("E", Some ["A"; "B"])].
Proof. vm_compute. discriminate. Qed.

(** C7, amended. For the five students, [k = 2], no self evaluation and
    seed 0, the shuffle is applied: the order is [C, B, A, E, D] and the
    engine returns [A->[E,D], B->[A,E], C->[B,A], D->[C,B], E->[D,C]];
    every in-degree is 2.  The assignment [A->[B,C], ..., E->[A,B]] is the
    one returned for an order left unchanged. *)
Theorem C7_seed_0_assignment :
  papers_table roster_E1 <$>
    _generate_perfect_balanced_assignments PyRandom.shuffle config_E1 roster_E1
  = Some [("A", Some ["E"; "D"]); ("B", Some ["A"; "E"]);
          ("C", Some ["B"; "A"]); ("D", Some ["C"; "B"]);
          ("E", Some ["D"; "C"])]
  /\ in_degrees roster_E1 <$>
       _generate_perfect_balanced_assignments PyRandom.shuffle config_E1 roster_E1
     = Some [2; 2; 2; 2; 2]
  /\ papers_table roster_E1 <$>
       _generate_perfect_balanced_assignments (fun _ l => l) config_E1 roster_E1
     = Some [("A", Some ["B"; "C"]); ("B", Some ["C"; "D"]);
             ("C", Some ["D"; "E"]); ("D", Some ["E"; "A"]);
             ("E", Some ["A"; "B"])].
Proof. repeat split; vm_compute; reflexivity. Qed.

End AssignerFacts.

(* ===================================================================== *)
(** ** Properties of the store *)
(* ===================================================================== *)

Module StoreFacts.
Import Py Store StoreSpec.

(** *** The operations, without their exception plumbing *)

Lemma save_token_eq now t s :
  save_token now t s =
  match tokens s !! td_token t with
  | Some _ => (Ok false, s)
  | None =>
      (Ok true,
       mk_db (<[td_token t :=
                 mk_token_row (td_token t) (td_evaluator_id t)
                   (td_evaluator_name t) (td_email t) (td_target_id t)
                   (td_questions t) (default now (td_created_at t))
                   (td_expires_at t) (default "pending" (td_status t))
                   (default false (td_used t)) None None None]> (tokens s))
         (submissions s) (logs s))
  end.
Proof.
  unfold save_token, try_except, get_connection, bind, insert_token, ret.
  cbn [tk_token]. now destruct (tokens s !! td_token t).
Qed.

Lemma mark_token_used_eq now token ip ua s :
  mark_token_used now token ip ua s =
  match tokens s !! token with
  | None => (Ok false, s)
  | Some r =>
      (Ok true,
       mk_db (<[token :=
                 mk_token_row (tk_token r) (tk_evaluator_id r)
                   (tk_evaluator_name r) (tk_email r) (tk_target_id r)
                   (tk_questions r) (tk_created_at r) (tk_expires_at r)
                   "submitted" true (Some now) ip ua]> (tokens s))
         (submissions s) (logs s))
  end.
Proof.
  unfold mark_token_used, try_except, get_connection, bind,
    update_token_used, ret.
  now destruct (tokens s !! token).
Qed.

Lemma log_action_eq now action details token ip ua s :
  log_action now action details token ip ua s =
  (Ok true,
   mk_db (tokens s) (submissions s)
     (logs s ++ [mk_log_row (next_id (lg_id <$> logs s)) token action details
                   ip ua now])).
Proof. reflexivity. Qed.

(** *** Marking a token *)



(** *** Saving a batch of tokens *)

Lemma C9_batch_counterexample :
  ~ all_or_nothing 0%Z [token_E2 "t1" "A"; token_E2 "t1" "C"; token_E2 "t2" "A"]
      empty_db.
Proof.
  unfold all_or_nothing. vm_compute.
  intros H. specialize (H ltac:(lia)). discriminate H.
Qed.

Lemma save_tokens_loop_spec now ts :
  forall s sc fc,
  exists succ fail d,
    save_tokens_loop now ts sc fc s = (Ok (sc + succ, fc + fail), d) /\
    succ + fail = length ts /\
    submissions d = submissions s /\ logs d = logs s /\
    (forall k r, tokens s !! k = Some r -> tokens d !! k = Some r) /\
    dom (tokens d) = dom (tokens s) ∪ list_to_set (td_token <$> ts) /\
    size (tokens d) = size (tokens s) + succ.
Proof.
  induction ts as [|t ts IH]; intros s sc fc; cbn [save_tokens_loop].
  - exists 0, 0, s. unfold ret. rewrite !Nat.add_0_r. repeat split; auto.
    cbn. now rewrite (right_id_L ∅ (∪)).
  - unfold bind at 1. rewrite save_token_eq.
    destruct (tokens s !! td_token t) as [r0|] eqn:E.
    + destruct (IH s sc (fc + 1)) as (succ & fail & d & Hrun & Hlen & Hs & Hl & Hkeep & Hdom & Hsize).
      exists succ, (S fail), d. rewrite Hrun.
      replace (fc + S fail) with (fc + 1 + fail) by lia.
      repeat split; auto.
      * cbn [length]. lia.
      * rewrite Hdom. cbn [fmap list_fmap list_to_set].
        assert (td_token t ∈ dom (tokens s)) by (apply elem_of_dom; eauto).
        set_solver.
    + match goal with |- context [mk_db ?m _ _] => set (m' := m) end.
      destruct (IH (mk_db m' (submissions s) (logs s)) (sc + 1) fc)
        as (succ & fail & d & Hrun & Hlen & Hs & Hl & Hkeep & Hdom & Hsize).
      exists (S succ), fail, d. rewrite Hrun. cbn [tokens submissions logs] in *.
      replace (sc + S succ) with (sc + 1 + succ) by lia.
      repeat split; auto.
      * cbn [length]. lia.
      * intros k r Hk. apply Hkeep. subst m'.
        rewrite lookup_insert_ne; [assumption|]. intros Heq. subst k. congruence.
      * rewrite Hdom. subst m'. rewrite dom_insert_L.
        cbn [fmap list_fmap list_to_set]. set_solver.
      * rewrite Hsize. subst m'. rewrite map_size_insert_None by assumption. lia.
Qed.

(** C9, amended. [save_tokens_batch] saves every token in a transaction
    of its own and rolls nothing back: it returns the two counters, whose
    sum is the length of the batch; the rows stored before the call are
    kept as they were; afterwards every token string of the batch is
    stored, and the table has grown by exactly [success_count] rows, the
    tokens whose string was already stored (before the call or by an
    earlier element of the batch) being the failures. *)
Theorem C9_save_tokens_batch now ts s :
  exists success_count fail_count d,
    save_tokens_batch now ts s = (Ok (success_count, fail_count), d) /\
    success_count + fail_count = length ts /\
    submissions d = submissions s /\ logs d = logs s /\
    (forall k r, tokens s !! k = Some r -> tokens d !! k = Some r) /\
    dom (tokens d) = dom (tokens s) ∪ list_to_set (td_token <$> ts) /\
    size (tokens d) = size (tokens s) + success_count.
Proof. apply (save_tokens_loop_spec now ts s 0 0). Qed.

End StoreFacts.

(* ===================================================================== *)
(** ** Properties of the submission handler *)
(* ===================================================================== *)

Module WebFacts.
Import Py Store Web StoreFacts WebSpec.

(** *** One entry of the form *)

Lemma save_submission_eq now d s :
  save_submission now d s =
  match cells (sd_question_id d) (sd_score d) (sd_comment d) with
  | Some (q, sc, c) =>
      let id := next_id (sb_id <$> submissions s) in
      (Ok (Some id),
       mk_db (tokens s)
         (submissions s ++
            [mk_submission_row id (sd_token d) (sd_evaluator_id d)
               (sd_target_id d) q sc c now (sd_ip_address d)
               (sd_user_agent d)])
         (logs s))
  | None => (Ok None, s)
  end.
Proof.
  unfold save_submission, try_except, get_connection, insert_submission,
    bind, lift, cells.
  destruct (bind_param (sd_question_id d)) as [[]|];
    destruct (bind_param (sd_score d)) as [[]|];
    destruct (bind_param (sd_comment d)) as [[]|]; reflexivity.
Qed.

(** The loop, entry by entry. *)
Lemma save_loop_cons now req token ev tg sub rest ids s :
  save_loop now req token ev tg (sub :: rest) ids s =
  match fate_of sub with
  | Aborted e => (Raise e, s)
  | Refused => save_loop now req token ev tg rest (ids ++ [None]) s
  | Stored q sc c =>
      let id := next_id (sb_id <$> submissions s) in
      save_loop now req token ev tg rest (ids ++ [Some id])
        (mk_db (tokens s)
           (submissions s ++
              [mk_submission_row id token ev tg q sc c now (remote_addr req)
                 (header_user_agent req)])
           (logs s))
  end.
Proof.
  cbn [save_loop]. unfold fate_of, bind, lift.
  destruct (subscript sub "question_id") as [q|e]; [|reflexivity].
  destruct (subscript sub "score") as [sc|e]; [|reflexivity].
  destruct (get_comment sub) as [c|e]; [|reflexivity].
  rewrite save_submission_eq. cbn [sd_question_id sd_score sd_comment
    sd_token sd_evaluator_id sd_target_id sd_ip_address sd_user_agent].
  destruct (cells q sc c) as [[[q' sc'] c']|]; reflexivity.
Qed.

(** The loop only appends rows; they are the rows of the stored entries
    among the reached ones, and the loop ends normally exactly when no
    entry aborts. *)
Lemma save_loop_spec now req token info l :
  forall ids s,
  exists r d rows,
    save_loop now req token (tk_evaluator_id info) (tk_target_id info) l ids s
      = (r, d) /\
    tokens d = tokens s /\ logs d = logs s /\
    submissions d = submissions s ++ rows /\
    Forall2 (persisted now req token info) (filter (fun x => is_stored x = true) (reached l)) rows /\
    ((reached l = l /\ exists ids', r = Ok ids' /\ length ids' = length ids + length l)
     \/ (reached l <> l /\ exists e, r = Raise e)).
Proof.
  induction l as [|sub rest IH]; intros ids s.
  - exists (Ok ids), s, []. cbn. rewrite app_nil_r.
    repeat split; auto. left. split; [reflexivity|]. exists ids. split; [reflexivity|lia].
  - rewrite save_loop_cons. cbn [reached].
    assert (Hst : is_stored sub = match fate_of sub with Stored _ _ _ => true | _ => false end)
      by reflexivity.
    unfold aborts. destruct (fate_of sub) as [q sc c|  |e] eqn:F.
    + match goal with |- context [save_loop _ _ _ _ _ _ ?i ?st] =>
        destruct (IH i st) as (r & d & rows & Hrun & Ht & Hl & Hs & Hrows & Hend)
      end.
      cbn [tokens submissions logs] in *.
      eexists r, d, (_ :: rows). split; [exact Hrun|].
      split; [assumption|]. split; [assumption|].
      split; [rewrite Hs, <- app_assoc; reflexivity|].
      split.
      * rewrite filter_cons. destruct (decide (is_stored sub = true)); [|congruence].
        constructor; [|assumption]. unfold persisted. cbn. auto 10.
      * destruct Hend as [[Hr (ids' & -> & Hlen)]|[Hr (e & ->)]].
        -- left. split; [now rewrite Hr|]. exists ids'. split; [reflexivity|].
           rewrite Hlen, length_app. cbn. lia.
        -- right. split; [congruence|]. eauto.
    + destruct (IH (ids ++ [None]) s) as (r & d & rows & Hrun & Ht & Hl & Hs & Hrows & Hend).
      exists r, d, rows. split; [exact Hrun|].
      split; [assumption|]. split; [assumption|]. split; [assumption|].
      split.
      * rewrite filter_cons. destruct (decide (is_stored sub = true)); [congruence|].
        assumption.
      * destruct Hend as [[Hr (ids' & -> & Hlen)]|[Hr (e & ->)]].
        -- left. split; [now rewrite Hr|]. exists ids'. split; [reflexivity|].
           rewrite Hlen, length_app. cbn. lia.
        -- right. split; [congruence|]. eauto.
    + exists (Raise e), s, []. rewrite app_nil_r. repeat split; auto.
      right. split; [discriminate|]. eauto.
Qed.

(** *** The handler *)

Lemma validate_token_pending now token info s :
  tokens s !! token = Some info -> pending_at now info ->
  validate_token now token s = (Ok (true, Some info, ""), s).
Proof.
  intros Hlook (Hused & Hst & Hexp).
  unfold validate_token, bind, get_token_info, try_except, get_connection.
  rewrite Hlook, Hused, Hst. cbn.
  destruct (Z.ltb_spec (tk_expires_at info) now); [lia|reflexivity].
Qed.

Lemma validate_token_cases now token s :
  exists valid info msg,
    validate_token now token s = (Ok (valid, info, msg), s) /\
    info = tokens s !! token /\
    (valid = true -> exists i, info = Some i /\ pending_at now i).
Proof.
  unfold validate_token, bind, get_token_info, try_except, get_connection, ret.
  destruct (tokens s !! token) as [i|] eqn:E.
  - destruct (tk_is_used i) eqn:U.
    { eexists _, _, _. split; [reflexivity|]. split; [reflexivity|discriminate]. }
    destruct (String.eqb (tk_status i) "pending") eqn:P; cbn [negb].
    + destruct (Z.ltb_spec (tk_expires_at i) now).
      * eexists _, _, _. split; [reflexivity|]. split; [reflexivity|discriminate].
      * eexists _, _, _. split; [reflexivity|]. split; [reflexivity|].
        intros _. exists i. split; [reflexivity|].
        apply String.eqb_eq in P. repeat split; assumption.
    + eexists _, _, _. split; [reflexivity|]. split; [reflexivity|discriminate].
  - eexists _, _, _. split; [reflexivity|]. split; [reflexivity|discriminate].
Qed.

(** A request with a valid pending token and a non-empty [submissions]
    member: what is stored, and what is answered. *)
Lemma submit_valid now req s token subs info :
  get_json req = Form (Some token) subs ->
  token <> "" -> truthy subs = true ->
  tokens s !! token = Some info -> pending_at now info ->
  exists resp d rows,
    submit_evaluation now req s = (Ok resp, d) /\
    submissions d = submissions s ++ rows /\
    (forall t, t <> token -> tokens d !! t = tokens s !! t) /\
    match iterate subs with
    | Ok l =>
        Forall2 (persisted now req token info)
          (filter (fun x => is_stored x = true) (reached l)) rows /\
        ((reached l = l /\
          (exists ids, resp = mk_response (Success ids) 200 /\
                       length ids = length l) /\
          tokens d = <[token := marked now req info]> (tokens s))
         \/ (reached l <> l /\ status resp = 500 /\ tokens d = tokens s))
    | Raise _ => rows = [] /\ status resp = 500 /\ tokens d = tokens s
    end.
Proof.
  intros Hjson Htok Htruthy Hlook Hpend.
  unfold submit_evaluation. rewrite Hjson. cbn [no_token].
  apply String.eqb_neq in Htok. rewrite Htok, Htruthy.
  cbn [negb orb].
  change (default "" (Some token)) with token.
  unfold try_except, bind at 1.
  rewrite (validate_token_pending now token info s Hlook Hpend). cbn [negb].
  destruct Hpend as (Hused & _). rewrite Hused.
  unfold bind at 1, lift. destruct (iterate subs) as [l|e].
  - unfold bind at 1.
    destruct (save_loop_spec now req token info l [] s)
      as (r & d1 & rows & Hrun & Ht & Hl & Hs & Hrows & Hend).
    rewrite Hrun.
    destruct Hend as [[Hr (ids' & -> & Hlen)]|[Hr (e & ->)]].
    + unfold bind at 1. rewrite mark_token_used_eq, Ht, Hlook.
      unfold bind, ret. rewrite log_action_eq. cbn [tokens submissions logs].
      eexists _, _, rows. split; [reflexivity|]. cbn [tokens submissions logs].
      split; [assumption|]. split.
      { intros t Hne. now rewrite lookup_insert_ne. }
      split; [assumption|]. left. split; [assumption|]. split; [|reflexivity].
      exists ids'. split; [reflexivity|]. cbn in Hlen. lia.
    + unfold bind, ret. rewrite log_action_eq. cbn [tokens submissions logs].
      eexists _, _, rows. split; [reflexivity|]. cbn [tokens submissions logs status].
      split; [assumption|]. split; [intros; now rewrite Ht|].
      split; [assumption|]. right. auto.
  - unfold bind, ret. rewrite log_action_eq.
    eexists _, _, []. split; [reflexivity|]. cbn [tokens submissions logs status].
    rewrite app_nil_r. auto.
Qed.

(** Every request is either turned down with 400 or 403, the store left
    as it was, or carries a valid pending token and a non-empty
    [submissions] member. *)
Lemma submit_cases now req s :
  (exists resp, submit_evaluation now req s = (Ok resp, s) /\
                (status resp = 400 \/ status resp = 403))
  \/ (exists token subs info,
        get_json req = Form (Some token) subs /\ token <> "" /\
        truthy subs = true /\ tokens s !! token = Some info /\
        pending_at now info).
Proof.
  unfold submit_evaluation. destruct (get_json req) as [|token subs] eqn:J.
  { left. eexists. split; [reflexivity|]. now left. }
  destruct (no_token token || negb (truthy subs)) eqn:C.
  { left. eexists. split; [reflexivity|]. now left. }
  apply orb_false_iff in C as [Hno Htr]. apply negb_false_iff in Htr.
  destruct token as [token|]; [|discriminate]. cbn in Hno.
  apply String.eqb_neq in Hno. change (default "" (Some token)) with token.
  destruct (validate_token_cases now token s) as (valid & info & msg & Hv & Hi & Hok).
  destruct valid.
  - right. destruct (Hok eq_refl) as (i & -> & Hp). exists token, subs, i. auto.
  - left. unfold try_except, bind at 1. rewrite Hv. cbn [negb].
    eexists. split; [reflexivity|]. now right.
Qed.

(** *** Members of an entry the handler does not read *)

Lemma dict_get_filter (P : string * value -> Prop) `{!forall kv, Decision (P kv)}
    key m :
  (forall v, P (key, v)) ->
  (forall k v v', P (k, v) -> P (k, v')) ->
  dict_get key (filter P m) = dict_get key m.
Proof.
  intros Hkey Hname. induction m as [|[k v] m IH]; [reflexivity|].
  rewrite filter_cons. cbn [dict_get]. destruct (decide (P (k, v))) as [Hp|Hn].
  - cbn [dict_get]. now rewrite IH.
  - destruct (String.eqb_spec k key) as [->|_]; [|exact IH].
    exfalso. apply Hn, Hkey.
Qed.

Lemma fate_of_drop_ids sub : fate_of (drop_ids sub) = fate_of sub.
Proof.
  destruct sub as [| | | | | |m]; try reflexivity.
  unfold fate_of, drop_ids, subscript, get_comment.
  rewrite !dict_get_filter; try reflexivity; cbn; intros; intuition discriminate.
Qed.

Lemma save_loop_drop_ids now req token ev tg l :
  forall ids s,
    save_loop now req token ev tg (drop_ids <$> l) ids s
    = save_loop now req token ev tg l ids s.
Proof.
  induction l as [|sub l IH]; intros ids s; [reflexivity|].
  rewrite fmap_cons, !save_loop_cons, fate_of_drop_ids.
  destruct (fate_of sub); [apply IH|apply IH|reflexivity].
Qed.

Lemma save_loop_same_client now req req' token ev tg l :
  remote_addr req = remote_addr req' ->
  header_user_agent req = header_user_agent req' ->
  forall ids s,
    save_loop now req token ev tg l ids s
    = save_loop now req' token ev tg l ids s.
Proof.
  intros Hip Hua. induction l as [|sub l IH]; intros ids s; [reflexivity|].
  rewrite !save_loop_cons, Hip, Hua.
  destruct (fate_of sub); [apply IH|apply IH|reflexivity].
Qed.

Lemma submit_drop_ids now token l ip ua s :
  submit_evaluation now (mk_request (Form token (JList (drop_ids <$> l))) ip ua) s
  = submit_evaluation now (mk_request (Form token (JList l)) ip ua) s.
Proof.
  unfold submit_evaluation. cbn [get_json remote_addr header_user_agent].
  assert (Htr : truthy (JList (drop_ids <$> l)) = truthy (JList l))
    by now destruct l.
  rewrite Htr. destruct (no_token token || negb (truthy (JList l))); [reflexivity|].
  unfold try_except, bind, lift, iterate.
  destruct (validate_token now (default "" token) s) as [[[[valid info] msg]|e] s'];
    [|reflexivity].
  destruct (negb valid); [reflexivity|].
  destruct info as [info|]; [|reflexivity].
  destruct (tk_is_used info); [reflexivity|].
  rewrite save_loop_drop_ids.
  rewrite (save_loop_same_client now _ (mk_request (Form token (JList l)) ip ua))
    by reflexivity.
  cbn [len]. rewrite length_fmap. reflexivity.
Qed.

(** *** Scenario E2: one pending token for the pair (A, B) *)


(** *** C3 *)




(** *** C5 *)




(** *** C10 *)

(** C10. Whatever the body of the request, every row the handler adds to
    [submissions] carries the token of the request and the [evaluator_id]
    and [target_id] stored with that token; and the members
    [evaluator_id] and [target_id] of the entries are not read: the
    request without them gives the same answer and the same store. *)
Theorem C10_rows_carry_token_pair now req s token subs info :
  get_json req = Form (Some token) subs ->
  tokens s !! token = Some info ->
  exists resp d rows,
    submit_evaluation now req s = (Ok resp, d) /\
    submissions d = submissions s ++ rows /\
    Forall (fun row => sb_token row = token /\
                       sb_evaluator_id row = tk_evaluator_id info /\
                       sb_target_id row = tk_target_id info) rows /\
    forall l, subs = JList l ->
      submit_evaluation now
        (mk_request (Form (Some token) (JList (drop_ids <$> l)))
           (remote_addr req) (header_user_agent req)) s
      = (Ok resp, d).
Proof.
  intros Hjson Hlook.
  assert (Hdrop : forall resp d l, subs = JList l ->
            submit_evaluation now req s = (Ok resp, d) ->
            submit_evaluation now
              (mk_request (Form (Some token) (JList (drop_ids <$> l)))
                 (remote_addr req) (header_user_agent req)) s = (Ok resp, d)).
  { intros resp d l -> Hrun. rewrite submit_drop_ids, <- Hrun.
    destruct req as [j ip ua]. cbn in *. now subst j. }
  destruct (submit_cases now req s)
    as [(resp & Hrun & Hst)|(token' & subs' & info' & Hjson' & Htok & Htr & Hlook' & Hpend)].
  - exists resp, s, []. rewrite app_nil_r. split; [assumption|].
    split; [reflexivity|]. split; [constructor|].
    intros l Hl. now apply Hdrop.
  - rewrite Hjson in Hjson'. injection Hjson' as <- <-.
    rewrite Hlook in Hlook'. injection Hlook' as <-.
    destruct (submit_valid now req s token subs info Hjson Htok Htr Hlook Hpend)
      as (resp & d & rows & Hrun & Hs & _ & Hend).
    exists resp, d, rows. split; [assumption|]. split; [assumption|]. split.
    + destruct (iterate subs).
      * destruct Hend as (Hrows & _).
        clear -Hrows. induction Hrows as [|sub row l rows Hp _ IH]; constructor.
        -- destruct Hp as (_ & ? & ? & ? & _). auto.
        -- assumption.
      * destruct Hend as (-> & _). constructor.
    + intros l Hl. now apply Hdrop.
Qed.

Lemma C10_rows_carry_token_pair_witness :
  exists resp d rows,
    submit_evaluation 5 post_other_ids pending_db = (Ok resp, d) /\
    submissions d = submissions pending_db ++ rows /\
    Forall (fun row => sb_token row = "t" /\
                       sb_evaluator_id row = "A" /\
                       sb_target_id row = "B") rows /\
    length rows = 2.
Proof.
  destruct (C10_rows_carry_token_pair 5 post_other_ids pending_db "t"
              (JList [JDict [("question_id", JStr "Q1"); ("score", JInt 18);
                             ("evaluator_id", JStr "C"); ("target_id", JStr "D")];
                      JDict [("question_id", JStr "Q2"); ("score", JInt 17);
                             ("evaluator_id", JStr "C"); ("target_id", JStr "D")]])
              pending_token eq_refl eq_refl)
    as (resp & d & rows & Hrun & Hs & Hrows & _).
  exists resp, d, rows. split; [exact Hrun|]. split; [exact Hs|].
  split; [exact Hrows|].
  assert (Hlen : length (submissions d) = 2).
  { replace d with (snd (submit_evaluation 5 post_other_ids pending_db))
      by (rewrite Hrun; reflexivity).
    vm_compute. reflexivity. }
  rewrite Hs in Hlen. cbn in Hlen. exact Hlen.
Defined.

End WebFacts.

(* ===================================================================== *)
(** ** Properties of the consensus engine *)
(* ===================================================================== *)

Module ConsensusFacts.
Import Consensus ConsensusSpec.

Local Open Scope R_scope.

(** *** Comparisons *)

Lemma pymax_Rmax a b : pymax a b = Rmax a b.
Proof.
  unfold pymax, Rmax. destruct (Rlt_dec a b), (Rle_dec a b); lra.
Qed.

Lemma pymax_ge_l a b : a <= pymax a b.
Proof. rewrite pymax_Rmax. apply Rmax_l. Qed.



(** *** Reputation *)

Lemma reputation_score_formula g u v :
  variance u = Some (Finite v) ->
  reputation_score g u
  = Rmax 0 (R_max g - (R_max g / v_G g) * sqrt (Rmax 0 v)).
Proof.
  intros Hv. unfold reputation_score, lambda_param. rewrite Hv.
  now rewrite !pymax_Rmax.
Qed.

Lemma reputation_score_no_variance g u :
  variance u = None \/ variance u = Some Infinity ->
  reputation_score g u = 0.
Proof. unfold reputation_score. intros [-> | ->]; reflexivity. Qed.

Lemma reputation_score_bounds g u :
  0 < R_max g -> 0 < v_G g ->
  0 <= reputation_score g u <= R_max g.
Proof.
  intros HR HV. unfold reputation_score.
  destruct (variance u) as [[v|]|]; try lra.
  split; [apply pymax_ge_l|].
  assert (Hl : 0 <= lambda_param g).
  { unfold lambda_param. apply Rlt_le, Rdiv_lt_0_compat; assumption. }
  assert (Hs : 0 <= sqrt (pymax 0 v)) by apply sqrt_pos.
  assert (Hp : 0 <= lambda_param g * sqrt (pymax 0 v))
    by (apply Rmult_le_pos; assumption).
  unfold pymax at 1. destruct (Rlt_dec _ _); lra.
Qed.

Lemma calculate_reputation_scores_bounds (g : EnhancedGraph) :
  0 < R_max g -> 0 < v_G g ->
  length (users (calculate_reputation_scores g)) = length (users g) /\
  forall u, u ∈ users (calculate_reputation_scores g) ->
    exists r,
      reputation u = Some r /\ 0 <= r <= R_max g /\
      (forall v, variance u = Some (Finite v) ->
         r = Rmax 0 (R_max g - (R_max g / v_G g) * sqrt (Rmax 0 v))) /\
      (variance u = None \/ variance u = Some Infinity -> r = 0).
Proof.
  intros HR HV. split.
  { unfold calculate_reputation_scores. cbn [users]. apply length_fmap. }
  intros u Hu. unfold calculate_reputation_scores in Hu. cbn [users] in Hu.
  apply list_elem_of_fmap in Hu as (u0 & -> & _). cbn [reputation variance].
  exists (reputation_score g u0). split; [reflexivity|].
  split; [apply reputation_score_bounds; assumption|]. split.
  - intros v Hv. now apply reputation_score_formula.
  - apply reputation_score_no_variance.
Qed.

(** *** Looking objects up by name *)

Lemma get_item_id g s it : get_item g s = Some it -> id it = s.
Proof.
  unfold get_item. intros H. apply find_some in H as [_ H].
  now apply String.eqb_eq in H.
Qed.

Lemma get_user_name g s u : get_user g s = Some u -> name u = s /\ u ∈ users g.
Proof.
  unfold get_user. intros H. apply find_some in H as [Hin H].
  split; [now apply String.eqb_eq in H|now apply list_elem_of_In].
Qed.

Lemma get_user_elem g u : u ∈ users g -> exists u', get_user g (name u) = Some u'.
Proof.
  intros Hu. unfold get_user.
  destruct (List.find _ (users g)) as [u'|] eqn:F; [eauto|].
  apply list_elem_of_In in Hu.
  pose proof (find_none _ _ F u Hu) as H. cbn in H.
  now rewrite String.eqb_refl in H.
Qed.

Lemma find_item_fmap (f : Item -> Item) l s :
  (forall x, id (f x) = id x) ->
  List.find (fun it => String.eqb (id it) s) (f <$> l)
  = f <$> List.find (fun it => String.eqb (id it) s) l.
Proof.
  intros Hid. induction l as [|x l IH]; [reflexivity|].
  cbn. rewrite Hid. destruct (String.eqb (id x) s); [reflexivity|exact IH].
Qed.

Lemma find_item_mapM (f : Item -> option Item) l l' s :
  (forall x y, f x = Some y -> id y = id x) ->
  mapM f l = Some l' ->
  List.find (fun it => String.eqb (id it) s) l'
  = List.find (fun it => String.eqb (id it) s) l ≫= f.
Proof.
  intros Hid H. apply mapM_Some in H.
  induction H as [|x y l l' Hxy _ IH]; [reflexivity|].
  cbn [List.find]. rewrite (Hid x y Hxy).
  destruct (String.eqb (id x) s); [cbn; congruence|exact IH].
Qed.

Lemma find_item_app l1 l2 s :
  List.find (fun it => String.eqb (id it) s) (l1 ++ l2)
  = match List.find (fun it => String.eqb (id it) s) l1 with
    | Some x => Some x
    | None => List.find (fun it => String.eqb (id it) s) l2
    end.
Proof.
  induction l1 as [|x l1 IH]; [reflexivity|].
  cbn. destruct (String.eqb (id x) s); [reflexivity|exact IH].
Qed.

(** *** The graph of a list of reviews *)

Lemma get_item_add_review u i x g j :
  get_item (add_review u i x g) j
  = if String.eqb i j
    then Some (add_user u (default (mkItem i [] None None) (get_item g i)))
    else get_item g j.
Proof.
  unfold get_item at 1, add_review. cbn [items]. unfold update_item.
  rewrite find_item_fmap by (intros y; now destruct (String.eqb (id y) i)).
  destruct (get_item g i) as [it0|] eqn:E.
  - fold (get_item g j). destruct (String.eqb_spec i j) as [->|Hne].
    + rewrite E. cbn. rewrite (get_item_id g j it0 E), String.eqb_refl. reflexivity.
    + destruct (get_item g j) as [it|] eqn:Ej; [|reflexivity].
      cbn. rewrite (get_item_id g j it Ej).
      destruct (String.eqb_spec j i); [congruence|reflexivity].
  - rewrite find_item_app. fold (get_item g j). cbn [List.find id].
    destruct (String.eqb_spec i j) as [->|Hne].
    + rewrite E. cbn. rewrite String.eqb_refl. reflexivity.
    + destruct (get_item g j) as [it|] eqn:Ej; [|reflexivity].
      cbn. rewrite (get_item_id g j it Ej).
      destruct (String.eqb_spec j i); [congruence|reflexivity].
Qed.

Lemma set_add_nonempty x s : set_add x s <> [].
Proof.
  unfold set_add. destruct (bool_decide (x ∈ s)) eqn:B.
  - apply bool_decide_eq_true in B. intros ->. inversion B.
  - now destruct s.
Qed.

Lemma reviewed_add_review u i x g j :
  i = j \/ reviewed g j -> reviewed (add_review u i x g) j.
Proof.
  intros H. unfold reviewed. rewrite get_item_add_review.
  destruct (String.eqb_spec i j) as [->|Hne].
  - eexists. split; [reflexivity|]. cbn. apply set_add_nonempty.
  - destruct H as [H|H]; [contradiction|exact H].
Qed.

Lemma names_add_review u i x g s :
  s = u \/ s ∈ name <$> users g ->
  s ∈ name <$> users (add_review u i x g).
Proof.
  unfold add_review. cbn [users]. unfold update_user.
  rewrite <- list_fmap_compose.
  assert (Hn : forall l : list User,
                 (name ∘ (fun v => if String.eqb (name v) u
                                            then add_item i x v else v)) <$> l
                         = name <$> l).
  { intros l. apply list_fmap_ext. intros _ v _. cbn.
    now destruct (String.eqb (name v) u). }
  rewrite Hn. intros [->|H].
  - destruct (get_user g u) as [u0|] eqn:E.
    + apply get_user_name in E as [<- Hin]. now apply list_elem_of_fmap_2.
    + rewrite fmap_app. apply elem_of_app. right. cbn. left.
  - destruct (get_user g u); [assumption|].
    rewrite fmap_app. apply elem_of_app. now left.
Qed.

Lemma fresh_add_review u i x g :
  Forall (fun it => item_grade it = None) (items g) ->
  Forall (fun it => item_grade it = None) (items (add_review u i x g)).
Proof.
  intros H. unfold add_review. cbn [items]. unfold update_item.
  apply Forall_fmap.
  assert (H1 : Forall (fun it => item_grade it = None)
                 match get_item g i with
                 | Some _ => items g
                 | None => items g ++ [mkItem i [] None None]
                 end).
  { destruct (get_item g i); [assumption|].
    apply Forall_app. split; [assumption|]. now repeat constructor. }
  eapply Forall_impl; [exact H1|].
  intros it Hit. cbn. now destruct (String.eqb (id it) i).
Qed.

Lemma add_reviews_cons r reviews g :
  add_reviews (r :: reviews) g
  = add_reviews reviews (add_review (fst (fst r)) (snd (fst r)) (snd r) g).
Proof. reflexivity. Qed.

Lemma add_reviews_spec reviews :
  forall g,
    (Forall (fun it => item_grade it = None) (items g) ->
     Forall (fun it => item_grade it = None) (items (add_reviews reviews g))) /\
    (forall u i x, (u, i, x) ∈ reviews \/ reviewed g i ->
                   reviewed (add_reviews reviews g) i) /\
    (forall u i x, (u, i, x) ∈ reviews \/ u ∈ name <$> users g ->
                   u ∈ name <$> users (add_reviews reviews g)) /\
    R_max (add_reviews reviews g) = R_max g /\
    v_G (add_reviews reviews g) = v_G g /\
    alpha (add_reviews reviews g) = alpha g.
Proof.
  induction reviews as [|[[u0 i0] x0] reviews IH]; intros g.
  - repeat split; auto.
    + intros u i x [H|H]; [inversion H|assumption].
    + intros u i x [H|H]; [inversion H|assumption].
  - rewrite add_reviews_cons. cbn [fst snd].
    destruct (IH (add_review u0 i0 x0 g)) as (Hf & Hi & Hu & HR & HV & HA).
    split; [|split; [|split; [|split; [|split]]]]; try assumption.
    + intros H. apply Hf. apply fresh_add_review. exact H.
    + intros u i x H. apply (Hi u i x).
      destruct H as [H|H].
      * apply elem_of_cons in H as [H|H]; [|now left].
        injection H as -> -> ->. right. apply reviewed_add_review. now left.
      * right. apply reviewed_add_review. now right.
    + intros u i x H. apply (Hu u i x).
      destruct H as [H|H].
      * apply elem_of_cons in H as [H|H]; [|now left].
        injection H as -> -> ->. right. apply names_add_review. now left.
      * right. apply names_add_review. now right.
Qed.

(** *** One round of the iteration *)

Lemma votes_weights g it :
  rep_set g -> Forall (is_Some ∘ snd) (votes g it).
Proof.
  intros Hrep. apply Forall_forall. intros [gr w] Hin.
  unfold votes in Hin. apply list_elem_of_omap in Hin as (uname & _ & Hf).
  destruct (get_user g uname) as [u|] eqn:E; [|discriminate].
  cbn in Hf. destruct (dict_get (id it) (user_grade u)); [|discriminate].
  cbn in Hf. injection Hf as <- <-. cbn.
  apply get_user_name in E as [_ Hu].
  exact (proj1 (Forall_forall _ _) Hrep u Hu).
Qed.

Lemma evaluate_item_shape g it it' :
  evaluate_item g it = Some it' ->
  id it' = id it /\ item_users it' = item_users it /\
  (item_users it <> [] -> is_Some (item_grade it')).
Proof.
  unfold evaluate_item. destruct (item_users it) as [|u0 us] eqn:U.
  { intros H. injection H as H. subst it'. repeat split; auto. congruence. }
  destruct (votes g it) as [|v vs].
  { intros H. injection H as H. subst it'. cbn. repeat split; eauto. }
  destruct (mapM snd (v :: vs)) as [ws|]; [|discriminate].
  intros H. injection H as H. subst it'. cbn. repeat split; eauto.
Qed.

Lemma evaluate_item_total g it :
  rep_set g -> is_Some (evaluate_item g it).
Proof.
  intros Hrep. unfold evaluate_item.
  destruct (item_users it); [eauto|].
  pose proof (votes_weights g it Hrep) as Hw.
  destruct (votes g it) as [|v vs]; [eauto|].
  apply mapM_is_Some_2 in Hw. destruct Hw as [ws ->]. cbn. eauto.
Qed.

Lemma evaluate_items_spec g :
  rep_set g ->
  exists g1,
    evaluate_items g = Some g1 /\ users g1 = users g /\
    R_max g1 = R_max g /\ v_G g1 = v_G g /\ alpha g1 = alpha g /\
    forall s, get_item g1 s = get_item g s ≫= evaluate_item g.
Proof.
  intros Hrep. unfold evaluate_items.
  destruct (mapM (evaluate_item g) (items g)) as [items'|] eqn:E.
  - eexists. split; [reflexivity|]. cbn. repeat split.
    intros s. unfold get_item. cbn [items].
    apply find_item_mapM with (f := evaluate_item g); [|exact E].
    intros x y H. now apply evaluate_item_shape in H.
  - exfalso. apply mapM_None_1, Exists_exists in E as (it & _ & E).
    destruct (evaluate_item_total g it Hrep) as [it' H]. congruence.
Qed.




(** *** Incentive weights and final grades *)


(** With [N = 0] the incentive weights raise as soon as there is a
    user. *)
Lemma calculate_incentive_weights_zero g :
  N g = 0%nat -> users g <> [] -> calculate_incentive_weights g = None.
Proof.
  intros HN Hne. unfold calculate_incentive_weights. rewrite HN.
  destruct (users g) as [|u us]; [contradiction|]. reflexivity.
Qed.

(** The constructor succeeds exactly when [v_G] is not zero. *)
Lemma graph_of_Some Rm vG al Nn bp reviews :
  vG <> 0 ->
  graph_of Rm vG al Nn bp reviews
  = Some (add_reviews reviews (mkGraph Rm vG al Nn bp [] [])).
Proof.
  intros HV. unfold graph_of, new_graph.
  destruct (Req_EM_T vG 0); [contradiction|reflexivity].
Qed.

Lemma graph_of_zero Rm al Nn bp reviews : graph_of Rm 0 al Nn bp reviews = None.
Proof.
  unfold graph_of, new_graph. destruct (Req_EM_T 0 0); [reflexivity|contradiction].
Qed.



Lemma final_grade_of_total g u : gradable g u -> is_Some (final_grade_of g u).
Proof.
  intros ([th Hth] & [r Hr] & Hv). unfold final_grade_of.
  destruct (get_item g (name u)) as [it|] eqn:E; [|eauto].
  destruct (item_grade it) as [q|] eqn:Q; [|eauto].
  rewrite Hth, Hr. cbn. destruct Hv as [[v ->]|Hv]; [cbn; eauto|].
  rewrite (Hv it eq_refl) in Q. discriminate.
Qed.

(** What an entry of [final_grades] holds. *)
Lemma final_grade_of_entry g u s info :
  final_grade_of g u = Some (Some (s, info)) ->
  s = name u /\
  (exists it, get_item g s = Some it /\ item_grade it = Some (consensus_score info)) /\
  incentive_weight u = Some (fg_incentive_weight info) /\
  reputation u = Some (fg_reputation info) /\
  weighted_grade info
  = (1 - alpha g) * consensus_score info
    + alpha g * fg_incentive_weight info * 100 /\
  final_grade info = pymax (consensus_score info) (weighted_grade info) /\
  protection_used info
  = eqb (final_grade info) (consensus_score info) &&
    ltb (weighted_grade info) (consensus_score info).
Proof.
  unfold final_grade_of.
  destruct (get_item g (name u)) as [it|] eqn:E; [|discriminate].
  destruct (item_grade it) as [q|] eqn:Q; [|discriminate].
  destruct (incentive_weight u) as [th|]; [|discriminate].
  destruct (reputation u) as [r|]; [|discriminate].
  destruct (variance u) as [v|]; [|discriminate].
  cbn. intros H. injection H as <- <-. cbn. repeat split; eauto.
Qed.

Lemma calculate_final_grades_spec g :
  Forall (gradable g) (users g) ->
  exists fg,
    calculate_final_grades g = Some fg /\
    (forall s info, (s, info) ∈ fg ->
       exists u, u ∈ users g /\ final_grade_of g u = Some (Some (s, info))) /\
    (forall u it q, u ∈ users g -> get_item g (name u) = Some it ->
       item_grade it = Some q ->
       exists info, (name u, info) ∈ fg /\ consensus_score info = q).
Proof.
  intros Hall. unfold calculate_final_grades.
  destruct (mapM (final_grade_of g) (users g)) as [entries|] eqn:E.
  - eexists. split; [reflexivity|]. apply mapM_Some_1 in E. split.
    + intros s info Hin. apply list_elem_of_omap in Hin as (e & He & ->).
      apply list_elem_of_lookup in He as [k Hk].
      destruct (Forall2_lookup_r _ _ _ _ _ E Hk) as (u & Hu & Hf).
      exists u. split; [|assumption]. eapply list_elem_of_lookup_2, Hu.
    + intros u it q Hu Hit Hq. apply list_elem_of_lookup in Hu as [k Hk].
      destruct (Forall2_lookup_l _ _ _ _ _ E Hk) as (e & He & Hf).
      assert (He' := Hf). unfold final_grade_of in Hf. rewrite Hit, Hq in Hf.
      destruct (incentive_weight u) as [th|]; [|discriminate].
      destruct (reputation u) as [r|]; [|discriminate].
      destruct (variance u) as [v|]; [|discriminate].
      cbn in Hf. injection Hf as <-. eexists. split.
      * apply list_elem_of_omap. eexists. split; [|reflexivity].
        eapply list_elem_of_lookup_2, He.
      * reflexivity.
  - exfalso. apply mapM_None_1, Exists_exists in E as (u & Hu & E).
    destruct (final_grade_of_total g u) as [e He]; [|congruence].
    exact (proj1 (Forall_forall _ _) Hall u Hu).
Qed.

(** *** The whole run *)

Lemma evaluate_with_reputation_eq n g :
  evaluate_with_reputation n g
  = iterate n (with_initial_reputation g) ≫= fun g1 =>
      calculate_incentive_weights g1 ≫= calculate_final_grades.
Proof. reflexivity. Qed.






(** *** C1 *)



(** *** C8 *)



(** *** C2 *)



Lemma sum_cons x (l : list R) : sum (x :: l) = x + sum l.
Proof. reflexivity. Qed.











End ConsensusFacts.

(* ===================================================================== *)
(** ** Properties of the modes of the assignment engine *)
(* ===================================================================== *)

Module AssignerModesFacts.
Import Assigner AssignerSpec AssignerFacts AssignerModes AssignerModesSpec.

(** *** Rounds of the outer loops *)

Lemma iter_add_evaluator c ev e :
  Nat.iter c (add_evaluator ev) e
  = mk_entry (assigned_papers e) (evaluators e ++ replicate c ev).
Proof.
  induction c as [|c IH].
  - cbn. rewrite app_nil_r. now destruct e.
  - rewrite Nat.iter_succ, IH. unfold add_evaluator. cbn [assigned_papers evaluators].
    f_equal. rewrite <- app_assoc. f_equal.
    change [ev] with (replicate 1 ev).
    rewrite <- !replicate_add. f_equal. lia.
Qed.

Lemma lookup_record_round ev papers (a : gmap string entry) s :
  record_evaluator ev papers a !! s
  = (fun e => round_entry s e (ev, papers)) <$> a !! s.
Proof.
  unfold record_evaluator. rewrite lookup_add_evaluators.
  unfold round_entry. cbn [fst snd].
  destruct (decide (s = ev)) as [->|Hne].
  - rewrite lookup_alter_eq. destruct (a !! ev) as [e|]; [|reflexivity].
    cbn. now rewrite iter_add_evaluator.
  - rewrite lookup_alter_ne by congruence. destruct (a !! s) as [e|]; [|reflexivity].
    cbn. now rewrite iter_add_evaluator.
Qed.


Lemma rounds_cons r rs (a : gmap string entry) :
  rounds (r :: rs) a = rounds rs (record_evaluator r.1 r.2 a).
Proof. reflexivity. Qed.

Lemma lookup_rounds rs : forall (a : gmap string entry) s,
  rounds rs a !! s = (fun e => foldl (round_entry s) e rs) <$> a !! s.
Proof.
  induction rs as [|[ev p] rs IH]; intros a s.
  - cbn. now destruct (a !! s).
  - rewrite rounds_cons, IH, lookup_record_round.
    now destruct (a !! s).
Qed.

Lemma dom_rounds rs : forall (a : gmap string entry), dom (rounds rs a) = dom a.
Proof.
  induction rs as [|[ev p] rs IH]; intros a; [reflexivity|].
  rewrite rounds_cons, IH. cbn [fst snd].
  apply set_eq. intros x. rewrite !elem_of_dom, lookup_record_round.
  now rewrite fmap_is_Some.
Qed.

Lemma evaluators_rounds s rs : forall e,
  evaluators (foldl (round_entry s) e rs)
  = evaluators e ++ flat_map (fun r => replicate (length (filter (eq s) r.2)) r.1) rs.
Proof.
  induction rs as [|r rs IH]; intros e; cbn [foldl flat_map].
  - now rewrite app_nil_r.
  - rewrite IH. unfold round_entry. cbn [evaluators].
    rewrite <- app_assoc. f_equal.
    now destruct (decide (s = r.1)).
Qed.

Lemma papers_rounds_other s rs : forall e,
  s ∉ rs.*1 -> assigned_papers (foldl (round_entry s) e rs) = assigned_papers e.
Proof.
  induction rs as [|r rs IH]; intros e Hs; cbn [foldl]; [reflexivity|].
  rewrite fmap_cons, not_elem_of_cons in Hs. destruct Hs as [Hne Hs].
  rewrite IH by assumption. unfold round_entry. cbn [assigned_papers].
  destruct (decide (s = r.1)); [contradiction|reflexivity].
Qed.

Lemma papers_rounds s p rs : forall e,
  NoDup rs.*1 -> (s, p) ∈ rs ->
  assigned_papers (foldl (round_entry s) e rs) = p.
Proof.
  induction rs as [|r rs IH]; intros e Hnd Hin; [inversion Hin|].
  rewrite fmap_cons in Hnd. apply NoDup_cons in Hnd as [Hr Hnd].
  cbn [foldl]. apply elem_of_cons in Hin as [<-|Hin].
  - rewrite papers_rounds_other by assumption.
    unfold round_entry. cbn [fst snd assigned_papers].
    destruct (decide (s = s)); [reflexivity|contradiction].
  - now apply IH.
Qed.

Lemma elem_filter_eq (s : string) p :
  length (filter (eq s) p) <> 0 <-> s ∈ p.
Proof.
  induction p as [|x p IH].
  - cbn. split; [congruence|intros H; inversion H].
  - rewrite filter_cons. destruct (decide (s = x)) as [->|Hne].
    + cbn. split; [intros _; left|lia].
    + rewrite IH, elem_of_cons. tauto.
Qed.

Lemma elem_evaluators_rounds (s u : string) (rs : list (string * list string)) :
  u ∈ flat_map (fun r => replicate (length (filter (eq s) r.2)) r.1) rs
  <-> exists p, (u, p) ∈ rs /\ s ∈ p.
Proof.
  rewrite list_elem_of_In, in_flat_map. split.
  - intros ([ev p] & Hin & Hu). apply list_elem_of_In in Hin, Hu.
    cbn [fst snd] in Hu. apply elem_of_replicate in Hu as [-> Hc].
    exists p. split; [assumption|]. now apply elem_filter_eq.
  - intros (p & Hin & Hs). exists (u, p). split; [now apply list_elem_of_In|].
    apply list_elem_of_In. cbn [fst snd]. apply elem_of_replicate.
    split; [reflexivity|]. now apply elem_filter_eq.
Qed.

(** The store after the rounds [rs], started from the empty entries of
    [students]. *)
Lemma rounds_init students rs s :
  NoDup rs.*1 -> s ∈ students ->
  exists e,
    rounds rs (init_assignments students) !! s = Some e /\
    (forall p, (s, p) ∈ rs -> assigned_papers e = p) /\
    (s ∉ rs.*1 -> assigned_papers e = []) /\
    (forall u, u ∈ evaluators e <-> exists p, (u, p) ∈ rs /\ s ∈ p) /\
    length (evaluators e)
    = list_sum ((fun r => length (filter (eq s) r.2)) <$> rs).
Proof.
  intros Hnd Hs. rewrite lookup_rounds, lookup_init_assignments by assumption.
  eexists. split; [reflexivity|]. split; [|split; [|split]].
  - intros p Hp. now apply papers_rounds.
  - intros Hn. now rewrite papers_rounds_other.
  - intros u. rewrite evaluators_rounds. cbn [evaluators app].
    apply elem_evaluators_rounds.
  - rewrite evaluators_rounds. cbn [evaluators app]. clear.
    induction rs as [|r rs IH]; [reflexivity|].
    cbn [flat_map]. rewrite length_app, length_replicate, IH. reflexivity.
Qed.


(** *** The papers of one evaluator, in general *)

Lemma pos_inj i j1 j2 n :
  i < n -> j1 < n -> j2 < n -> (i + j1) mod n = (i + j2) mod n -> j1 = j2.
Proof. intros Hi H1 H2. ring_mod (i + j1) n; ring_mod (i + j2) n; lia. Qed.

Lemma pos_self i j n : i < n -> j < n -> (i + j) mod n = i <-> j = 0.
Proof. intros Hi Hj. ring_mod (i + j) n; lia. Qed.

Lemma pos_back i t j n :
  i < n -> t < n -> j < n -> (i + j) mod n = t <-> i = (t + n - j) mod n.
Proof. intros Hi Ht Hj. ring_mod (i + j) n; ring_mod (t + n - j) n; lia. Qed.

Lemma back_inj t j1 j2 n :
  t < n -> j1 < n -> j2 < n ->
  (t + n - j1) mod n = (t + n - j2) mod n -> j1 = j2.
Proof. intros Ht H1 H2. ring_mod (t + n - j1) n; ring_mod (t + n - j2) n; lia. Qed.

Lemma span_length sh n i s d : length (span sh n i s d) = d.
Proof. unfold span. now rewrite length_fmap, length_seq. Qed.

Lemma span_snoc sh n i s d :
  span sh n i s (S d) = span sh n i s d ++ [item sh ((i + (s + d)) mod n)].
Proof. unfold span. now rewrite seq_S, fmap_app. Qed.

Lemma span_ring sh n i d : span sh n i 1 d = ring sh n i d.
Proof. reflexivity. Qed.

Lemma elem_span sh n i s d x :
  x ∈ span sh n i s d
  <-> exists j, s <= j < s + d /\ x = item sh ((i + j) mod n).
Proof.
  unfold span. rewrite list_elem_of_fmap. split.
  - intros (j & -> & Hj). apply elem_of_seq in Hj. exists j. split; [lia|easy].
  - intros (j & Hj & ->). exists j. split; [easy|]. apply elem_of_seq. lia.
Qed.

Section Span.

Variables (sh : list string) (n s d : nat).
Hypothesis sh_NoDup : NoDup sh.
Hypothesis sh_length : n = length sh.
Hypothesis sd_le : s + d <= n.

Local Abbreviation back_span := (back_span sh n s d).

Lemma span_NoDup i : i < n -> NoDup (span sh n i s d).
Proof.
  intros Hi. unfold span.
  apply NoDup_fmap_2_strong; [|apply NoDup_seq].
  intros j1 j2 H1 H2 Heq. apply elem_of_seq in H1, H2. subst n.
  apply item_inj in Heq; try assumption; try (apply ring_pos_lt; lia).
  apply (pos_inj i j1 j2 (length sh)); lia.
Qed.

Lemma span_self i :
  i < n -> item sh i ∈ span sh n i s d <-> s = 0 /\ 0 < d.
Proof.
  intros Hi. rewrite elem_span. split.
  - intros (j & Hj & Heq). subst n.
    apply item_inj in Heq; try assumption; try (apply ring_pos_lt; lia).
    symmetry in Heq. apply pos_self in Heq; lia.
  - intros [-> Hd]. exists 0. split; [lia|].
    rewrite Nat.add_0_r, Nat.mod_small by lia. reflexivity.
Qed.

Lemma span_subset i x : 0 < n -> x ∈ span sh n i s d -> x ∈ sh.
Proof.
  intros Hn Hin. apply elem_span in Hin as (j & _ & ->). subst n.
  apply item_elem, ring_pos_lt, Hn.
Qed.


Lemma back_span_length t : length (back_span t) = d.
Proof. unfold back_span. now rewrite length_fmap, length_seq. Qed.

Lemma back_span_NoDup t : t < n -> NoDup (back_span t).
Proof.
  intros Ht. unfold back_span.
  apply NoDup_fmap_2_strong; [|apply NoDup_seq].
  intros j1 j2 H1 H2 Heq. apply elem_of_seq in H1, H2. subst n.
  apply item_inj in Heq; try assumption;
    try (apply Nat.mod_upper_bound; lia).
  apply (back_inj t j1 j2 (length sh)); lia.
Qed.

Lemma back_span_subset t x : 0 < n -> x ∈ back_span t -> x ∈ sh.
Proof.
  intros Hn Hs. unfold back_span in Hs.
  apply list_elem_of_fmap in Hs as (j & -> & _).
  apply item_elem. rewrite <- sh_length.
  apply Nat.mod_upper_bound. lia.
Qed.

Lemma elem_back_span t i :
  t < n -> i < n ->
  item sh i ∈ back_span t <-> item sh t ∈ span sh n i s d.
Proof.
  intros Ht Hi. unfold back_span. rewrite list_elem_of_fmap, elem_span.
  split.
  - intros (j & Heq & Hj). apply elem_of_seq in Hj. exists j. split; [lia|].
    subst n. apply item_inj in Heq; try assumption;
      try (apply Nat.mod_upper_bound; lia).
    f_equal. symmetry. apply pos_back; lia.
  - intros (j & Hj & Heq). exists j. split; [|apply elem_of_seq; lia].
    subst n. apply item_inj in Heq; try assumption;
      try (apply ring_pos_lt; lia).
    f_equal. apply pos_back; lia.
Qed.

(** Degrees in a dictionary whose entries hold these papers. *)
Section SpanDegrees.

Variables (a : gmap string entry) (students : list string).
Hypothesis a_papers :
  forall t, t < n ->
    exists e, a !! item sh t = Some e /\ assigned_papers e = span sh n t s d.
Hypothesis students_NoDup : NoDup students.
Hypothesis students_perm : sh ≡ₚ students.

Lemma reviews_span u i :
  u < n -> reviews a (item sh u) i = bool_decide (i ∈ span sh n u s d).
Proof.
  intros Hu. unfold reviews. destruct (a_papers u Hu) as (e & -> & ->).
  reflexivity.
Qed.

Lemma out_degree_span t : t < n -> out_degree a students (item sh t) = d.
Proof.
  intros Ht. unfold out_degree.
  rewrite <- (span_length sh n t s d). apply Permutation_length.
  apply NoDup_Permutation.
  - apply NoDup_filter, students_NoDup.
  - apply span_NoDup; assumption.
  - intros x. rewrite list_elem_of_filter, reviews_span by assumption.
    rewrite bool_decide_eq_true. split; [tauto|].
    intros Hx. split; [assumption|]. rewrite <- students_perm.
    apply (span_subset t); [lia|assumption].
Qed.

Lemma in_degree_span t : t < n -> in_degree a students (item sh t) = d.
Proof.
  intros Ht. unfold in_degree.
  rewrite <- (back_span_length t). apply Permutation_length.
  apply NoDup_Permutation.
  - apply NoDup_filter, students_NoDup.
  - apply back_span_NoDup, Ht.
  - intros x. rewrite list_elem_of_filter. split.
    + intros [Hr Hx]. rewrite <- students_perm in Hx.
      destruct (elem_item sh x Hx) as (i & Hi & <-).
      rewrite reviews_span in Hr by lia.
      apply bool_decide_eq_true in Hr.
      apply elem_back_span; [assumption|lia|assumption].
    + intros Hx. assert (Hsh : x ∈ sh).
      { apply (back_span_subset t); [lia|assumption]. }
      destruct (elem_item sh x Hsh) as (i & Hi & <-).
      split; [|now rewrite <- students_perm].
      rewrite reviews_span by lia. apply bool_decide_eq_true.
      apply elem_back_span; [assumption|lia|assumption].
Qed.

End SpanDegrees.

End Span.

(** The loop of one evaluator always ends within its fuel. *)
Lemma assign_loop_total sh n k allow i ev :
  forall fuel offset assigned,
    offset <= n -> n + 1 <= fuel + offset ->
    is_Some (assign_loop fuel sh n k allow i ev offset assigned).
Proof.
  induction fuel as [|fuel IH]; intros offset assigned Ho Hf; [lia|].
  cbn [assign_loop]. destruct (negb (length assigned <? k)); [eauto|].
  destruct (Nat.ltb_spec n (offset + 1)); [eauto|].
  apply IH; lia.
Qed.

(** Without self evaluation the loop collects the followers, and stops
    at the latest before it comes back to the evaluator. *)
Lemma assign_loop_others sh n k i :
  NoDup sh -> n = length sh -> i < n ->
  forall fuel c, c <= k -> c <= n - 1 -> n <= fuel + c ->
    assign_loop fuel sh n k false i (item sh i) (S c) (span sh n i 1 c)
    = Some (span sh n i 1 (Nat.min k (n - 1))).
Proof.
  intros Hnd Hn Hi. induction fuel as [|fuel IH]; intros c Hck Hcn Hf.
  - assert (n = c) by lia. lia.
  - cbn [assign_loop]. rewrite span_length.
    destruct (Nat.ltb_spec c k) as [Hlt|Hge]; cbn [negb].
    2:{ do 2 f_equal. lia. }
    destruct (Nat.eq_dec (S c) n) as [Hlast|Hnot].
    + replace ((i + S c) mod n) with i.
      2:{ rewrite Hlast. rewrite <- (Nat.mod_small i n) at 1 by lia.
          replace (i + n) with (i + 1 * n) by lia.
          now rewrite Nat.Div0.mod_add. }
      rewrite String.eqb_refl. cbn [orb negb].
      destruct (Nat.ltb_spec n (S c + 1)); [|lia]. do 2 f_equal. lia.
    + assert (Hne : String.eqb (item sh ((i + S c) mod n)) (item sh i) = false).
      { apply String.eqb_neq. intros Heq. subst n.
        apply item_inj in Heq; try assumption; try (apply ring_pos_lt; lia).
        apply pos_self in Heq; lia. }
      rewrite Hne. cbn [orb negb].
      replace (i + S c) with (i + (1 + c)) by lia. rewrite <- span_snoc.
      destruct (Nat.ltb_spec n (S c + 1)) as [Hbad|_]; [lia|].
      rewrite Nat.add_1_r. apply IH; lia.
Qed.

(** With self evaluation the loop starts with the evaluator and goes once
    round the ring, the evaluator included a second time, at most. *)
Lemma assign_loop_self sh n k i ev :
  forall fuel c, c <= k -> c <= n -> n + 1 <= fuel + c ->
    assign_loop fuel sh n k true i ev c (span sh n i 0 c)
    = Some (span sh n i 0 (Nat.min k (n + 1))).
Proof.
  induction fuel as [|fuel IH]; intros c Hck Hcn Hf; [lia|].
  cbn [assign_loop]. rewrite span_length.
  destruct (Nat.ltb_spec c k) as [Hlt|Hge]; cbn [negb orb].
  2:{ do 2 f_equal. lia. }
  change (i + c) with (i + (0 + c)). rewrite <- span_snoc.
  destruct (Nat.ltb_spec n (c + 1)) as [Hend|Hmore].
  - do 2 f_equal. lia.
  - rewrite Nat.add_1_r. apply IH; lia.
Qed.


Lemma papers_of_papers_at sh n k allow i :
  NoDup sh -> n = length sh -> i < n ->
  papers_of sh n k allow i (item sh i) = Some (papers_at sh n k allow i).
Proof.
  intros Hnd Hn Hi. unfold papers_of, papers_at. destruct allow.
  - apply (assign_loop_self sh n k i (item sh i) (S n) 0); lia.
  - apply (assign_loop_others sh n k i Hnd Hn Hi (S n) 0); lia.
Qed.


(** *** The outer loops as rounds *)


Lemma ring_rounds_cons sh n k allow m ev rest :
  ring_rounds sh n k allow m (ev :: rest)
  = (ev, papers_at sh n k allow m) :: ring_rounds sh n k allow (S m) rest.
Proof.
  unfold ring_rounds. rewrite imap_cons, Nat.add_0_r. f_equal.
  apply imap_ext. intros j x _. cbn. f_equal. f_equal. lia.
Qed.

Lemma ring_rounds_keys sh n k allow m rest :
  (ring_rounds sh n k allow m rest).*1 = rest.
Proof.
  revert m. induction rest as [|ev rest IH]; intros m; [reflexivity|].
  rewrite ring_rounds_cons, fmap_cons, IH. reflexivity.
Qed.

Lemma elem_ring_rounds sh n k allow rest x p : forall m,
  (x, p) ∈ ring_rounds sh n k allow m rest
  <-> exists j, rest !! j = Some x /\ p = papers_at sh n k allow (m + j).
Proof.
  induction rest as [|ev rest IH]; intros m.
  - split; [intros H; inversion H|intros (j & H & _); discriminate].
  - rewrite ring_rounds_cons, elem_of_cons, IH. split.
    + intros [[= -> ->]|(j & Hj & ->)].
      * exists 0. rewrite Nat.add_0_r. auto.
      * exists (S j). split; [assumption|]. f_equal. lia.
    + intros ([|j] & Hj & ->).
      * left. injection Hj as <-. now rewrite Nat.add_0_r.
      * right. exists j. split; [assumption|]. f_equal. lia.
Qed.

Lemma ring_loop_rounds sh n k allow :
  NoDup sh -> n = length sh ->
  forall rest m a,
    rest = drop m sh ->
    ring_loop sh n k allow m rest a
    = Some (rounds (ring_rounds sh n k allow m rest) a).
Proof.
  intros Hnd Hn. induction rest as [|ev rest IH]; intros m a Hrest; [reflexivity|].
  assert (L : sh !! m = Some ev).
  { rewrite <- (Nat.add_0_r m), <- lookup_drop, <- Hrest. reflexivity. }
  assert (Hm : m < n).
  { subst n. now apply lookup_lt_Some in L. }
  assert (Hev : ev = item sh m).
  { unfold item. now rewrite nth_lookup, L. }
  cbn [ring_loop]. rewrite ring_rounds_cons, rounds_cons. cbn [fst snd].
  rewrite Hev at 1. rewrite papers_of_papers_at by assumption.
  apply IH. replace (S m) with (m + 1) by lia.
  rewrite <- (drop_drop sh 1 m), <- Hrest. reflexivity.
Qed.

Section Random.

Context {rng : Type}.
Variable sample : rng -> list string -> nat -> list string * rng.

Local Abbreviation random_rounds := (random_rounds sample).

Lemma random_loop_rounds k allow students rest : forall st a,
  random_loop rng sample k allow students rest st a
  = rounds (random_rounds k allow students rest st) a.
Proof.
  induction rest as [|ev rest IH]; intros st a; [reflexivity|].
  cbn [random_loop random_rounds]. rewrite rounds_cons. cbn [fst snd].
  destruct (sample st _ _) as [p st']. apply IH.
Qed.

Lemma random_rounds_keys k allow students rest : forall st,
  (random_rounds k allow students rest st).*1 = rest.
Proof.
  induction rest as [|ev rest IH]; intros st; [reflexivity|].
  cbn [random_rounds]. rewrite fmap_cons, IH. reflexivity.
Qed.

Lemma elem_random_rounds k allow students rest x p : forall st,
  (x, p) ∈ random_rounds k allow students rest st ->
  x ∈ rest /\
  exists st',
    let available := if allow then students else remove x students in
    p = (sample st' available (Nat.min k (length available))).1.
Proof.
  induction rest as [|ev rest IH]; intros st H; [inversion H|].
  cbn [random_rounds] in H. apply elem_of_cons in H as [[= -> ->]|H].
  - split; [left|]. now exists st.
  - apply IH in H as [Hin Hst]. split; [now right|assumption].
Qed.

End Random.

Lemma mirrored_rounds students rs :
  NoDup rs.*1 -> rs.*1 ≡ₚ students ->
  mirrored (rounds rs (init_assignments students)) students.
Proof.
  intros Hnd Hperm s u Hs Hu.
  destruct (rounds_init students rs s Hnd Hs) as (es & Hes & _ & _ & Hev & _).
  destruct (rounds_init students rs u Hnd Hu) as (eu & Heu & Hpu & _).
  exists es, eu. split; [assumption|]. split; [assumption|].
  rewrite Hev. rewrite <- Hperm in Hu.
  apply list_elem_of_fmap in Hu as ([u' p] & -> & Hin). cbn [fst] in *.
  rewrite (Hpu p Hin). split.
  - intros (p' & Hin' & Hsp).
    assert (p' = p); [|now subst].
    clear -Hnd Hin Hin'. induction rs as [|r rs IH]; [inversion Hin|].
    rewrite fmap_cons in Hnd. apply NoDup_cons in Hnd as [Hr Hnd].
    apply elem_of_cons in Hin as [<-|Hin], Hin' as [E|Hin'].
    + congruence.
    + exfalso. apply Hr. apply list_elem_of_fmap. exists (u', p'). auto.
    + exfalso. apply Hr. subst r. apply list_elem_of_fmap. exists (u', p). auto.
    + auto.
  - intros Hsp. eauto.
Qed.


(** *** The perfect mode, for every configuration *)

Section Perfect.

Variable shuffle : option Z -> list string -> list string.
Variables (cfg : assignment_config) (students : list string).
Hypothesis students_NoDup : NoDup students.
Hypothesis students_shuffled : shuffle (random_seed cfg) students ≡ₚ students.

Let sh := shuffle (random_seed cfg) students.
Let n := length students.
Let k := assignments_per_student cfg.
Let allow := allow_self_evaluation cfg.
Let rs := ring_rounds sh n k allow 0 sh.

Lemma perfect_length : n = length sh.
Proof. symmetry. apply Permutation_length, students_shuffled. Qed.

Lemma perfect_NoDup : NoDup sh.
Proof. unfold sh. now rewrite students_shuffled. Qed.

Lemma perfect_rounds :
  _generate_perfect_balanced_assignments shuffle cfg students
  = Some (rounds rs (init_assignments students)).
Proof.
  unfold _generate_perfect_balanced_assignments.
  apply (ring_loop_rounds sh n k allow perfect_NoDup perfect_length sh 0).
  reflexivity.
Qed.

Lemma perfect_dom :
  dom (rounds rs (init_assignments students)) = list_to_set students.
Proof. rewrite dom_rounds. apply dom_init_assignments. Qed.

Lemma perfect_keys : rs.*1 = sh.
Proof. apply ring_rounds_keys. Qed.

Lemma perfect_entry t :
  t < n ->
  exists e,
    rounds rs (init_assignments students) !! item sh t = Some e /\
    assigned_papers e = papers_at sh n k allow t.
Proof.
  intros Ht. pose proof perfect_length as Hn.
  assert (Hin : item sh t ∈ students).
  { rewrite <- students_shuffled. apply item_elem. fold sh. lia. }
  destruct (rounds_init students rs (item sh t)) as (e & He & Hp & _).
  { rewrite perfect_keys. apply perfect_NoDup. }
  { assumption. }
  exists e. split; [assumption|]. apply Hp.
  apply elem_ring_rounds. exists t. split; [|reflexivity].
  unfold item. destruct (nth_lookup_or_length sh t "") as [L|]; [exact L|lia].
Qed.

Lemma perfect_mirrored :
  mirrored (rounds rs (init_assignments students)) students.
Proof.
  apply mirrored_rounds; rewrite perfect_keys.
  - apply perfect_NoDup.
  - apply students_shuffled.
Qed.

End Perfect.


(** *** The modes *)

Lemma generate_assignments_perfect shuffle rng seed sample mode cfg students st :
  mode <> "random" ->
  generate_assignments shuffle rng seed sample mode cfg students st
  = _generate_perfect_balanced_assignments shuffle cfg students.
Proof.
  intros Hmode. unfold generate_assignments, _generate_weighted_assignments.
  destruct (String.eqb mode "perfect"); [reflexivity|].
  apply String.eqb_neq in Hmode. rewrite Hmode.
  now destruct (String.eqb mode "weighted").
Qed.

Lemma feasible_bounds cfg students :
  validate_assignment_feasibility cfg students = true <->
  1 <= assignments_per_student cfg /\
  assignments_per_student cfg
  <= (if allow_self_evaluation cfg then length students else length students - 1).
Proof.
  unfold validate_assignment_feasibility.
  destruct (allow_self_evaluation cfg);
    repeat match goal with
           | |- context [Z.ltb ?a ?b] => destruct (Z.ltb_spec a b)
           | |- context [Z.leb ?a ?b] => destruct (Z.leb_spec a b)
           end; split; intros Hfeas; try discriminate; try reflexivity; lia.
Qed.

(** X1. When [validate_assignment_feasibility] accepts the configuration,
    every mode but [random] (the modes [perfect] and [weighted], and any
    unknown mode) returns, for a roster without repetition and whatever
    order the shuffle produced, an assignment over the roster in which
    every student reviews exactly [k] different papers and every paper
    has exactly [k] reviewers.  Nobody reviews their own paper when self
    evaluation is off; when it is on, everybody does, and it is the first
    paper of their list. *)
Theorem X1_feasible_assignments_balanced
    (shuffle : option Z -> list string -> list string)
    (rng : Type) (seed : Z -> rng)
    (sample : rng -> list string -> nat -> list string * rng)
    (mode : string) (cfg : assignment_config) (students : list string)
    (st : rng) :
  NoDup students ->
  shuffle (random_seed cfg) students ≡ₚ students ->
  validate_assignment_feasibility cfg students = true ->
  mode <> "random" ->
  exists a,
    generate_assignments shuffle rng seed sample mode cfg students st = Some a /\
    dom a = list_to_set students /\
    forall s, s ∈ students ->
      out_degree a students s = assignments_per_student cfg /\
      in_degree a students s = assignments_per_student cfg /\
      reviews a s s = allow_self_evaluation cfg /\
      exists e, a !! s = Some e /\
        length (assigned_papers e) = assignments_per_student cfg /\
        NoDup (assigned_papers e) /\
        (allow_self_evaluation cfg = true -> head (assigned_papers e) = Some s).
Proof.
  intros Hnd Hperm Hfeas Hmode. apply feasible_bounds in Hfeas as [Hk1 Hk2].
  rewrite generate_assignments_perfect by assumption.
  rewrite (perfect_rounds shuffle cfg students Hnd Hperm).
  eexists. split; [reflexivity|]. split; [apply perfect_dom|].
  set (sh := shuffle (random_seed cfg) students) in *.
  set (n := length students) in *.
  set (k := assignments_per_student cfg) in *.
  set (a := rounds _ _).
  pose proof (perfect_length shuffle cfg students Hperm) as Hn. fold sh n in Hn.
  pose proof (perfect_NoDup shuffle cfg students Hnd Hperm) as Hsh. fold sh in Hsh.
  set (s0 := if allow_self_evaluation cfg then 0 else 1).
  assert (Hsd : s0 + k <= n) by (unfold s0; destruct (allow_self_evaluation cfg); lia).
  assert (Hpapers : forall t, t < n ->
            exists e, a !! item sh t = Some e /\ assigned_papers e = span sh n t s0 k).
  { intros t Ht. destruct (perfect_entry shuffle cfg students Hnd Hperm t Ht)
      as (e & He & Hp).
    exists e. split; [exact He|]. rewrite Hp. unfold papers_at, s0. fold sh n k.
    destruct (allow_self_evaluation cfg); f_equal; lia. }
  intros s Hs. rewrite <- Hperm in Hs. fold sh in Hs.
  destruct (elem_item sh s Hs) as (t & Ht & <-). rewrite <- Hn in Ht.
  split; [|split; [|split]].
  - exact (out_degree_span sh n s0 k Hsh Hn Hsd a students Hpapers Hnd Hperm t Ht).
  - exact (in_degree_span sh n s0 k Hsh Hn Hsd a students Hpapers Hnd Hperm t Ht).
  - rewrite (reviews_span sh n s0 k a Hpapers t _ Ht).
    destruct (allow_self_evaluation cfg) eqn:A.
    + apply bool_decide_eq_true. apply span_self; try assumption. subst s0. lia.
    + apply bool_decide_eq_false. intros Hin.
      apply span_self in Hin; try assumption. subst s0. lia.
  - destruct (Hpapers t Ht) as (e & He & Hp). exists e.
    split; [exact He|]. rewrite Hp. split; [apply span_length|].
    split; [now apply span_NoDup|].
    intros A. unfold s0. rewrite A. unfold span.
    destruct k as [|k']; [lia|]. cbn [seq fmap list_fmap head].
    rewrite Nat.add_0_r, Nat.mod_small by lia. reflexivity.
Qed.



Lemma submseteq_NoDup (l k : list string) : l ⊆+ k -> NoDup k -> NoDup l.
Proof.
  intros Hsub Hnd. apply submseteq_Permutation in Hsub as (k' & Hk).
  rewrite Hk in Hnd. now apply NoDup_app in Hnd as [? _].
Qed.

Lemma elem_remove x s (l : list string) :
  NoDup l -> x ∈ remove s l <-> x ∈ l /\ x <> s.
Proof.
  induction 1 as [|y l Hy Hnd IH]; cbn [remove].
  - split; [intros H; inversion H|intros [H _]; inversion H].
  - destruct (String.eqb_spec y s) as [->|Hne].
    + rewrite elem_of_cons. split.
      * intros Hx. split; [now right|]. intros ->. contradiction.
      * intros [[->|Hx] Hxs]; [contradiction|assumption].
    + rewrite !elem_of_cons, IH. split.
      * intros [->|[Hx Hxs]]; split; auto.
      * intros [[->|Hx] Hxs]; auto.
Qed.

Lemma NoDup_remove s (l : list string) : NoDup l -> NoDup (remove s l).
Proof.
  induction 1 as [|y l Hy Hnd IH]; cbn [remove]; [constructor|].
  destruct (String.eqb y s); [assumption|].
  constructor; [|assumption]. rewrite elem_remove by assumption. tauto.
Qed.

Lemma length_remove s (l : list string) :
  s ∈ l -> length (remove s l) = length l - 1.
Proof.
  induction l as [|y l IH]; intros Hs; [inversion Hs|]. cbn [remove].
  destruct (String.eqb_spec y s) as [->|Hne]; [cbn; lia|].
  apply elem_of_cons in Hs as [->|Hs]; [contradiction|].
  cbn [length]. rewrite IH by assumption.
  destruct l; [inversion Hs|cbn; lia].
Qed.

Lemma out_degree_papers (a : gmap string entry) students s e :
  NoDup students -> a !! s = Some e ->
  NoDup (assigned_papers e) ->
  (forall x, x ∈ assigned_papers e -> x ∈ students) ->
  out_degree a students s = length (assigned_papers e).
Proof.
  intros Hnd He Hp Hsub. unfold out_degree. apply Permutation_length.
  apply NoDup_Permutation; [now apply NoDup_filter|assumption|].
  intros x. rewrite list_elem_of_filter. unfold reviews. rewrite He.
  rewrite bool_decide_eq_true. split; [tauto|auto].
Qed.

Lemma random_mode_spec (rng : Type) (seed : Z -> rng)
    (sample : rng -> list string -> nat -> list string * rng)
    (cfg : assignment_config) (students : list string) (st : rng) :
  NoDup students -> sample_contract sample ->
  let a := _generate_random_assignments rng seed sample cfg students st in
  dom a = list_to_set students /\
  mirrored a students /\
  forall s, s ∈ students ->
    exists e, a !! s = Some e /\
      length (assigned_papers e)
      = Nat.min (assignments_per_student cfg)
          (if allow_self_evaluation cfg then length students
           else length students - 1) /\
      NoDup (assigned_papers e) /\
      (forall x, x ∈ assigned_papers e -> x ∈ students) /\
      (allow_self_evaluation cfg = false -> s ∉ assigned_papers e) /\
      out_degree a students s = length (assigned_papers e).
Proof.
  intros Hnd Hsample a. unfold _generate_random_assignments in a.
  set (st0 := match random_seed cfg with Some z => seed z | None => st end) in a.
  set (k := assignments_per_student cfg) in *.
  set (allow := allow_self_evaluation cfg) in *.
  unfold a. rewrite random_loop_rounds.
  set (rs := random_rounds sample k allow students students st0).
  assert (Hkeys : rs.*1 = students) by apply random_rounds_keys.
  assert (Hndk : NoDup rs.*1) by now rewrite Hkeys.
  split; [rewrite dom_rounds; apply dom_init_assignments|].
  split; [apply mirrored_rounds; [assumption|now rewrite Hkeys]|].
  intros s Hs.
  destruct (rounds_init students rs s Hndk Hs) as (e & He & Hp & _).
  exists e. split; [exact He|].
  assert (Hin : s ∈ rs.*1) by now rewrite Hkeys.
  apply list_elem_of_fmap in Hin as ([s' p] & -> & Hin). cbn [fst] in *.
  assert (Hpe := Hp p Hin). rewrite Hpe.
  apply elem_random_rounds in Hin as (_ & st' & Hst). cbn zeta in Hst.
  set (available := if allow then students else remove s' students) in Hst.
  destruct (Hsample st' available (Nat.min k (length available))) as [Hlen Hsub];
    [lia|]. rewrite <- Hst in Hlen, Hsub.
  assert (Hav : NoDup available).
  { unfold available. destruct allow; [assumption|now apply NoDup_remove]. }
  assert (Hpnd : NoDup p) by exact (submseteq_NoDup _ _ Hsub Hav).
  assert (Hps : forall x, x ∈ p -> x ∈ students).
  { intros x Hx. apply (elem_of_submseteq _ _ _ Hx) in Hsub.
    unfold available in Hsub. destruct allow; [assumption|].
    now apply elem_remove in Hsub as [? _]. }
  split.
  { rewrite Hlen. unfold available. destruct allow; [reflexivity|].
    now rewrite length_remove. }
  split; [assumption|]. split; [assumption|]. split.
  { intros A Hx. apply (elem_of_submseteq _ _ _ Hx) in Hsub.
    unfold available in Hsub. rewrite A in Hsub.
    apply elem_remove in Hsub as [_ Hne]; [contradiction|assumption]. }
  rewrite <- Hpe. apply out_degree_papers; rewrite ?Hpe; assumption.
Qed.

(** X2. The random mode, for a non-empty roster without repetition and
    a sampler that keeps the contract of [random.sample]: every student
    gets [min(k, n - 1)] papers ([min(k, n)] when self evaluation is
    allowed), all different, all of the roster, and not their own unless
    self evaluation is allowed; the [evaluators] lists mirror the
    [assigned_papers] lists. *)
Theorem X2_random_assignments (rng : Type) (seed : Z -> rng)
    (sample : rng -> list string -> nat -> list string * rng)
    (cfg : assignment_config) (students : list string) (st : rng) :
  NoDup students -> students <> [] -> sample_contract sample ->
  let a := _generate_random_assignments rng seed sample cfg students st in
  dom a = list_to_set students /\
  mirrored a students /\
  forall s, s ∈ students ->
    exists e, a !! s = Some e /\
      length (assigned_papers e)
      = Nat.min (assignments_per_student cfg)
          (if allow_self_evaluation cfg then length students
           else length students - 1) /\
      NoDup (assigned_papers e) /\
      (forall x, x ∈ assigned_papers e -> x ∈ students) /\
      (allow_self_evaluation cfg = false -> s ∉ assigned_papers e) /\
      out_degree a students s = length (assigned_papers e).
Proof. intros Hnd _. now apply random_mode_spec. Qed.


Lemma pos_reach t t' n :
  t < n -> t' < n -> t <> t' ->
  exists j, 1 <= j < n /\ (t + j) mod n = t'.
Proof.
  intros Ht Ht' Hne. exists ((t' + n - t) mod n).
  ring_mod (t' + n - t) n.
  - split; [lia|]. replace (t + (t' + n - t)) with (t' + 1 * n) by lia.
    rewrite Nat.Div0.mod_add. apply Nat.mod_small. lia.
  - split; [lia|]. replace (t + (t' + n - t - n)) with t' by lia.
    apply Nat.mod_small. lia.
Qed.

(** X3. Without self evaluation the loop of an evaluator gives up when it
    is back at the evaluator: asked for [k >= n - 1] papers per student, the
    perfect mode returns, without any error, the assignment in which
    everyone reviews everyone else exactly once, so that every student has
    [n - 1] papers and [n - 1] reviewers, whatever [k] is. *)
Theorem X3_perfect_mode_capped
    (shuffle : option Z -> list string -> list string)
    (cfg : assignment_config) (students : list string) :
  NoDup students -> students <> [] ->
  shuffle (random_seed cfg) students ≡ₚ students ->
  allow_self_evaluation cfg = false ->
  length students - 1 <= assignments_per_student cfg ->
  exists a,
    _generate_perfect_balanced_assignments shuffle cfg students = Some a /\
    dom a = list_to_set students /\
    forall s, s ∈ students ->
      (forall u, u ∈ students -> reviews a s u = true <-> s <> u) /\
      out_degree a students s = length students - 1 /\
      in_degree a students s = length students - 1 /\
      exists e, a !! s = Some e /\
        length (assigned_papers e) = length students - 1.
Proof.
  intros Hnd Hne Hperm Hself Hk.
  rewrite (perfect_rounds shuffle cfg students Hnd Hperm).
  eexists. split; [reflexivity|]. split; [apply perfect_dom|].
  set (sh := shuffle (random_seed cfg) students) in *.
  set (n := length students) in *.
  set (k := assignments_per_student cfg) in *.
  set (a := rounds _ _).
  pose proof (perfect_length shuffle cfg students Hperm) as Hn. fold sh n in Hn.
  pose proof (perfect_NoDup shuffle cfg students Hnd Hperm) as Hsh. fold sh in Hsh.
  assert (Hn1 : 1 <= n) by (unfold n; destruct students; [contradiction|cbn; lia]).
  assert (Hsd : 1 + (n - 1) <= n) by lia.
  assert (Hpapers : forall t, t < n ->
            exists e, a !! item sh t = Some e /\
                      assigned_papers e = span sh n t 1 (n - 1)).
  { intros t Ht. destruct (perfect_entry shuffle cfg students Hnd Hperm t Ht)
      as (e & He & Hp).
    exists e. split; [exact He|]. rewrite Hp. unfold papers_at. rewrite Hself.
    fold sh n k. f_equal. lia. }
  intros s Hs. rewrite <- Hperm in Hs. fold sh in Hs.
  destruct (elem_item sh s Hs) as (t & Ht & <-). rewrite <- Hn in Ht.
  split; [|split; [|split]].
  - intros u Hu. rewrite <- Hperm in Hu. fold sh in Hu.
    destruct (elem_item sh u Hu) as (t' & Ht' & <-). rewrite <- Hn in Ht'.
    rewrite (reviews_span sh n 1 (n - 1) a Hpapers t _ Ht).
    rewrite bool_decide_eq_true, elem_span. split.
    + intros (j & Hj & Heq) Hst.
      assert (Hlt : (t + j) mod n < length sh)
        by (rewrite <- Hn; apply ring_pos_lt; lia).
      apply (item_inj sh _ _ Hsh) in Heq; [|lia|exact Hlt].
      apply (item_inj sh _ _ Hsh) in Hst; [|lia|lia].
      rewrite <- Hst in Heq. symmetry in Heq. apply pos_self in Heq; lia.
    + intros Hst. assert (Htt : t <> t') by congruence.
      destruct (pos_reach t t' n Ht Ht' Htt) as (j & Hj & Heq).
      exists j. split; [lia|]. now rewrite Heq.
  - exact (out_degree_span sh n 1 (n - 1) Hsh Hn Hsd a students Hpapers Hnd Hperm t Ht).
  - exact (in_degree_span sh n 1 (n - 1) Hsh Hn Hsd a students Hpapers Hnd Hperm t Ht).
  - destruct (Hpapers t Ht) as (e & He & Hp). exists e.
    split; [exact He|]. rewrite Hp. apply span_length.
Qed.

(** X4. With self evaluation allowed the same loop goes once round the
    ring and one step further: asked for more papers than there are
    students (of a non-empty roster without repetition), the perfect mode
    gives every student [n + 1] papers, their own paper being the first
    and also the last of the list. *)
Theorem X4_perfect_mode_own_paper_twice
    (shuffle : option Z -> list string -> list string)
    (cfg : assignment_config) (students : list string) :
  NoDup students -> students <> [] ->
  shuffle (random_seed cfg) students ≡ₚ students ->
  allow_self_evaluation cfg = true ->
  length students < assignments_per_student cfg ->
  exists a,
    _generate_perfect_balanced_assignments shuffle cfg students = Some a /\
    forall s, s ∈ students ->
      exists e, a !! s = Some e /\
        length (assigned_papers e) = length students + 1 /\
        head (assigned_papers e) = Some s /\
        last (assigned_papers e) = Some s.
Proof.
  intros Hnd _ Hperm Hself Hk.
  rewrite (perfect_rounds shuffle cfg students Hnd Hperm).
  eexists. split; [reflexivity|].
  set (sh := shuffle (random_seed cfg) students) in *.
  set (n := length students) in *.
  set (k := assignments_per_student cfg) in *.
  pose proof (perfect_length shuffle cfg students Hperm) as Hn. fold sh n in Hn.
  intros s Hs. rewrite <- Hperm in Hs. fold sh in Hs.
  destruct (elem_item sh s Hs) as (t & Ht & <-). rewrite <- Hn in Ht.
  destruct (perfect_entry shuffle cfg students Hnd Hperm t Ht) as (e & He & Hp).
  exists e. split; [exact He|]. rewrite Hp. unfold papers_at.
  rewrite Hself. fold sh n k.
  replace (Nat.min k (n + 1)) with (S n) by lia.
  split; [rewrite span_length; lia|]. split.
  - unfold span. cbn [seq fmap list_fmap head].
    rewrite Nat.add_0_r, Nat.mod_small by lia. reflexivity.
  - rewrite span_snoc, last_snoc. cbn [Nat.add]. do 2 f_equal.
    replace (t + n) with (t + 1 * n) by lia.
    rewrite Nat.Div0.mod_add. apply Nat.mod_small. lia.
Qed.

(** X5. Whatever the mode and the configuration, for a non-empty roster
    without repetition the dictionary returned has one entry per student and its
    two lists mirror each other: [u] is among the [evaluators] of [s]
    exactly when the paper of [s] is among the [assigned_papers] of
    [u]. *)
Theorem X5_generate_assignments_mirrored
    (shuffle : option Z -> list string -> list string)
    (rng : Type) (seed : Z -> rng)
    (sample : rng -> list string -> nat -> list string * rng)
    (mode : string) (cfg : assignment_config) (students : list string)
    (st : rng) :
  NoDup students -> students <> [] ->
  shuffle (random_seed cfg) students ≡ₚ students ->
  sample_contract sample ->
  exists a,
    generate_assignments shuffle rng seed sample mode cfg students st = Some a /\
    dom a = list_to_set students /\
    mirrored a students.
Proof.
  intros Hnd _ Hperm Hsample.
  destruct (String.eqb_spec mode "random") as [->|Hmode].
  - unfold generate_assignments. cbn [String.eqb Ascii.eqb Bool.eqb].
    eexists. split; [reflexivity|].
    destruct (random_mode_spec rng seed sample cfg students st Hnd Hsample)
      as (Hdom & Hmir & _).
    split; assumption.
  - rewrite generate_assignments_perfect by assumption.
    rewrite (perfect_rounds shuffle cfg students Hnd Hperm).
    eexists. split; [reflexivity|]. split; [apply perfect_dom|].
    now apply perfect_mirrored.
Qed.

Lemma take_sample_contract : sample_contract take_sample.
Proof.
  intros st population k Hk. cbn. split; [rewrite length_take; lia|].
  apply sublist_submseteq, sublist_take.
Qed.

Lemma X1_feasible_assignments_balanced_witness :
  exists a,
    generate_assignments PyRandom.shuffle unit (fun _ => tt) take_sample
      "weighted" config_E1 roster_E1 tt = Some a /\
    dom a = list_to_set roster_E1 /\
    forall s, s ∈ roster_E1 ->
      out_degree a roster_E1 s = 2 /\
      in_degree a roster_E1 s = 2 /\
      reviews a s s = false /\
      exists e, a !! s = Some e /\
        length (assigned_papers e) = 2 /\
        NoDup (assigned_papers e) /\
        (false = true -> head (assigned_papers e) = Some s).
Proof.
  apply (X1_feasible_assignments_balanced PyRandom.shuffle unit (fun _ => tt)
           take_sample "weighted" config_E1 roster_E1 tt).
  - apply (bool_decide_unpack (NoDup roster_E1)). vm_compute. exact I.
  - apply shuffle_perm.
  - reflexivity.
  - discriminate.
Defined.

Lemma X2_random_assignments_witness :
  let a := _generate_random_assignments unit (fun _ => tt) take_sample
             config_E1 roster_E1 tt in
  dom a = list_to_set roster_E1 /\
  mirrored a roster_E1 /\
  forall s, s ∈ roster_E1 ->
    exists e, a !! s = Some e /\
      length (assigned_papers e) = 2 /\
      NoDup (assigned_papers e) /\
      (forall x, x ∈ assigned_papers e -> x ∈ roster_E1) /\
      (false = false -> s ∉ assigned_papers e) /\
      out_degree a roster_E1 s = length (assigned_papers e).
Proof.
  apply (X2_random_assignments unit (fun _ => tt) take_sample config_E1 roster_E1 tt).
  - apply (bool_decide_unpack (NoDup roster_E1)). vm_compute. exact I.
  - discriminate.
  - apply take_sample_contract.
Defined.

Lemma X3_perfect_mode_capped_witness :
  exists a,
    _generate_perfect_balanced_assignments PyRandom.shuffle
      (mk_config 7 false (Some 0%Z)) roster_E1 = Some a /\
    dom a = list_to_set roster_E1 /\
    forall s, s ∈ roster_E1 ->
      (forall u, u ∈ roster_E1 -> reviews a s u = true <-> s <> u) /\
      out_degree a roster_E1 s = 4 /\
      in_degree a roster_E1 s = 4 /\
      exists e, a !! s = Some e /\ length (assigned_papers e) = 4.
Proof.
  apply (X3_perfect_mode_capped PyRandom.shuffle (mk_config 7 false (Some 0%Z))
           roster_E1).
  - apply (bool_decide_unpack (NoDup roster_E1)). vm_compute. exact I.
  - discriminate.
  - apply shuffle_perm.
  - reflexivity.
  - simpl. lia.
Defined.

Lemma X4_perfect_mode_own_paper_twice_witness :
  exists a,
    _generate_perfect_balanced_assignments PyRandom.shuffle
      (mk_config 7 true (Some 0%Z)) roster_E1 = Some a /\
    forall s, s ∈ roster_E1 ->
      exists e, a !! s = Some e /\
        length (assigned_papers e) = 6 /\
        head (assigned_papers e) = Some s /\
        last (assigned_papers e) = Some s.
Proof.
  apply (X4_perfect_mode_own_paper_twice PyRandom.shuffle
           (mk_config 7 true (Some 0%Z)) roster_E1).
  - apply (bool_decide_unpack (NoDup roster_E1)). vm_compute. exact I.
  - discriminate.
  - apply shuffle_perm.
  - reflexivity.
  - simpl. lia.
Defined.

Lemma X5_generate_assignments_mirrored_witness :
  exists a,
    generate_assignments PyRandom.shuffle unit (fun _ => tt) take_sample
      "random" config_E1 roster_E1 tt = Some a /\
    dom a = list_to_set roster_E1 /\
    mirrored a roster_E1.
Proof.
  apply (X5_generate_assignments_mirrored PyRandom.shuffle unit (fun _ => tt)
           take_sample "random" config_E1 roster_E1 tt).
  - apply (bool_decide_unpack (NoDup roster_E1)). vm_compute. exact I.
  - discriminate.
  - apply shuffle_perm.
  - apply take_sample_contract.
Defined.

End AssignerModesFacts.

(* ===================================================================== *)
(** ** Properties of the token table *)
(* ===================================================================== *)

Module TokenFacts.
Import Py Store StoreSpec StoreFacts TokenSpec.

(** X6. [validate_token] only reads the store.  It answers [True] exactly
    when the token is stored, not used, in status [pending] and the
    current instant is not after [expires_at] (the instant [expires_at]
    itself is still accepted); it returns the stored row whenever there is
    one, and an empty message exactly when the answer is [True]. *)
Theorem X6_validate_token_verdict now token s :
  exists valid msg,
    validate_token now token s = (Ok (valid, tokens s !! token, msg), s) /\
    (valid = true <-> exists r, tokens s !! token = Some r /\ usable now r) /\
    (valid = true <-> msg = "").
Proof.
  unfold validate_token, bind, get_token_info, try_except, get_connection, ret, usable.
  destruct (tokens s !! token) as [r|] eqn:E.
  - destruct (tk_is_used r) eqn:U.
    { eexists _, _. split; [reflexivity|]. split; split; try discriminate.
      intros (r' & [= <-] & H & _). congruence. }
    destruct (String.eqb_spec (tk_status r) "pending") as [P|P]; cbn [negb].
    + destruct (Z.ltb_spec (tk_expires_at r) now).
      * eexists _, _. split; [reflexivity|]. split; split; try discriminate.
        intros (r' & [= <-] & _ & _ & H'). lia.
      * eexists _, _. split; [reflexivity|]. split; split; try reflexivity.
        intros _. exists r. auto.
    + eexists _, _. split; [reflexivity|]. split; split; try discriminate.
      intros (r' & [= <-] & _ & H' & _). contradiction.
  - eexists _, _. split; [reflexivity|]. split; split; try discriminate.
    intros (r' & [=] & _).
Qed.

(** X7. [save_token] never raises.  On a token string that is not stored
    it returns [True] and stores one row with the given columns, the
    defaults [created_at = now], [status = 'pending'], [is_used = 0] for
    the missing ones and no usage data; [get_token_info] then returns this
    row, [validate_token] accepts it until [expires_at] when it was saved
    pending and unused, and nothing else in the store changes.  On a
    token string that is already stored it returns [False] and leaves the
    store as it was. *)
Theorem X7_save_token_round_trip now t s :
  match tokens s !! td_token t with
  | None =>
      exists d,
        save_token now t s = (Ok true, d) /\
        get_token_info (td_token t) d = (Ok (Some (row_of now t)), d) /\
        (forall k, k <> td_token t -> tokens d !! k = tokens s !! k) /\
        submissions d = submissions s /\ logs d = logs s /\
        (forall now',
           (td_used t = None \/ td_used t = Some false) ->
           (td_status t = None \/ td_status t = Some "pending") ->
           (now' <= td_expires_at t)%Z ->
           validate_token now' (td_token t) d
           = (Ok (true, Some (row_of now t), ""), d))
  | Some _ => save_token now t s = (Ok false, s)
  end.
Proof.
  rewrite save_token_eq. destruct (tokens s !! td_token t) as [r|] eqn:E;
    [reflexivity|].
  fold (row_of now t). set (row := row_of now t).
  eexists. split; [reflexivity|].
  unfold get_token_info, try_except, get_connection. cbn [tokens submissions logs].
  rewrite lookup_insert_eq. split; [reflexivity|].
  split; [intros k Hk; now rewrite lookup_insert_ne|].
  split; [reflexivity|]. split; [reflexivity|].
  intros now' Hu Hs He.
  unfold validate_token, bind, get_token_info, try_except, get_connection, ret.
  cbn [tokens]. rewrite lookup_insert_eq.
  assert (Hu' : tk_is_used row = false) by (cbn; destruct Hu as [-> | ->]; reflexivity).
  assert (Hs' : tk_status row = "pending") by (cbn; destruct Hs as [-> | ->]; reflexivity).
  rewrite Hu', Hs'. cbn [String.eqb Ascii.eqb Bool.eqb negb].
  change (tk_expires_at row) with (td_expires_at t).
  destruct (Z.ltb_spec (td_expires_at t) now'); [lia|reflexivity].
Qed.

End TokenFacts.

(* ===================================================================== *)
(** ** Properties of the form page and of sequences of requests *)
(* ===================================================================== *)

Module ViewFacts.
Import Py Store Web View StoreFacts WebSpec WebFacts TrafficSpec.

Lemma evaluation_form_eq strip cfg fs now req s :
  evaluation_form strip cfg fs now req s =
  match args_token req with
  | None => (Ok (mk_view MissingToken 400), s)
  | Some token =>
      if String.eqb token "" then (Ok (mk_view MissingToken 400), s)
      else
        match tokens s !! token with
        | None =>
            (Ok (mk_view (ErrorPage "Token 無效" "Token 不存在" (SERVER_URL cfg)) 403), s)
        | Some info =>
            if tk_is_used info
            then (Ok (mk_view (AlreadySubmitted (tk_used_at info) (SERVER_URL cfg)) 200), s)
            else if negb (String.eqb (tk_status info) "pending")
            then (Ok (mk_view (ErrorPage "Token 無效"
                                 (String.append "Token 狀態異常: " (tk_status info))
                                 (SERVER_URL cfg)) 403), s)
            else if (tk_expires_at info <? now)%Z
            then (Ok (mk_view (ErrorPage "Token 無效" "Token 已過期" (SERVER_URL cfg)) 403), s)
            else
              match questions_loop strip (load_questions fs)
                      (load_student_answers fs (tk_target_id info))
                      (tk_questions info) [] with
              | None =>
                  (Ok (mk_view
                         (ErrorPage "系統錯誤" "載入評分表單時發生錯誤，請聯繫助教"
                            (SERVER_URL cfg)) 500), s)
              | Some qs =>
                  (Ok (mk_view
                         (EvaluationForm token (tk_evaluator_name info)
                            (tk_target_id info) qs (EVALUATION_DEADLINE cfg)) 200),
                   mk_db (tokens s) (submissions s)
                     (logs s ++
                        [mk_log_row (next_id (lg_id <$> logs s)) (Some token)
                           "view" ViewForm (view_remote_addr req)
                           (view_user_agent req) now]))
              end
        end
  end.
Proof.
  unfold evaluation_form. destruct (args_token req) as [token|]; [|reflexivity].
  destruct (String.eqb token ""); [reflexivity|].
  unfold try_except, bind at 1, validate_token, bind at 1, get_token_info,
    try_except, get_connection, ret.
  destruct (tokens s !! token) as [info|]; [|reflexivity].
  destruct (tk_is_used info) eqn:U; [cbn; now rewrite U|].
  destruct (negb (String.eqb (tk_status info) "pending")); [cbn; now rewrite U|].
  destruct (tk_expires_at info <? now)%Z; [cbn; now rewrite U|].
  cbn [negb]. cbv beta iota. rewrite U.
  destruct (questions_loop _ _ _ _ _) as [qs|]; [|reflexivity].
  unfold bind. rewrite log_action_eq. reflexivity.
Qed.


(** *** What a submission does to the store *)

Lemma Forall2_persisted_token now req token info l rows :
  Forall2 (persisted now req token info) l rows ->
  Forall (fun row => sb_token row = token) rows.
Proof.
  induction 1 as [|x row l rows Hp _ IH]; constructor; [|exact IH].
  exact (proj1 (proj2 Hp)).
Qed.

Lemma submit_effect now req s :
  exists resp d rows lrows,
    submit_evaluation now req s = (Ok resp, d) /\
    submissions d = submissions s ++ rows /\
    logs d = logs s ++ lrows /\
    ((d = s /\ rows = [] /\ (status resp = 400 \/ status resp = 403))
     \/ (exists token subs info,
           get_json req = Form (Some token) subs /\ token <> "" /\
           tokens s !! token = Some info /\ pending_at now info /\
           Forall (fun row => sb_token row = token) rows /\
           ((status resp = 200 /\
             tokens d = <[token := marked now req info]> (tokens s))
            \/ (status resp = 500 /\ tokens d = tokens s)))).
Proof.
  destruct (submit_cases now req s)
    as [(resp & Hrun & Hst)|(token & subs & info & Hjson & Htok & Htr & Hlook & Hpend)].
  { exists resp, s, [], []. rewrite !app_nil_r. split; [exact Hrun|].
    split; [reflexivity|]. split; [reflexivity|]. left. auto. }
  unfold submit_evaluation. rewrite Hjson. cbn [no_token].
  pose proof Htok as Htok'.
  apply String.eqb_neq in Htok. rewrite Htok, Htr. cbn [negb orb].
  change (default "" (Some token)) with token.
  unfold try_except, bind at 1.
  rewrite (validate_token_pending now token info s Hlook Hpend). cbn [negb].
  pose proof Hpend as (Hused & _). rewrite Hused.
  unfold bind at 1, lift. destruct (iterate subs) as [l|e].
  - unfold bind at 1.
    destruct (save_loop_spec now req token info l [] s)
      as (r & d1 & rows & Hrun & Ht & Hl & Hs & Hrows & Hend).
    rewrite Hrun. apply Forall2_persisted_token in Hrows.
    destruct Hend as [[Hr (ids' & -> & Hlen)]|[Hr (e & ->)]].
    + unfold bind at 1. rewrite mark_token_used_eq, Ht, Hlook.
      unfold bind, ret. rewrite log_action_eq. cbn [tokens submissions logs].
      eexists _, _, rows, [_]. split; [reflexivity|]. cbn [tokens submissions logs].
      split; [assumption|]. split; [now rewrite Hl|]. right.
      exists token, subs, info. split; [reflexivity|]. do 4 (split; [assumption|]).
      left. split; reflexivity.
    + unfold bind, ret. rewrite log_action_eq. cbn [tokens submissions logs].
      eexists _, _, rows, [_]. split; [reflexivity|]. cbn [tokens submissions logs status].
      split; [assumption|]. split; [now rewrite Hl|]. right.
      exists token, subs, info. split; [reflexivity|]. do 4 (split; [assumption|]).
      right. split; [reflexivity|assumption].
  - unfold bind, ret. rewrite log_action_eq.
    eexists _, _, [], [_]. split; [reflexivity|]. cbn [tokens submissions logs status].
    rewrite app_nil_r. split; [reflexivity|]. split; [reflexivity|]. right.
    exists token, subs, info. split; [reflexivity|]. do 3 (split; [assumption|]).
    split; [constructor|]. right. split; reflexivity.
Qed.


(** *** Sequences of requests *)

Lemma evaluation_form_keeps strip cfg fs now req s :
  exists resp d lrows,
    evaluation_form strip cfg fs now req s = (Ok resp, d) /\
    tokens d = tokens s /\ submissions d = submissions s /\
    logs d = logs s ++ lrows.
Proof.
  rewrite evaluation_form_eq.
  destruct (args_token req) as [token|].
  2:{ eexists _, _, []. rewrite app_nil_r. repeat split. }
  destruct (String.eqb token "").
  { eexists _, _, []. rewrite app_nil_r. repeat split. }
  destruct (tokens s !! token) as [info|].
  2:{ eexists _, _, []. rewrite app_nil_r. repeat split. }
  destruct (tk_is_used info).
  { eexists _, _, []. rewrite app_nil_r. repeat split. }
  destruct (negb (String.eqb (tk_status info) "pending")).
  { eexists _, _, []. rewrite app_nil_r. repeat split. }
  destruct (tk_expires_at info <? now)%Z.
  { eexists _, _, []. rewrite app_nil_r. repeat split. }
  destruct (questions_loop _ _ _ _ _) as [qs|].
  - eexists _, _, [_]. repeat split.
  - eexists _, _, []. rewrite app_nil_r. repeat split.
Qed.

Section Traffic.

Variable strip : string -> string.

Lemma pending_not_used now info r :
  pending_at now info -> tk_is_used r = true -> info <> r.
Proof. intros (Hu & _) Hr ->. congruence. Qed.

(** A used token is out of reach of every event. *)
Lemma step_used s e t r :
  tokens s !! t = Some r -> tk_is_used r = true ->
  tokens (step strip s e) !! t = Some r /\
  rows_of t (step strip s e) = rows_of t s /\
  accepts t e s = false.
Proof.
  intros Hlook Hused. destruct e as [now req|cfg fs now req|now ts]; cbn [step accepts].
  - destruct (submit_effect now req s)
      as (resp & d & rows & lrows & Hrun & Hs & _ & Hcase).
    rewrite Hrun. cbn [snd].
    destruct Hcase as [(-> & _ & Hst)|(token & subs & info & Hjson & _ & Hl & Hp & Hrows & Hend)].
    + split; [assumption|]. split; [reflexivity|].
      destruct (get_json req) as [|[t'|] ?]; try reflexivity.
      apply andb_false_iff. right. apply Nat.eqb_neq. lia.
    + assert (Hne : token <> t).
      { intros ->. rewrite Hlook in Hl. injection Hl as <-.
        now apply (pending_not_used now r r). }
      split; [|split].
      * destruct Hend as [[_ ->]|[_ ->]]; [|assumption].
        now rewrite lookup_insert_ne.
      * unfold rows_of. rewrite Hs, filter_app.
        rewrite <- (app_nil_r (filter _ (submissions s))) at 2. f_equal.
        clear Hs. induction Hrows as [|row rows Hrow _ IH]; [reflexivity|].
        rewrite filter_cons. destruct (decide (sb_token row = t)); [congruence|exact IH].
      * rewrite Hjson. apply String.eqb_neq in Hne. now rewrite Hne.
  - destruct (evaluation_form_keeps strip cfg fs now req s)
      as (resp & d & lrows & Hrun & Ht & Hs & _).
    rewrite Hrun. cbn [snd]. unfold rows_of. rewrite Ht, Hs. auto.
  - destruct (save_tokens_loop_spec now ts s 0 0)
      as (succ & fail & d & Hrun & _ & Hs & _ & Hkeep & _).
    unfold save_tokens_batch. rewrite Hrun. cbn [snd]. unfold rows_of.
    rewrite Hs. auto.
Qed.


Lemma run_used es : forall s t r,
  tokens s !! t = Some r -> tk_is_used r = true ->
  tokens (run strip es s) !! t = Some r /\
  rows_of t (run strip es s) = rows_of t s /\
  acceptances strip t es s = 0.
Proof.
  induction es as [|e es IH]; intros s t r Hl Hu; [auto|].
  destruct (step_used s e t r Hl Hu) as (Hl1 & Hr1 & Ha1).
  destruct (IH (step strip s e) t r Hl1 Hu) as (Hl2 & Hr2 & Ha2).
  cbn [acceptances]. unfold run in *. cbn [foldl].
  rewrite Ha1, Ha2, Hr2, Hr1. auto.
Qed.


Lemma same_assignment_refl r : same_assignment r r.
Proof. repeat split. Qed.

Lemma step_append_only s e :
  submissions s `prefix_of` submissions (step strip s e) /\
  logs s `prefix_of` logs (step strip s e) /\
  forall t r, tokens s !! t = Some r ->
    exists r', tokens (step strip s e) !! t = Some r' /\ same_assignment r r'.
Proof.
  destruct e as [now req|cfg fs now req|now ts]; cbn [step].
  - destruct (submit_effect now req s)
      as (resp & d & rows & lrows & Hrun & Hs & Hl & Hcase).
    rewrite Hrun. cbn [snd]. split; [now exists rows|]. split; [now exists lrows|].
    intros t r Hlook.
    destruct Hcase as [(-> & _)|(token & subs & info & _ & _ & Hi & _ & _ & Hend)].
    { exists r. split; [assumption|apply same_assignment_refl]. }
    destruct Hend as [[_ ->]|[_ ->]].
    + destruct (decide (t = token)) as [->|Hne].
      * rewrite lookup_insert_eq. eexists. split; [reflexivity|].
        rewrite Hlook in Hi. injection Hi as <-. repeat split.
      * rewrite lookup_insert_ne by congruence.
        exists r. split; [assumption|apply same_assignment_refl].
    + exists r. split; [assumption|apply same_assignment_refl].
  - destruct (evaluation_form_keeps strip cfg fs now req s)
      as (resp & d & lrows & Hrun & Ht & Hs & Hl).
    rewrite Hrun. cbn [snd]. rewrite Ht, Hs, Hl.
    split; [reflexivity|]. split; [now exists lrows|].
    intros t r Hlook. exists r. split; [assumption|apply same_assignment_refl].
  - destruct (save_tokens_loop_spec now ts s 0 0)
      as (succ & fail & d & Hrun & _ & Hs & Hl & Hkeep & _).
    unfold save_tokens_batch. rewrite Hrun. cbn [snd]. rewrite Hs, Hl.
    split; [reflexivity|]. split; [reflexivity|].
    intros t r Hlook. exists r. split; [auto|apply same_assignment_refl].
Qed.

(** X8. Whatever requests and token imports follow one another, the
    tables [submissions] and [submission_logs] only grow at their end, no
    token row disappears, and the columns of a token row that say who
    reviews whom, on which questions and until when, keep the values they
    were stored with. *)
Theorem X8_store_append_only es s :
  submissions s `prefix_of` submissions (run strip es s) /\
  logs s `prefix_of` logs (run strip es s) /\
  forall t r, tokens s !! t = Some r ->
    exists r', tokens (run strip es s) !! t = Some r' /\ same_assignment r r'.
Proof.
  revert s. induction es as [|e es IH]; intros s.
  - split; [reflexivity|]. split; [reflexivity|].
    intros t r H. exists r. split; [assumption|apply same_assignment_refl].
  - destruct (step_append_only s e) as (Hs1 & Hl1 & Ht1).
    destruct (IH (step strip s e)) as (Hs2 & Hl2 & Ht2).
    unfold run in *. cbn [foldl].
    split; [etrans; eassumption|]. split; [etrans; eassumption|].
    intros t r Hlook. destruct (Ht1 t r Hlook) as (r1 & Hl1' & Hsame1).
    destruct (Ht2 t r1 Hl1') as (r2 & Hl2' & Hsame2).
    exists r2. split; [assumption|].
    unfold same_assignment in *. intuition congruence.
Qed.

(** X9. A used token is out of reach of the server: in any sequence of
    requests and token imports its row stays exactly as it is (so
    [used_at], the address and the agent recorded with the submission are
    never overwritten), no row carrying this token is added to
    [submissions], and no submission for it is answered 200. *)
Theorem X9_used_token_frozen es s t r :
  tokens s !! t = Some r -> tk_is_used r = true ->
  tokens (run strip es s) !! t = Some r /\
  rows_of t (run strip es s) = rows_of t s /\
  acceptances strip t es s = 0.
Proof. apply run_used. Qed.



End Traffic.


(** *** The form page *)

(** X12. The form page never raises and never writes to [tokens] or
    [submissions].  It serves the form only for a stored token that is
    unused, pending and not expired, with the evaluator name and the
    target of that token, and then logs exactly one [view] row; every
    other answer leaves the store as it was. *)
Theorem X12_evaluation_form_outcome strip cfg fs now req s :
  exists resp d,
    evaluation_form strip cfg fs now req s = (Ok resp, d) /\
    tokens d = tokens s /\ submissions d = submissions s /\
    match page_of resp with
    | EvaluationForm token evaluator_name target_id qs deadline =>
        view_status resp = 200 /\ args_token req = Some token /\
        deadline = EVALUATION_DEADLINE cfg /\
        (exists info,
           tokens s !! token = Some info /\ pending_at now info /\
           evaluator_name = tk_evaluator_name info /\
           target_id = tk_target_id info /\
           questions_loop strip (load_questions fs)
             (load_student_answers fs target_id) (tk_questions info) []
           = Some qs) /\
        logs d = logs s ++
                 [mk_log_row (next_id (lg_id <$> logs s)) (Some token) "view"
                    ViewForm (view_remote_addr req) (view_user_agent req) now]
    | _ => d = s
    end.
Proof.
  rewrite evaluation_form_eq.
  destruct (args_token req) as [token|]; [|eexists _, _; repeat split].
  destruct (String.eqb token ""); [eexists _, _; repeat split|].
  destruct (tokens s !! token) as [info|] eqn:L; [|eexists _, _; repeat split].
  destruct (tk_is_used info) eqn:U; [eexists _, _; repeat split|].
  destruct (String.eqb_spec (tk_status info) "pending") as [P|P]; cbn [negb];
    [|eexists _, _; repeat split].
  destruct (Z.ltb_spec (tk_expires_at info) now) as [E|E];
    [eexists _, _; repeat split|].
  destruct (questions_loop _ _ _ _ _) as [qs|] eqn:Q;
    [|eexists _, _; repeat split].
  eexists _, _. split; [reflexivity|]. cbn [tokens submissions logs page_of view_status].
  split; [reflexivity|]. split; [reflexivity|]. split; [reflexivity|].
  split; [reflexivity|]. split; [reflexivity|]. split; [|reflexivity].
  exists info. repeat split; assumption.
Qed.

Lemma dict_get_put key v m : dict_get key (dict_put key v m) = Some v.
Proof.
  induction m as [|[k v0] m IH]; cbn.
  - now rewrite String.eqb_refl.
  - destruct (String.eqb k key) eqn:E; cbn; now rewrite E.
Qed.

Lemma dict_get_put_ne key key' v m :
  key <> key' -> dict_get key (dict_put key' v m) = dict_get key m.
Proof.
  intros Hne. induction m as [|[k v0] m IH]; cbn.
  - apply String.eqb_neq in Hne. rewrite String.eqb_sym in Hne. now rewrite Hne.
  - destruct (String.eqb_spec k key') as [->|Hk]; cbn.
    + apply String.eqb_neq in Hne. rewrite String.eqb_sym in Hne. now rewrite Hne.
    + destruct (String.eqb k key); [reflexivity|exact IH].
Qed.


Lemma question_with_answer_shown strip qd ta qid :
  match question_with_answer strip qd ta qid with
  | Some (Some q) => contains qid qd = Some true /\ shown qd ta qid q
  | Some None => contains qid qd = Some false
  | None => True
  end.
Proof.
  unfold question_with_answer.
  destruct (contains qid qd) as [[|]|] eqn:C; cbn [mbind option_bind]; [|reflexivity|exact I].
  destruct qd as [| | | | | |m]; try exact I.
  destruct (dict_get qid m) as [[| | | | | |question]|] eqn:G; try exact I.
  destruct ta as [| | | | | |tam]; try exact I.
  destruct (default (JDict []) (dict_get qid tam)) as [| | | | | |answer]; try exact I.
  destruct (default (JStr "") (dict_get "text" answer)) as [| | | |text| |]; try exact I.
  split; [reflexivity|].
  eexists question, _, _. split; [eauto|]. split; [reflexivity|].
  split.
  { rewrite !dict_get_put_ne by discriminate. apply dict_get_put. }
  split.
  { rewrite !dict_get_put_ne by discriminate. apply dict_get_put. }
  split.
  { destruct (String.eqb_spec (strip text) ""); [discriminate|assumption]. }
  split.
  { rewrite dict_get_put_ne by discriminate. rewrite dict_get_put. eauto. }
  split.
  { rewrite dict_get_put. eauto. }
  intros key H1 H2 H3 H4. now rewrite !dict_get_put_ne.
Qed.

Lemma questions_loop_shown strip qd ta ids :
  forall acc qs,
    questions_loop strip qd ta ids acc = Some qs ->
    exists new,
      qs = acc ++ new /\
      Forall2 (shown qd ta)
        (filter (fun qid => contains qid qd = Some true) ids) new.
Proof.
  induction ids as [|qid ids IH]; intros acc qs H; cbn [questions_loop] in H.
  - injection H as <-. exists []. rewrite app_nil_r. split; [reflexivity|constructor].
  - pose proof (question_with_answer_shown strip qd ta qid) as Hq.
    destruct (question_with_answer strip qd ta qid) as [[q|]|]; [| |discriminate];
      cbn [mbind option_bind] in H; apply IH in H as (new & -> & Hnew);
      rewrite filter_cons.
    + destruct Hq as [Hc Hs]. exists (q :: new).
      split; [now rewrite <- app_assoc|].
      destruct (decide (contains qid qd = Some true)); [|contradiction].
      now constructor.
    + exists new. split; [reflexivity|].
      destruct (decide (contains qid qd = Some true)); [congruence|assumption].
Qed.

(** X13. The questions of a served form are the questions of the token
    that the questions file lists, in the order of the token; each one is
    the entry of the file with its [id] replaced by the question id of
    the token, and with the answer of the target added: the text shown is
    never empty (a blank answer is replaced by a notice), and the members
    [answer_word_count] and [answer_is_empty] are always present. *)
Theorem X13_form_questions strip qd ta ids qs :
  questions_loop strip qd ta ids [] = Some qs ->
  Forall2 (shown qd ta) (filter (fun qid => contains qid qd = Some true) ids) qs.
Proof.
  intros H. apply questions_loop_shown in H as (new & -> & H). exact H.
Qed.


(** *** The ids of the rows *)


Lemma next_id_gt ids i : i ∈ ids -> i < next_id ids.
Proof.
  unfold next_id. induction ids as [|j ids IH]; intros H; [inversion H|].
  cbn [foldr]. apply elem_of_cons in H as [->|H]; [lia|].
  specialize (IH H). lia.
Qed.

Lemma numbered_fresh old new :
  numbered old new ->
  (forall i j, i ∈ old -> j ∈ new -> i < j) /\ StronglySorted lt new.
Proof.
  revert old. induction new as [|x new IH]; intros old H.
  - split; [intros i j _ Hj; inversion Hj|constructor].
  - destruct H as [-> H]. destruct (IH _ H) as [Hlt Hs]. split.
    + intros i j Hi Hj. apply elem_of_cons in Hj as [->|Hj].
      * now apply next_id_gt.
      * apply Hlt; [|assumption]. apply elem_of_app. now left.
    + constructor; [assumption|]. apply Forall_forall. intros j Hj.
      apply Hlt; [|assumption]. apply elem_of_app. right. now left.
Qed.

Lemma save_loop_ids now req token ev tg l :
  forall ids s ids' d,
    save_loop now req token ev tg l ids s = (Ok ids', d) ->
    exists new rows,
      ids' = ids ++ new /\ length new = length l /\
      submissions d = submissions s ++ rows /\
      omap (fun i => i) new = sb_id <$> rows /\
      numbered (sb_id <$> submissions s) (sb_id <$> rows).
Proof.
  induction l as [|sub l IH]; intros ids s ids' d H.
  - injection H as <- <-. exists [], []. rewrite !app_nil_r. repeat split.
  - rewrite save_loop_cons in H. destruct (fate_of sub) as [q sc c| |e].
    + apply IH in H as (new & rows & -> & Hlen & Hs & Hids & Hnum).
      cbn [submissions] in Hs, Hnum.
      eexists (Some _ :: new), (_ :: rows).
      split; [now rewrite <- app_assoc|]. split; [cbn; lia|].
      split; [rewrite Hs, <- app_assoc; reflexivity|].
      split; [cbn; now rewrite Hids|].
      cbn [numbered fmap list_fmap sb_id]. split; [reflexivity|].
      rewrite fmap_app in Hnum. exact Hnum.
    + apply IH in H as (new & rows & -> & Hlen & Hs & Hids & Hnum).
      exists (None :: new), rows.
      split; [now rewrite <- app_assoc|]. split; [cbn; lia|].
      split; [assumption|]. split; assumption.
    + discriminate.
Qed.

(** X14. The ids a successful submission answers are those of the rows it
    stored, in the order of the entries ([null] for an entry whose insert
    failed, one per entry of the list); every new id is larger than every
    id already in the table and than the ids before it in the answer. *)
Theorem X14_submission_ids_fresh now req s ids st d :
  submit_evaluation now req s = (Ok (mk_response (Success ids) st), d) ->
  exists rows,
    submissions d = submissions s ++ rows /\
    omap (fun i => i) ids = sb_id <$> rows /\
    (forall l tok, get_json req = Form tok (JList l) -> length ids = length l) /\
    (forall i j, i ∈ sb_id <$> submissions s -> j ∈ sb_id <$> rows -> i < j) /\
    StronglySorted lt (sb_id <$> rows).
Proof.
  unfold submit_evaluation. destruct (get_json req) as [|token subs]; [discriminate|].
  destruct (no_token token || negb (truthy subs)); [discriminate|].
  unfold try_except, bind at 1.
  destruct (validate_token_cases now (default "" token) s)
    as (valid & info & msg & -> & _ & _).
  destruct valid; cbn [negb]; [|discriminate].
  destruct info as [info|].
  2:{ unfold raise, bind, ret. rewrite log_action_eq. discriminate. }
  destruct (tk_is_used info); [discriminate|].
  unfold bind at 1, lift. destruct (iterate subs) as [l|e] eqn:I.
  2:{ unfold bind, ret. rewrite log_action_eq. discriminate. }
  unfold bind at 1.
  destruct (save_loop now req (default "" token) (tk_evaluator_id info)
              (tk_target_id info) l [] s) as [[ids'|e] d1] eqn:Hloop.
  2:{ unfold bind, ret. rewrite log_action_eq. discriminate. }
  apply save_loop_ids in Hloop as (new & rows & -> & Hlen & Hs & Hids & Hnum).
  unfold bind at 1. rewrite mark_token_used_eq.
  destruct (tokens d1 !! default "" token);
    unfold bind, ret; rewrite log_action_eq; intros H; injection H as <- _ <-;
    cbn [submissions app]; exists rows;
    (split; [assumption|]); (split; [assumption|]);
    (split; [intros l' tok E; injection E as _ ->; cbn in I; injection I as <-; exact Hlen|]);
    apply numbered_fresh, Hnum.
Qed.

(** *** The theorems on the requests of the scenarios *)

Lemma X9_used_token_frozen_witness :
  tokens (run (fun x => x) traffic_E StoreSpec.used_db) !! "t" = Some StoreSpec.used_token /\
  rows_of "t" (run (fun x => x) traffic_E StoreSpec.used_db) = rows_of "t" StoreSpec.used_db /\
  acceptances (fun x => x) "t" traffic_E StoreSpec.used_db = 0.
Proof.
  apply (X9_used_token_frozen (fun x => x) traffic_E StoreSpec.used_db "t" StoreSpec.used_token);
    reflexivity.
Defined.


Lemma X13_form_questions_witness :
  exists qs,
    questions_loop (fun x => x) (load_questions files_E)
      (load_student_answers files_E "B") ["Q1"; "Q2"] [] = Some qs /\
    Forall2 (shown (load_questions files_E) (load_student_answers files_E "B"))
      (filter (fun qid => contains qid (load_questions files_E) = Some true)
         ["Q1"; "Q2"]) qs.
Proof.
  eexists. split; [reflexivity|].
  apply (X13_form_questions (fun x => x)). reflexivity.
Defined.

Lemma X14_submission_ids_fresh_witness :
  let d := (submit_evaluation 5%Z post_null_score pending_db).2 in
  submit_evaluation 5%Z post_null_score pending_db
  = (Ok (mk_response (Success [Some 1; None]) 200), d) /\
  exists rows,
    submissions d = submissions pending_db ++ rows /\
    omap (fun i => i) [Some 1; None] = sb_id <$> rows /\
    (forall l tok, get_json post_null_score = Form tok (JList l) ->
       length [Some 1; None] = length l) /\
    (forall i j, i ∈ sb_id <$> submissions pending_db -> j ∈ sb_id <$> rows ->
       i < j) /\
    StronglySorted lt (sb_id <$> rows).
Proof.
  assert (Hrun : submit_evaluation 5%Z post_null_score pending_db
                 = (Ok (mk_response (Success [Some 1; None]) 200),
                    (submit_evaluation 5%Z post_null_score pending_db).2))
    by (vm_compute; reflexivity).
  split; [exact Hrun|].
  exact (X14_submission_ids_fresh 5%Z post_null_score pending_db _ _ _ Hrun).
Defined.

End ViewFacts.

(* ===================================================================== *)
(** ** Properties of a whole run of the consensus *)
(* ===================================================================== *)

Module RunFacts.
Import Consensus ConsensusSpec ConsensusFacts RunSpec.

Local Open Scope R_scope.

(** *** Graphs built from reviews *)

Lemma dict_get_set i x d j :
  dict_get j (dict_set i x d)
  = if String.eqb i j then Some x else dict_get j d.
Proof.
  induction d as [|[k v] d IH]; cbn [dict_set dict_get].
  - destruct (String.eqb i j); reflexivity.
  - destruct (String.eqb_spec k i) as [->|Hki]; cbn [dict_get].
    + destruct (String.eqb i j); reflexivity.
    + rewrite IH. destruct (String.eqb_spec k j) as [->|Hkj]; [|reflexivity].
      destruct (String.eqb_spec i j); [congruence|reflexivity].
Qed.

Lemma find_user_fmap (f : User -> User) l s :
  (forall x, name (f x) = name x) ->
  List.find (fun u => String.eqb (name u) s) (f <$> l)
  = f <$> List.find (fun u => String.eqb (name u) s) l.
Proof.
  intros Hid. induction l as [|x l IH]; [reflexivity|].
  cbn. rewrite Hid. destruct (String.eqb (name x) s); [reflexivity|exact IH].
Qed.

Lemma find_user_app l1 l2 s :
  List.find (fun u => String.eqb (name u) s) (l1 ++ l2)
  = match List.find (fun u => String.eqb (name u) s) l1 with
    | Some x => Some x
    | None => List.find (fun u => String.eqb (name u) s) l2
    end.
Proof.
  induction l1 as [|x l1 IH]; [reflexivity|].
  cbn. destruct (String.eqb (name x) s); [reflexivity|exact IH].
Qed.

Lemma get_user_add_review u i x g v :
  get_user (add_review u i x g) v
  = if String.eqb u v
    then Some (add_item i x
                 (default (mkUser u [] [] None None None) (get_user g u)))
    else get_user g v.
Proof.
  unfold get_user at 1, add_review. cbn [users]. unfold update_user.
  rewrite find_user_fmap by (intros y; now destruct (String.eqb (name y) u)).
  destruct (get_user g u) as [u0|] eqn:E.
  - fold (get_user g v). destruct (String.eqb_spec u v) as [->|Hne].
    + rewrite E. cbn. rewrite (proj1 (get_user_name g v u0 E)), String.eqb_refl.
      reflexivity.
    + destruct (get_user g v) as [w|] eqn:Ev; [|reflexivity].
      cbn. rewrite (proj1 (get_user_name g v w Ev)).
      destruct (String.eqb_spec v u); [congruence|reflexivity].
  - rewrite find_user_app. fold (get_user g v). cbn [List.find name].
    destruct (String.eqb_spec u v) as [->|Hne].
    + rewrite E. cbn. rewrite String.eqb_refl. reflexivity.
    + destruct (get_user g v) as [w|] eqn:Ev; [|reflexivity].
      cbn. rewrite (proj1 (get_user_name g v w Ev)).
      destruct (String.eqb_spec v u); [congruence|reflexivity].
Qed.

Lemma elem_users_add_review u i x g w :
  w ∈ users (add_review u i x g) ->
  (w ∈ users g /\ name w <> u)
  \/ exists w0, w = add_item i x w0 /\ name w0 = u /\
                (w0 ∈ users g \/ w0 = mkUser u [] [] None None None).
Proof.
  unfold add_review. cbn [users]. unfold update_user. intros H.
  apply list_elem_of_fmap in H as (w0 & -> & Hin).
  assert (Hin' : w0 ∈ users g \/ w0 = mkUser u [] [] None None None).
  { destruct (get_user g u); [now left|].
    apply elem_of_app in Hin as [H|H]; [now left|].
    apply list_elem_of_singleton in H. now right. }
  destruct (String.eqb_spec (name w0) u) as [Hn|Hn].
  - right. exists w0. auto.
  - left. destruct Hin' as [H| ->]; [auto|]. cbn in Hn. contradiction.
Qed.

Lemma elem_items_add_review u i x g it :
  it ∈ items (add_review u i x g) ->
  (it ∈ items g /\ id it <> i)
  \/ exists it0, it = add_user u it0 /\ id it0 = i /\
                 (it0 ∈ items g \/ it0 = mkItem i [] None None).
Proof.
  unfold add_review. cbn [items]. unfold update_item. intros H.
  apply list_elem_of_fmap in H as (it0 & -> & Hin).
  assert (Hin' : it0 ∈ items g \/ it0 = mkItem i [] None None).
  { destruct (get_item g i); [now left|].
    apply elem_of_app in Hin as [H|H]; [now left|].
    apply list_elem_of_singleton in H. now right. }
  destruct (String.eqb_spec (id it0) i) as [Hn|Hn].
  - right. exists it0. auto.
  - left. destruct Hin' as [H| ->]; [auto|]. cbn in Hn. contradiction.
Qed.

Lemma elem_set_add x y (s : list string) :
  y ∈ set_add x s -> y = x \/ y ∈ s.
Proof.
  unfold set_add. destruct (bool_decide (x ∈ s)).
  - now right.
  - rewrite elem_of_app, list_elem_of_singleton. tauto.
Qed.

Lemma backed_add_review reviews u i x g :
  backed reviews g -> (u, i, x) ∈ reviews ->
  backed reviews (add_review u i x g).
Proof.
  intros Hb Hin w j y Hw Hy.
  apply elem_users_add_review in Hw as [[Hw _]|(w0 & -> & Hn & Hw0)].
  - now apply Hb.
  - cbn [add_item name user_grade] in *. rewrite dict_get_set in Hy.
    rewrite Hn. destruct (String.eqb_spec i j) as [->|Hij].
    + injection Hy as <-. assumption.
    + destruct Hw0 as [Hw0| ->]; [|discriminate].
      rewrite <- Hn. now apply Hb.
Qed.

Lemma linked_add_review u i x g :
  linked g -> linked (add_review u i x g).
Proof.
  intros Hl it un Hit Hun. rewrite get_user_add_review.
  apply elem_items_add_review in Hit as [[Hit Hid]|(it0 & -> & Hid & Hit0)].
  - destruct (Hl it un Hit Hun) as (w & Hw & Hg).
    destruct (String.eqb_spec u un) as [->|Hne].
    + eexists. split; [reflexivity|]. rewrite Hw. cbn.
      rewrite dict_get_set. destruct (String.eqb_spec i (id it)); [congruence|].
      exact Hg.
    + eauto.
  - cbn [add_user id item_users] in *. rewrite Hid.
    apply elem_set_add in Hun as [->|Hun].
    + rewrite String.eqb_refl. eexists. split; [reflexivity|].
      cbn. rewrite dict_get_set, String.eqb_refl. eauto.
    + destruct Hit0 as [Hit0| ->]; [|inversion Hun].
      destruct (Hl it0 un Hit0 Hun) as (w & Hw & Hg). rewrite Hid in Hg.
      destruct (String.eqb_spec u un) as [->|Hne]; [|eauto].
      eexists. split; [reflexivity|]. rewrite Hw. cbn.
      rewrite dict_get_set, String.eqb_refl. eauto.
Qed.

Lemma built_graph reviews :
  forall done g,
    backed (done ++ reviews) g -> linked g ->
    backed (done ++ reviews) (add_reviews reviews g) /\
    linked (add_reviews reviews g).
Proof.
  induction reviews as [|[[u i] x] reviews IH]; intros done g Hb Hl; [auto|].
  rewrite add_reviews_cons. cbn [fst snd].
  replace (done ++ (u, i, x) :: reviews) with ((done ++ [(u, i, x)]) ++ reviews) in *
    by now rewrite <- app_assoc.
  apply IH.
  - apply backed_add_review; [assumption|].
    apply elem_of_app. left. apply elem_of_app. right. left.
  - now apply linked_add_review.
Qed.


(** *** What the algorithm leaves untouched *)

Lemma frame_refl g : frame g g.
Proof. split; apply Forall_Forall2_diag, Forall_forall; auto. Qed.

Lemma frame_trans g1 g2 g3 : frame g1 g2 -> frame g2 g3 -> frame g1 g3.
Proof.
  intros [Hu Hi] [Hu' Hi']. split.
  - eapply Forall2_trans; [|exact Hu|exact Hu'].
    cbn. intros ? ? ? (? & ? & ?) (? & ? & ?). repeat split; congruence.
  - eapply Forall2_trans; [|exact Hi|exact Hi'].
    cbn. intros ? ? ? (? & ?) (? & ?). split; congruence.
Qed.

Lemma frame_users (f : User -> User) g items' :
  (forall u, name (f u) = name u /\ user_items (f u) = user_items u /\
             user_grade (f u) = user_grade u) ->
  Forall2 (fun it it' => id it' = id it /\ item_users it' = item_users it)
    (items g) items' ->
  frame g (mkGraph (R_max g) (v_G g) (alpha g) (N g) (basic_precision g)
             items' (f <$> users g)).
Proof.
  intros Hf Hi. split; [|exact Hi]. cbn [users].
  apply Forall2_fmap_r, Forall_Forall2_diag, Forall_forall. intros u _. apply Hf.
Qed.

Lemma items_diag g :
  Forall2 (fun it it' => id it' = id it /\ item_users it' = item_users it)
    (items g) (items g).
Proof. apply Forall_Forall2_diag, Forall_forall. auto. Qed.

Lemma frame_initial g : frame g (with_initial_reputation g).
Proof. apply frame_users; [auto|apply items_diag]. Qed.

Lemma frame_evaluate_users g : frame g (evaluate_users g).
Proof. apply frame_users; [auto|apply items_diag]. Qed.

Lemma frame_reputation g : frame g (calculate_reputation_scores g).
Proof. apply frame_users; [auto|apply items_diag]. Qed.

Lemma frame_evaluate_items g g1 : evaluate_items g = Some g1 -> frame g g1.
Proof.
  unfold evaluate_items. intros H.
  destruct (mapM (evaluate_item g) (items g)) as [items'|] eqn:E; [|discriminate].
  injection H as <-. split; cbn [users items].
  - apply Forall_Forall2_diag, Forall_forall. auto.
  - apply mapM_Some_1 in E. eapply Forall2_impl; [exact E|].
    intros it it' Hit. apply evaluate_item_shape in Hit as (? & ? & _). auto.
Qed.

Lemma frame_incentive g g2 : calculate_incentive_weights g = Some g2 -> frame g g2.
Proof.
  unfold calculate_incentive_weights. intros H.
  match type of H with context [mapM ?f _] => set (step := f) in H end.
  destruct (mapM step (users g)) as [users'|] eqn:E; [|discriminate].
  injection H as <-. split; cbn [users items]; [|apply items_diag].
  apply mapM_Some_1 in E. eapply Forall2_impl; [exact E|].
  intros u u' Hu. unfold step in Hu.
  destruct (N g =? 0)%nat; [discriminate|]. cbn in Hu.
  destruct (reputation u); [|discriminate]. injection Hu as <-. auto.
Qed.

Lemma frame_elem_user g g' u' :
  frame g g' -> u' ∈ users g' ->
  exists u, u ∈ users g /\ name u' = name u /\
            user_items u' = user_items u /\ user_grade u' = user_grade u.
Proof.
  intros [Hu _] Hin. apply list_elem_of_lookup in Hin as [k Hk].
  destruct (Forall2_lookup_r _ _ _ _ _ Hu Hk) as (u & Hl & H).
  exists u. split; [eapply list_elem_of_lookup_2, Hl|exact H].
Qed.

Lemma frame_elem_item g g' it' :
  frame g g' -> it' ∈ items g' ->
  exists it, it ∈ items g /\ id it' = id it /\ item_users it' = item_users it.
Proof.
  intros [_ Hi] Hin. apply list_elem_of_lookup in Hin as [k Hk].
  destruct (Forall2_lookup_r _ _ _ _ _ Hi Hk) as (it & Hl & H).
  exists it. split; [eapply list_elem_of_lookup_2, Hl|exact H].
Qed.

Lemma frame_get_user g g' s u :
  frame g g' -> get_user g s = Some u ->
  exists u', get_user g' s = Some u' /\ name u' = name u /\
             user_items u' = user_items u /\ user_grade u' = user_grade u.
Proof.
  intros [Hu _]. unfold get_user.
  induction Hu as [|x x' l l' (Hn & Hi & Hg) _ IH]; [discriminate|].
  cbn [List.find]. rewrite Hn. destruct (String.eqb (name x) s).
  - intros [= <-]. eauto.
  - exact IH.
Qed.

Lemma frame_backed reviews g g' : frame g g' -> backed reviews g -> backed reviews g'.
Proof.
  intros Hf Hb u' i x Hu' Hx.
  destruct (frame_elem_user g g' u' Hf Hu') as (u & Hu & Hn & _ & Hg).
  rewrite Hn. apply Hb; [assumption|]. now rewrite <- Hg.
Qed.

Lemma frame_linked g g' : frame g g' -> linked g -> linked g'.
Proof.
  intros Hf Hl it' un Hit' Hun.
  destruct (frame_elem_item g g' it' Hf Hit') as (it & Hit & Hid & Huu).
  rewrite Huu in Hun. destruct (Hl it un Hit Hun) as (u & Hu & Hg).
  destruct (frame_get_user g g' un u Hf Hu) as (u' & Hu' & _ & _ & Hg').
  exists u'. split; [assumption|]. now rewrite Hg', Hid.
Qed.

(** *** One user *)

Lemma differences_ext g g' u u' :
  items g' = items g -> user_items u' = user_items u ->
  user_grade u' = user_grade u -> differences g' u' = differences g u.
Proof.
  intros Hi Hu Hg. unfold differences, get_item. now rewrite Hi, Hu, Hg.
Qed.

Lemma differences_nonneg g u : Forall (fun d => 0 <= d) (differences g u).
Proof.
  apply Forall_forall. intros d Hd. unfold differences in Hd.
  apply list_elem_of_omap in Hd as (i & _ & Hd).
  destruct (get_item g i) as [it|]; [|discriminate]. cbn in Hd.
  destruct (item_grade it) as [c|]; [|discriminate]. cbn in Hd.
  destruct (dict_get i (user_grade u)) as [x|]; [|discriminate].
  cbn in Hd. injection Hd as <-. apply Rabs_pos.
Qed.

Lemma sum_nonneg (l : list R) : Forall (fun d => 0 <= d) l -> 0 <= sum l.
Proof. induction 1 as [|x l Hx _ IH]; [cbn; lra|rewrite sum_cons; lra]. Qed.

Lemma mean_nonneg (l : list R) : Forall (fun d => 0 <= d) l -> 0 <= mean l.
Proof.
  intros H. unfold mean. destruct l as [|x l].
  - cbn. unfold Rdiv. rewrite Rmult_0_l. lra.
  - apply Rmult_le_pos; [now apply sum_nonneg|].
    apply Rlt_le, Rinv_0_lt_compat, lt_0_INR. cbn. lia.
Qed.

Lemma evaluate_user_variance g u :
  user_grade u <> [] ->
  variance (evaluate_user g u)
  = Some (Finite (mean (differences g u) * mean (differences g u))).
Proof.
  intros Hg. unfold evaluate_user. cbn [variance].
  destruct (user_grade u); [contradiction|].
  destruct (differences g u); [|reflexivity].
  do 2 f_equal. unfold mean. cbn. unfold Rdiv. ring.
Qed.


(** *** The invariant of the run *)

Lemma dict_set_nonempty i x d : dict_set i x d <> [].
Proof.
  destruct d as [|[k v] d]; cbn; [discriminate|].
  destruct (String.eqb k i); discriminate.
Qed.

Lemma occupied_add_review u i x g : occupied g -> occupied (add_review u i x g).
Proof.
  intros Ho it Hit.
  apply elem_items_add_review in Hit as [[Hit _]|(it0 & -> & _ & _)].
  - now apply Ho.
  - cbn. apply set_add_nonempty.
Qed.

Lemma graders_add_review u i x g : graders g -> graders (add_review u i x g).
Proof.
  intros Hg w Hw.
  apply elem_users_add_review in Hw as [[Hw _]|(w0 & -> & _ & _)].
  - now apply Hg.
  - cbn. apply dict_set_nonempty.
Qed.

Lemma built_occupied reviews :
  forall g, occupied g -> graders g ->
    occupied (add_reviews reviews g) /\ graders (add_reviews reviews g).
Proof.
  induction reviews as [|[[u i] x] reviews IH]; intros g Ho Hg; [auto|].
  rewrite add_reviews_cons. cbn [fst snd]. apply IH.
  - now apply occupied_add_review.
  - now apply graders_add_review.
Qed.

Lemma frame_occupied g g' : frame g g' -> occupied g -> occupied g'.
Proof.
  intros Hf Ho it' Hit'.
  destruct (frame_elem_item g g' it' Hf Hit') as (it & Hit & _ & Hu).
  rewrite Hu. now apply Ho.
Qed.

Lemma frame_graders g g' : frame g g' -> graders g -> graders g'.
Proof.
  intros Hf Hg u' Hu'.
  destruct (frame_elem_user g g' u' Hf Hu') as (u & Hu & _ & _ & Hgr).
  rewrite Hgr. now apply Hg.
Qed.

Lemma rep_bounded_set g : rep_bounded g -> rep_set g.
Proof.
  intros H. eapply Forall_impl; [exact H|]. intros u (r & Hr & _). eauto.
Qed.

Lemma initial_inv Rm vG al Nn bp reviews :
  0 <= Rm ->
  inv reviews Rm vG
    (with_initial_reputation (add_reviews reviews (mkGraph Rm vG al Nn bp [] []))).
Proof.
  intros HR. set (g := add_reviews reviews (mkGraph Rm vG al Nn bp [] [])).
  destruct (add_reviews_spec reviews (mkGraph Rm vG al Nn bp [] []))
    as (Hfresh & _ & _ & HRm & HvG & _).
  fold g in Hfresh, HRm, HvG. cbn in HRm, HvG.
  specialize (Hfresh (Forall_nil_2 _)).
  destruct (built_graph reviews [] (mkGraph Rm vG al Nn bp [] [])) as [Hb Hl].
  { intros u i x Hu. inversion Hu. }
  { intros it un Hit. inversion Hit. }
  destruct (built_occupied reviews (mkGraph Rm vG al Nn bp [] [])) as [Ho Hg].
  { intros it Hit. inversion Hit. }
  { intros u Hu. inversion Hu. }
  fold g in Hb, Hl, Ho, Hg. cbn [app] in Hb.
  pose proof (frame_initial g) as Hf.
  split; [exact HRm|]. split; [exact HvG|]. split.
  { apply Forall_forall. intros u Hu. unfold with_initial_reputation in Hu.
    cbn [users] in Hu. apply list_elem_of_fmap in Hu as (u' & -> & _).
    cbn. exists (R_max g). split; [reflexivity|]. rewrite HRm. lra. }
  split; [exact (frame_linked _ _ Hf Hl)|].
  split; [exact (frame_backed _ _ _ Hf Hb)|].
  split; [exact (frame_occupied _ _ Hf Ho)|].
  split; [exact (frame_graders _ _ Hf Hg)|].
  right. exact Hfresh.
Qed.

Lemma round_inv reviews Rm vG g :
  0 < Rm -> 0 < vG -> inv reviews Rm vG g ->
  exists g1,
    evaluate_items g = Some g1 /\
    let g' := calculate_reputation_scores (evaluate_users g1) in
    inv reviews Rm vG g' /\ settled g' /\ frame g g' /\
    alpha g' = alpha g /\ N g' = N g.
Proof.
  intros HR HV (HRm & HvG & Hrep & Hl & Hb & Ho & Hg & _).
  destruct (evaluate_items_spec g (rep_bounded_set g Hrep))
    as (g1 & Hrun & Hu1 & HR1 & HV1 & HA1 & Hi1).
  exists g1. split; [exact Hrun|]. intros g'.
  pose proof (frame_evaluate_items g g1 Hrun) as F1.
  assert (F : frame g g').
  { eapply frame_trans; [exact F1|]. eapply frame_trans;
      [apply frame_evaluate_users|apply frame_reputation]. }
  assert (HN : N g1 = N g).
  { unfold evaluate_items in Hrun.
    destruct (mapM _ _); [|discriminate]. now injection Hrun as <-. }
  assert (Hg1 : graders g1) by exact (frame_graders _ _ F1 Hg).
  assert (Hsettled : settled g').
  { intros u' Hu'. cbv zeta. unfold g', calculate_reputation_scores in Hu'.
    cbn [users] in Hu'. apply list_elem_of_fmap in Hu' as (w & -> & Hw).
    unfold evaluate_users in Hw. cbn [users] in Hw.
    apply list_elem_of_fmap in Hw as (u & -> & Hu).
    match goal with
    | |- context [differences g' ?x] =>
        rewrite !(differences_ext g1 g' u x) by reflexivity
    end.
    set (m := mean (differences g1 u)).
    assert (Hm : 0 <= m) by apply mean_nonneg, differences_nonneg.
    pose proof (evaluate_user_variance g1 u (Hg1 u Hu)) as Hvar. fold m in Hvar.
    split; [exact Hm|]. cbn [variance reputation]. split; [exact Hvar|].
    f_equal. rewrite (reputation_score_formula _ _ _ Hvar).
    change (R_max g') with (R_max g1). change (v_G g') with (v_G g1).
    change (R_max (evaluate_users g1)) with (R_max g1).
    change (v_G (evaluate_users g1)) with (v_G g1).
    reflexivity. }
  split; [|split; [exact Hsettled|split; [exact F|split]]].
  - split; [change (R_max g') with (R_max g1); congruence|].
    split; [change (v_G g') with (v_G g1); congruence|].
    split.
    { apply Forall_forall. intros u Hu.
      destruct (proj2 (calculate_reputation_scores_bounds (evaluate_users g1)
                         ltac:(cbn; lra) ltac:(cbn; lra)) u Hu)
        as (r & Hr & Hb' & _).
      exists r. split; [exact Hr|exact Hb']. }
    split; [exact (frame_linked _ _ F Hl)|].
    split; [exact (frame_backed _ _ _ F Hb)|].
    split; [exact (frame_occupied _ _ F Ho)|].
    split; [exact (frame_graders _ _ F Hg)|].
    left. apply Forall_forall. intros u Hu.
    destruct (Hsettled u Hu) as (_ & Hv & _). rewrite Hv. eauto.
  - change (alpha g') with (alpha g1). congruence.
  - change (N g') with (N g1). congruence.
Qed.


Lemma iterate_inv reviews Rm vG n :
  0 < Rm -> 0 < vG ->
  forall g, inv reviews Rm vG g ->
    exists g', iterate n g = Some g' /\ inv reviews Rm vG g' /\ frame g g' /\
               alpha g' = alpha g /\ N g' = N g /\
               (n <> 0%nat -> settled g').
Proof.
  intros HR HV. induction n as [|n IH]; intros g Hinv.
  - exists g. split; [reflexivity|]. split; [assumption|].
    split; [apply frame_refl|]. repeat split; congruence.
  - destruct (round_inv reviews Rm vG g HR HV Hinv)
      as (g1 & Hrun & Hinv1 & Hs1 & F1 & HA1 & HN1).
    destruct (IH _ Hinv1) as (g' & Hit & Hinv' & F' & HA' & HN' & Hs').
    exists g'. cbn [iterate]. rewrite Hrun. cbn [mbind option_bind].
    split; [exact Hit|]. split; [exact Hinv'|].
    split; [eapply frame_trans; eassumption|].
    split; [congruence|]. split; [congruence|]. intros _.
    destruct n as [|n']; [|apply Hs'; discriminate].
    cbn [iterate] in Hit. injection Hit as <-. exact Hs1.
Qed.

(** The incentive weights, with what they leave as it was. *)
Lemma incentive_spec g :
  (0 < N g)%nat -> rep_set g ->
  exists g2,
    calculate_incentive_weights g = Some g2 /\
    items g2 = items g /\ R_max g2 = R_max g /\ v_G g2 = v_G g /\
    alpha g2 = alpha g /\ N g2 = N g /\
    Forall2 (fun u u2 =>
               name u2 = name u /\ user_items u2 = user_items u /\
               user_grade u2 = user_grade u /\ variance u2 = variance u /\
               reputation u2 = reputation u /\
               exists r, reputation u = Some r /\
                 incentive_weight u2
                 = Some (INR (Nat.min (length (user_items u)) (N g)) / INR (N g) * r))
      (users g) (users g2).
Proof.
  intros HN Hrep. unfold calculate_incentive_weights.
  destruct (Nat.eqb_spec (N g) 0) as [?|_]; [lia|].
  match goal with |- context [mapM ?f _] => set (step := f) end.
  destruct (mapM step (users g)) as [users'|] eqn:E.
  - eexists. split; [reflexivity|]. cbn. repeat split.
    apply mapM_Some_1 in E. eapply Forall2_impl; [exact E|].
    intros u u2 H. unfold step in H. cbn in H.
    destruct (reputation u) as [r|] eqn:Hr; [|discriminate]. cbn in H.
    injection H as <-. cbn. repeat split; eauto.
  - exfalso. apply mapM_None_1, Exists_exists in E as (u & Hu & E).
    destruct (proj1 (Forall_forall _ _) Hrep u Hu) as [r Hr].
    unfold step in E. cbn in E. rewrite Hr in E. discriminate.
Qed.

(** The whole run on the graph of a list of reviews. *)
Lemma run_spec Rm vG al Nn bp reviews n :
  0 < Rm -> 0 < vG -> (0 < Nn)%nat ->
  let g := add_reviews reviews (mkGraph Rm vG al Nn bp [] []) in
  exists g2 fg,
    final_graph n g = Some g2 /\
    evaluate_with_reputation n g = Some fg /\
    inv reviews Rm vG g2 /\ alpha g2 = al /\ N g2 = Nn /\
    (n <> 0%nat -> settled g2) /\
    (forall u, u ∈ users g2 ->
       exists r, reputation u = Some r /\
         incentive_weight u
         = Some (INR (Nat.min (length (user_items u)) Nn) / INR Nn * r)) /\
    (forall s info, (s, info) ∈ fg ->
       exists u, u ∈ users g2 /\ final_grade_of g2 u = Some (Some (s, info))) /\
    (n = 0%nat -> Forall (fun it => item_grade it = None) (items g2)).
Proof.
  intros HR HV HNn g.
  pose proof (initial_inv Rm vG al Nn bp reviews (Rlt_le _ _ HR)) as Hinv0.
  fold g in Hinv0.
  destruct (iterate_inv reviews Rm vG n HR HV _ Hinv0)
    as (g1 & Hit & Hinv1 & F1 & HA1 & HN1 & Hs1).
  assert (HAg : alpha g = al /\ N g = Nn).
  { destruct (add_reviews_spec reviews (mkGraph Rm vG al Nn bp [] []))
      as (_ & _ & _ & _ & _ & HA).
    split; [exact HA|]. unfold g. clear.
    assert (G : forall rs g, N (add_reviews rs g) = N g).
    { induction rs as [|r rs IH]; intros h; [reflexivity|].
      rewrite add_reviews_cons, IH. reflexivity. }
    rewrite G. reflexivity. }
  destruct HAg as [HAg HNg].
  cbn [with_initial_reputation alpha N] in HA1, HN1.
  pose proof Hinv1 as (HRm1 & HvG1 & Hrep1 & Hl1 & Hb1 & Ho1 & Hg1 & Hv1).
  destruct (incentive_spec g1 ltac:(lia) (rep_bounded_set g1 Hrep1))
    as (g2 & Hrun2 & Hi2 & HR2 & HV2 & HA2 & HN2 & Hus).
  pose proof (frame_incentive g1 g2 Hrun2) as F2.
  assert (Hinv2 : inv reviews Rm vG g2).
  { split; [congruence|]. split; [congruence|]. split.
    { apply Forall_forall. intros u2 Hu2.
      apply list_elem_of_lookup in Hu2 as [k Hk].
      destruct (Forall2_lookup_r _ _ _ _ _ Hus Hk) as (u & Hu & _ & _ & _ & _ & Hr & _).
      apply list_elem_of_lookup_2 in Hu.
      destruct (proj1 (Forall_forall _ _) Hrep1 u Hu) as (r & Hrr & Hb').
      exists r. split; [congruence|]. now rewrite HR2. }
    split; [exact (frame_linked _ _ F2 Hl1)|].
    split; [exact (frame_backed _ _ _ F2 Hb1)|].
    split; [exact (frame_occupied _ _ F2 Ho1)|].
    split; [exact (frame_graders _ _ F2 Hg1)|].
    destruct Hv1 as [Hv1|Hv1]; [left|right; now rewrite Hi2].
    apply Forall_forall. intros u2 Hu2.
    apply list_elem_of_lookup in Hu2 as [k Hk].
    destruct (Forall2_lookup_r _ _ _ _ _ Hus Hk) as (u & Hu & _ & _ & _ & Hv & _).
    apply list_elem_of_lookup_2 in Hu. rewrite Hv.
    exact (proj1 (Forall_forall _ _) Hv1 u Hu). }
  assert (Hw2 : forall u2, u2 ∈ users g2 ->
            exists r, reputation u2 = Some r /\
              incentive_weight u2
              = Some (INR (Nat.min (length (user_items u2)) Nn) / INR Nn * r)).
  { intros u2 Hu2. apply list_elem_of_lookup in Hu2 as [k Hk].
    destruct (Forall2_lookup_r _ _ _ _ _ Hus Hk)
      as (u & Hu & _ & Hui & _ & _ & Hr & (r & Hrr & Hw)).
    exists r. split; [congruence|]. rewrite Hw, Hui. do 4 f_equal; congruence. }
  destruct (calculate_final_grades_spec g2) as (fg & Hfg & Hentries & _).
  { apply Forall_forall. intros u2 Hu2.
    destruct (Hw2 u2 Hu2) as (r & Hr & Hw).
    split; [rewrite Hw; eauto|]. split; [rewrite Hr; eauto|].
    destruct Hinv2 as (_ & _ & _ & _ & _ & _ & _ & [Hv|Hn]).
    - left. exact (proj1 (Forall_forall _ _) Hv u2 Hu2).
    - right. intros it Hit'. unfold get_item in Hit'.
      apply find_some in Hit' as [Hin _]. apply list_elem_of_In in Hin.
      exact (proj1 (Forall_forall _ _) Hn it Hin). }
  exists g2, fg. unfold final_graph. rewrite evaluate_with_reputation_eq, Hit.
  cbn [mbind option_bind]. rewrite Hrun2. cbn [mbind option_bind].
  split; [reflexivity|]. split; [exact Hfg|]. split; [exact Hinv2|].
  split; [congruence|]. split; [congruence|]. split.
  { intros Hn u2 Hu2. cbv zeta.
    apply list_elem_of_lookup in Hu2 as [k Hk].
    destruct (Forall2_lookup_r _ _ _ _ _ Hus Hk)
      as (u & Hu & _ & Hui & Hug & Hv & Hr & _).
    apply list_elem_of_lookup_2 in Hu.
    rewrite (differences_ext g1 g2 u u2 Hi2 Hui Hug), Hv, Hr, HR2, HV2.
    exact (Hs1 Hn u Hu). }
  split; [exact Hw2|]. split; [exact Hentries|].
  intros ->. cbn [iterate] in Hit. injection Hit as <-. rewrite Hi2.
  destruct (add_reviews_spec reviews (mkGraph Rm vG al Nn bp [] [])) as (Hfresh & _).
  exact (Hfresh (Forall_nil_2 _)).
Qed.


(** *** The grades of a run *)

Lemma entry_user g2 u s info :
  final_grade_of g2 u = Some (Some (s, info)) ->
  s = name u /\
  exists it, it ∈ items g2 /\ id it = s /\
             item_grade it = Some (consensus_score info).
Proof.
  intros Hf.
  apply final_grade_of_entry in Hf as (Hs & (it & Hit & Hq) & _).
  pose proof (get_item_id g2 s it Hit) as Hid.
  unfold get_item in Hit. apply find_some in Hit as [Hin _].
  apply list_elem_of_In in Hin.
  split; [exact Hs|]. eauto.
Qed.


(** X18. A student gets a final grade only when this student graded at
    least one paper and the student's own paper received at least one
    grade: someone who reviewed nobody has no entry in the final grades,
    whatever grades their paper received.  Without iteration there is no
    entry at all. *)
Theorem X18_final_grades_need_both_roles (Rm vG al : R) (Nn : nat) (bp : R)
    (reviews : list (string * string * R)) (n : nat) :
  0 < Rm -> 0 < vG -> (0 < Nn)%nat ->
  exists g fg,
    graph_of Rm vG al Nn bp reviews = Some g /\
    evaluate_with_reputation n g = Some fg /\
    (forall s info, (s, info) ∈ fg ->
       (exists i x, (s, i, x) ∈ reviews) /\ (exists u x, (u, s, x) ∈ reviews)) /\
    (n = 0%nat -> fg = []).
Proof.
  intros HR HV HN.
  destruct (run_spec Rm vG al Nn bp reviews n HR HV HN)
    as (g2 & fg & _ & Hrun & Hinv & _ & _ & _ & _ & Hentries & Hzero).
  eexists _, fg. split; [apply graph_of_Some; lra|].
  split; [exact Hrun|]. split.
  - intros s info Hin. destruct (Hentries s info Hin) as (u & Hu & Hf).
    destruct (entry_user g2 u s info Hf) as (-> & (it & Hit & Hid & _)).
    destruct Hinv as (_ & _ & _ & Hl & Hb & Ho & Hg & _). split.
    + specialize (Hg u Hu). destruct (user_grade u) as [|[i x] d] eqn:E;
        [contradiction|].
      exists i, x. apply Hb; [assumption|]. rewrite E. cbn.
      now rewrite String.eqb_refl.
    + specialize (Ho it Hit). destruct (item_users it) as [|un l] eqn:E;
        [contradiction|].
      destruct (Hl it un Hit) as (w & Hw & [x Hx]); [rewrite E; left|].
      pose proof (get_user_name g2 un w Hw) as [Hn Hwin].
      exists un, x. rewrite <- Hn, <- Hid. now apply Hb.
  - intros Hn. specialize (Hzero Hn). destruct fg as [|[s info] fg']; [reflexivity|].
    exfalso. destruct (Hentries s info) as (u & Hu & Hf); [left|].
    destruct (entry_user g2 u s info Hf) as (_ & (it & Hit & _ & Hq)).
    rewrite (proj1 (Forall_forall _ _) Hzero it Hit) in Hq. discriminate.
Qed.

(** *** The theorems on the reviews of the example *)


Lemma X18_final_grades_need_both_roles_witness :
  exists g fg,
    graph_of 1 8 (1 / 10) 4 (1 / 10000) reviews_E = Some g /\
    evaluate_with_reputation 25 g = Some fg /\
    (forall s info, (s, info) ∈ fg ->
       (exists i x, (s, i, x) ∈ reviews_E) /\
       (exists u x, (u, s, x) ∈ reviews_E)) /\
    (25%nat = 0%nat -> fg = []).
Proof.
  apply (X18_final_grades_need_both_roles 1 8 (1 / 10) 4 (1 / 10000) reviews_E 25);
    [lra|lra|lia].
Defined.

End RunFacts.

(* ===================================================================== *)
(** ** Properties of the weighted median *)
(* ===================================================================== *)

Module MedianFacts.
Import Consensus Median.

Local Open Scope R_scope.

Lemma insert_perm a l : insert a l ≡ₚ a :: l.
Proof.
  induction l as [|b l IH]; cbn; [reflexivity|].
  destruct (pair_lt a b); [reflexivity|].
  rewrite IH. apply Permutation_swap.
Qed.

Lemma sort_perm l : sort l ≡ₚ l.
Proof.
  induction l as [|a l IH]; cbn; [reflexivity|].
  rewrite insert_perm. by rewrite IH.
Qed.

(** The loop stops at an index [i + k] with [below] the sum of the [k]
    weights it passed, still under [half]. *)
Lemma scan_spec (w : list R) (half below : R) (i : nat) :
  below < half ->
  exists k b, scan w half below i = ((i + k)%nat, b) /\
    b = below + sum (take k w) /\ b < half /\
    ((k = length w) \/ exists wk, w !! k = Some wk /\ ~ b + wk < half).
Proof.
  revert below i. induction w as [|wi w IH]; intros below i Hb; cbn [scan].
  - exists 0%nat, below. rewrite Nat.add_0_r. cbn. repeat split; [lra|lra|by left].
  - destruct (Rlt_dec (below + wi) half) as [Hlt|Hge].
    + destruct (IH (below + wi) (S i) Hlt) as (k & b & -> & Hsum & Hlt' & Hk).
      exists (S k), b. replace (S i + k)%nat with (i + S k)%nat by lia.
      split; [reflexivity|]. cbn [take sum fold_right]. unfold sum in Hsum.
      split; [lra|]. split; [assumption|].
      destruct Hk as [->|Hk]; [by left|by right].
    + exists 0%nat, below. rewrite Nat.add_0_r. cbn.
      split; [reflexivity|]. split; [lra|]. split; [assumption|].
      right. by exists wi.
Qed.

Lemma positive_ones (values : list R) :
  positive values (replicate (length values) 1) = Some ((fun x => (x, 1)) <$> values).
Proof.
  induction values as [|x values IH]; [reflexivity|].
  cbn [length replicate positive]. rewrite IH. cbn.
  destruct (Rlt_dec 0 1); [reflexivity|lra].
Qed.

Lemma pair_lt_true a b : pair_lt a b = true -> a.1 <= b.1.
Proof.
  unfold pair_lt, ltb. destruct (Req_EM_T a.1 b.1); [lra|].
  destruct (Rlt_dec a.1 b.1); [lra|discriminate].
Qed.

Lemma pair_lt_false a b : pair_lt a b = false -> b.1 <= a.1.
Proof.
  unfold pair_lt, ltb. destruct (Req_EM_T a.1 b.1); [lra|].
  destruct (Rlt_dec a.1 b.1); [discriminate|lra].
Qed.

Lemma insert_sorted a l :
  StronglySorted (fun p q : R * R => p.1 <= q.1) l ->
  StronglySorted (fun p q : R * R => p.1 <= q.1) (insert a l).
Proof.
  induction 1 as [|b l Hl IH Hb]; cbn [insert]; [repeat constructor|].
  destruct (pair_lt a b) eqn:E.
  - apply pair_lt_true in E. constructor; [by constructor|].
    constructor; [assumption|]. eapply Forall_impl; [exact Hb|].
    cbn. intros; lra.
  - apply pair_lt_false in E. constructor; [assumption|].
    rewrite insert_perm. by constructor.
Qed.

Lemma sort_sorted l : StronglySorted (fun p q : R * R => p.1 <= q.1) (sort l).
Proof. induction l as [|a l IH]; cbn; [constructor|by apply insert_sorted]. Qed.

Lemma sorted_fst (l : list (R * R)) :
  StronglySorted (fun p q : R * R => p.1 <= q.1) l -> StronglySorted Rle l.*1.
Proof.
  induction 1 as [|b l Hl IH Hb]; cbn; constructor; [assumption|].
  by apply Forall_fmap.
Qed.

Lemma sum_replicate n : sum (replicate n 1) = INR n.
Proof.
  unfold sum. induction n as [|n IH]; [reflexivity|].
  rewrite S_INR. cbn [replicate fold_right]. rewrite IH. lra.
Qed.

Lemma snd_ones (l : list (R * R)) :
  Forall (fun p => p.2 = 1) l -> l.*2 = replicate (length l) 1.
Proof. induction 1 as [|[x w] l Hw Hl IH]; cbn in *; [done|]. by rewrite IH, Hw. Qed.

(** X20. Without weights the function is the median of the values: the
    middle one of the sorted values when their number is odd, and the
    mean of the two middle ones when it is even. *)
Theorem X20_median_aggregate_plain (values : list R) :
  values <> [] ->
  exists s, s ≡ₚ values /\ StronglySorted Rle s /\
    let n := length values in
    (Nat.odd n = true -> median_aggregate values None = s !! (n / 2)%nat) /\
    (Nat.even n = true ->
       exists a b, s !! (n / 2 - 1)%nat = Some a /\ s !! (n / 2)%nat = Some b /\
         median_aggregate values None = Some ((a + b) / 2)).
Proof.
  intros Hne.
  set (vv0 := (fun x : R => (x, 1)) <$> values).
  exists (sort vv0).*1.
  assert (Hperm : (sort vv0).*1 ≡ₚ values).
  { rewrite sort_perm. unfold vv0. clear.
    induction values as [|x values IH]; cbn; [done|]. by rewrite IH. }
  split; [exact Hperm|]. split; [apply sorted_fst, sort_sorted|].
  cbv zeta.
  destruct values as [|x [|y values]]; [done| |].
  { cbn. split; [done|discriminate]. }
  set (vals := x :: y :: values) in *.
  assert (Hmed : median_aggregate vals None =
    (let vv := sort vv0 in
     let v := vv.*1 in
     let w := vv.*2 in
     let half := sum w / 2 in
     let '(i, below) := scan w half 0 0 in
     wi ← w !! i;
     vi ← v !! i;
     if Rlt_dec half (below + 0.5 * wi) then
       if (i =? 0)%nat then head v
       else
         let alpha := half - below in
         let beta := below + 0.5 * wi - half in
         vp ← v !! (i - 1)%nat;
         Some ((beta * (vi + vp) / 2 + alpha * vi) / (alpha + beta))
     else
       if (i =? length v - 1)%nat then Some vi
       else
         let alpha := half - below - 0.5 * wi in
         let beta := below + wi - half in
         vn ← v !! (i + 1)%nat;
         Some ((beta * vi + alpha * (vi + vn) / 2) / (alpha + beta)))).
  { unfold median_aggregate, vals.
    change (default _ None) with (replicate (length (x :: y :: values)) 1).
    rewrite positive_ones. reflexivity. }
  rewrite Hmed. clear Hmed. cbv zeta.
  set (s := sort vv0) in *.
  set (n := length vals).
  assert (Hl : length s = n).
  { unfold s. rewrite sort_perm. unfold vv0. by rewrite length_fmap. }
  assert (Hn : (2 <= n)%nat) by (unfold n, vals; cbn; lia).
  assert (Hw : s.*2 = replicate n 1).
  { rewrite <- Hl. apply snd_ones. unfold s. rewrite sort_perm. unfold vv0.
    apply Forall_fmap, Forall_forall. done. }
  rewrite Hw, sum_replicate.
  destruct (scan_spec (replicate n 1) (INR n / 2) 0 0) as (k & b & -> & Hb & Hlt & Hk).
  { assert (0 < INR n) by (apply lt_0_INR; lia). lra. }
  cbn [Nat.add].
  rewrite take_replicate, sum_replicate in Hb.
  destruct Hk as [->|(wk & Hwk & Hge)].
  { rewrite length_replicate, Nat.min_id in Hb.
    assert (0 < INR n) by (apply lt_0_INR; lia). lra. }
  pose proof (lookup_lt_Some _ _ _ Hwk) as Hkn. rewrite length_replicate in Hkn.
  apply lookup_replicate in Hwk as [-> _].
  rewrite Nat.min_l in Hb by lia. rewrite Rplus_0_l in Hb. subst b.
  rewrite lookup_replicate_2 by lia. cbn [mbind option_bind].
  assert (H1 : (2 * k < n)%nat).
  { apply INR_lt. rewrite mult_INR. cbn [INR]. lra. }
  assert (H2 : (n <= 2 * k + 2)%nat).
  { apply INR_le. rewrite plus_INR, mult_INR. cbn [INR]. lra. }
  destruct (lookup_lt_is_Some_2 s.*1 k) as [vk Hvk]; [rewrite length_fmap; lia|].
  rewrite Hvk. cbn [mbind option_bind].
  rewrite length_fmap, Hl.
  assert (Hcase : n = (2 * k + 1)%nat \/ n = (2 * k + 2)%nat) by lia.
  destruct Hcase as [E|E].
  - assert (Hhalf : INR n / 2 = INR k + 0.5).
    { rewrite E, plus_INR, mult_INR. cbn [INR]. lra. }
    rewrite Hhalf.
    destruct (Rlt_dec _ _) as [?|_]; [lra|].
    destruct (Nat.eqb_spec k (n - 1)) as [?|_]; [lia|].
    destruct (lookup_lt_is_Some_2 s.*1 (k + 1)) as [vn Hvn];
      [rewrite length_fmap; lia|].
    rewrite Hvn. cbn [mbind option_bind].
    assert (Hdiv : (n / 2 = k)%nat).
    { rewrite E. replace (2 * k + 1)%nat with (1 + k * 2)%nat by lia.
      rewrite Nat.div_add by lia. reflexivity. }
    split.
    + intros _. rewrite Hdiv, Hvk. f_equal. field. lra.
    + intros Hev. rewrite E in Hev.
      replace (2 * k + 1)%nat with (S (2 * k)) in Hev by lia.
      rewrite Nat.even_succ, Nat.odd_mul in Hev. discriminate.
  - assert (Hhalf : INR n / 2 = INR k + 1).
    { rewrite E, plus_INR, mult_INR. cbn [INR]. lra. }
    rewrite Hhalf.
    destruct (Rlt_dec _ _) as [?|_]; [lra|].
    destruct (Nat.eqb_spec k (n - 1)) as [?|_]; [lia|].
    destruct (lookup_lt_is_Some_2 s.*1 (k + 1)) as [vn Hvn];
      [rewrite length_fmap; lia|].
    rewrite Hvn. cbn [mbind option_bind].
    assert (Hdiv : (n / 2 = k + 1)%nat).
    { rewrite E. replace (2 * k + 2)%nat with ((k + 1) * 2)%nat by lia.
      apply Nat.div_mul. lia. }
    split.
    + intros Hodd. rewrite E in Hodd.
      rewrite Nat.odd_add_even in Hodd by (exists 1%nat; lia).
      rewrite Nat.odd_mul in Hodd. discriminate.
    + intros _. exists vk, vn. rewrite Hdiv.
      replace (k + 1 - 1)%nat with k by lia.
      split; [exact Hvk|]. split; [exact Hvn|]. f_equal. field. lra.
Qed.

Lemma X20_median_aggregate_plain_witness :
  exists s, s ≡ₚ [1; 3; 2; 4] /\ StronglySorted Rle s /\
    (Nat.odd 4 = true -> median_aggregate [1; 3; 2; 4] None = s !! (4 / 2)%nat) /\
    (Nat.even 4 = true ->
       exists a b, s !! (4 / 2 - 1)%nat = Some a /\ s !! (4 / 2)%nat = Some b /\
         median_aggregate [1; 3; 2; 4] None = Some ((a + b) / 2)).
Proof.
  apply (X20_median_aggregate_plain [1; 3; 2; 4]). discriminate.
Defined.

End MedianFacts.
